(** * LSB image steganography: the encoder and decoder of encode.c and decode.c

    A shallow embedding of the bit codec, the container writer and reader, the
    capacity check, the two pipelines [do_encoding] and [do_decoding], the
    reading of the command line and [main], followed by the properties proved
    about them.

    Conventions of the embedding.
    - A byte of memory or of a file is an integer in [0, 256); a file is the
      list of its bytes.  Reading a [char] object promotes it to [int]
      ([int_of_char]); whether plain [char] is signed is left to the target.
    - [int] and [uint] are 32 bits wide, [long] is at least as wide; the
      conversions wrap ([int_wrap], [uint_wrap]).  The host is little-endian,
      as [get_image_size_for_bmp] reads the header fields in place.
    - A local array that the C code does not initialise starts with
      indeterminate bytes; the target gives them, array by array ([uninit]).
    - A function returns [None] where the C code has no defined behaviour
      (a copy from NULL, a copy that overruns its destination).
    - Pointers handed to the functions are never NULL, so the NULL guards at
      the head of the C functions are not represented.
    - strcpy(base, token) in do_decoding copies inside one array; it is taken
      to bring the token to the front of base, as the C libraries do.
    - The paths given on the command line name distinct files that [fopen]
      opens; [fread] meets no error but the end of the file, [fwrite] and
      [fseek] do not fail.  Of the console only the ERROR lines of the two
      pipelines are kept, they tell the failing stage.  [main] is given the
      bytes of the files by name and returns the exit status.
    - encode.h and types.h are not at hand.  MAGIC_STRING and MAX_FILE_SUFFIX
      are taken from decode.h, which main.c includes next to encode.h;
      of EncodeInfo the fields that encode.c uses are kept, with the types of
      their namesakes in DecodeInfo: extn_secret_file is an array of
      MAX_FILE_SUFFIX characters, kept as the C string it holds. *)

From Stdlib Require Import ZArith Lia.
From stdpp Require Import base numbers list strings.

Local Open Scope Z_scope.

(** ** types.h and decode.h *)

Inductive Status := e_success | e_failure.

Global Instance Status_eq_dec : EqDecision Status.
Proof. solve_decision. Defined.

Definition MAGIC_STRING : string := "#*".
Definition MAX_FILE_SUFFIX : Z := 5.

(** The parameters the C standard leaves to the implementation. *)
Class Target := {
  char_signed : bool;      (* is plain char a signed type *)
  uninit : string → nat → Z   (* byte found at an offset of an uninitialised local *)
}.

(** ** Machine integers and characters *)

Definition uint_wrap (x : Z) : Z := x mod 2 ^ 32.
Definition int_wrap (x : Z) : Z := (x + 2 ^ 31) mod 2 ^ 32 - 2 ^ 31.
Definition uchar_wrap (x : Z) : Z := x mod 256.

Definition int_of_char {T : Target} (c : Z) : Z :=
  if char_signed && bool_decide (128 ≤ c) then c - 256 else c.

(* storing an int into a char object keeps the low eight bits *)
Definition char_of_int (x : Z) : Z := x mod 256.

Definition byte_of_ascii (c : Ascii.ascii) : Z := Z.of_N (Ascii.N_of_ascii c).
Definition ascii_of_byte (b : Z) : Ascii.ascii := Ascii.ascii_of_N (Z.to_N b).

Definition bytes_of_string (s : string) : list Z :=
  byte_of_ascii <$> String.list_ascii_of_string s.
Definition string_of_bytes (l : list Z) : string :=
  String.string_of_list_ascii (ascii_of_byte <$> l).

(* the C string held in a char array: the bytes before the first NUL *)
Fixpoint c_str (buf : list Z) : list Z :=
  match buf with
  | [] => []
  | b :: buf' => if bool_decide (b = 0) then [] else b :: c_str buf'
  end.

(* the local array of the given name as its function finds it: n bytes *)
Definition fresh {T : Target} (array : string) (n : nat) : list Z :=
  uninit array <$> seq 0 n.

(* the four bytes of an unsigned int object, little-endian *)
Definition le32 (b : list Z) : Z :=
  b !!! 0%nat + b !!! 1%nat * 2 ^ 8 + b !!! 2%nat * 2 ^ 16 + b !!! 3%nat * 2 ^ 24.

(** ** stdio streams *)

Record FILE := mkFILE { path : string; contents : list Z; offset : nat }.

Definition fopen_rb (name : string) (bytes : list Z) : FILE := mkFILE name bytes 0.
Definition fopen_wb (name : string) : FILE := mkFILE name [] 0.

Definition fseek_set (f : FILE) (k : nat) : FILE := mkFILE (path f) (contents f) k.
Definition rewind (f : FILE) : FILE := fseek_set f 0.

(* fread(buf, 1, n, f) and fread(buf, n, 1, f) transfer the same bytes: those
   available, at most n; the rest of buf keeps what it held.  The count
   returned here is the number of bytes transferred. *)
Definition fread (buf : list Z) (n : nat) (f : FILE) : list Z * nat * FILE :=
  let got := take n (drop (offset f) (contents f)) in
  (got ++ drop (length got) buf, length got,
   mkFILE (path f) (contents f) (offset f + length got)).

(* fwrite(buf, 1, n, f): the first n bytes of buf go to the file at its
   offset, which is never past the end of the file here *)
Definition fwrite (buf : list Z) (n : nat) (f : FILE) : nat * FILE :=
  let bytes := take n buf in
  (length bytes,
   mkFILE (path f)
          (take (offset f) (contents f) ++ bytes
             ++ drop (offset f + length bytes) (contents f))
          (offset f + length bytes)).

(** ** encode.c *)

Module Encode.

Record EncodeInfo := mkEncodeInfo {
  src_image_fname : string;
  fptr_src_image : FILE;
  secret_fname : string;
  fptr_secret : FILE;
  extn_secret_file : string;
  size_secret_file : Z;
  stego_image_fname : string;
  fptr_stego_image : FILE
}.

Definition set_files (e : EncodeInfo) (src secret stego : FILE) : EncodeInfo :=
  mkEncodeInfo (src_image_fname e) src (secret_fname e) secret
    (extn_secret_file e) (size_secret_file e) (stego_image_fname e) stego.
Definition set_src_stego (e : EncodeInfo) (src stego : FILE) : EncodeInfo :=
  set_files e src (fptr_secret e) stego.
Definition set_extn_secret_file (e : EncodeInfo) (x : string) : EncodeInfo :=
  mkEncodeInfo (src_image_fname e) (fptr_src_image e) (secret_fname e) (fptr_secret e)
    x (size_secret_file e) (stego_image_fname e) (fptr_stego_image e).
Definition set_size_secret_file (e : EncodeInfo) (n : Z) : EncodeInfo :=
  mkEncodeInfo (src_image_fname e) (fptr_src_image e) (secret_fname e) (fptr_secret e)
    (extn_secret_file e) n (stego_image_fname e) (fptr_stego_image e).

Section Encode.
Context {T : Target}.

Definition get_image_size_for_bmp (fptr_image : FILE) : Z * FILE :=
  let f := fseek_set fptr_image 18 in
  let '(width, _, f) := fread (fresh "get_image_size_for_bmp.width" 4) 4 f in
  let '(height, _, f) := fread (fresh "get_image_size_for_bmp.height" 4) 4 f in
  (uint_wrap (le32 width * le32 height * 3), f).

Definition get_file_size (fptr : FILE) : Z * FILE :=
  (uint_wrap (Z.of_nat (length (contents fptr))), rewind fptr).

Definition copy_bmp_header (fptr_src_image fptr_dest_image : FILE) : Status * FILE * FILE :=
  let src := fseek_set fptr_src_image 0 in
  let dest := fseek_set fptr_dest_image 0 in
  let '(buffer, _, src) := fread (fresh "copy_bmp_header.buffer" 54) 54 src in
  let '(_, dest) := fwrite buffer 54 dest in
  (e_success, src, dest).

Definition check_capacity (encInfo : EncodeInfo) : Status * EncodeInfo :=
  let '(image_capacity, src) := get_image_size_for_bmp (fptr_src_image encInfo) in
  let '(secret_file_size, secret) := get_file_size (fptr_secret encInfo) in
  let encInfo := set_files encInfo src secret (fptr_stego_image encInfo) in
  let required_bytes := image_capacity / 8 in
  if bool_decide (required_bytes < uint_wrap (secret_file_size + 14))
  then (e_failure, encInfo)
  else (e_success, encInfo).

Definition encode_byte_to_lsb (data : Z) (image_buffer : list Z) : Status * list Z :=
  (e_success,
   foldl (λ buf i,
            <[i := char_of_int
                     (Z.lor (Z.land (int_of_char (buf !!! i)) (Z.lnot 1))
                            (Z.land (Z.shiftr (int_of_char data) (Z.of_nat i)) 1))]> buf)
         image_buffer (seq 0 8)).

Definition encode_size_to_lsb (size : Z) (image_buffer : list Z) : Status * list Z :=
  (e_success,
   foldl (λ buf i,
            <[i := char_of_int
                     (Z.lor (Z.land (int_of_char (buf !!! i)) (Z.lnot 1))
                            (Z.land (Z.shiftr size (Z.of_nat i)) 1))]> buf)
         image_buffer (seq 0 32)).

(* the body of the for loop of encode_data_to_image, once per data byte;
   buffer is the local array, which lives across the iterations *)
Fixpoint encode_data_loop (data buffer : list Z) (fptr_src_image fptr_stego_image : FILE)
  : Status * FILE * FILE :=
  match data with
  | [] => (e_success, fptr_src_image, fptr_stego_image)
  | d :: data' =>
      let '(buffer, _, src) := fread buffer 8 fptr_src_image in
      let '(st, buffer) := encode_byte_to_lsb (uchar_wrap d) buffer in
      if bool_decide (st ≠ e_success) then (e_failure, src, fptr_stego_image)
      else
        let '(_, stego) := fwrite buffer 8 fptr_stego_image in
        encode_data_loop data' buffer src stego
  end.

Definition encode_data_to_image (data : list Z) (size : nat)
    (fptr_src_image fptr_stego_image : FILE) : Status * FILE * FILE :=
  encode_data_loop (take size data) (fresh "encode_data_to_image.buffer" 8)
    fptr_src_image fptr_stego_image.

Definition encode_magic_string (magic_string : string) (encInfo : EncodeInfo)
  : Status * EncodeInfo :=
  let length := String.length magic_string in
  let '(st, src, stego) :=
    encode_data_to_image (bytes_of_string magic_string) length
      (fptr_src_image encInfo) (fptr_stego_image encInfo) in
  let encInfo := set_src_stego encInfo src stego in
  if bool_decide (st ≠ e_success) then (e_failure, encInfo) else (e_success, encInfo).

Definition encode_secret_file_extn_size (size : Z) (fptr_src_image fptr_stego_image : FILE)
  : Status * FILE * FILE :=
  let '(arr, _, src) :=
    fread (fresh "encode_secret_file_extn_size.arr" 32) 32 fptr_src_image in
  let '(_, arr) := encode_size_to_lsb size arr in
  let '(_, stego) := fwrite arr 32 fptr_stego_image in
  (e_success, src, stego).

Definition encode_secret_file_extn (file_extn : string) (encInfo : EncodeInfo)
  : Status * EncodeInfo :=
  let '(st, src, stego) :=
    encode_data_to_image (bytes_of_string file_extn) (String.length file_extn)
      (fptr_src_image encInfo) (fptr_stego_image encInfo) in
  let encInfo := set_src_stego encInfo src stego in
  if bool_decide (st ≠ e_success) then (e_failure, encInfo) else (e_success, encInfo).

Definition encode_secret_file_size (file_size : Z) (encInfo : EncodeInfo)
  : Status * EncodeInfo :=
  if bool_decide (file_size < 0) then (e_failure, encInfo)
  else
    let '(arr, _, src) :=
      fread (fresh "encode_secret_file_size.arr" 32) 32 (fptr_src_image encInfo) in
    let '(_, arr) := encode_size_to_lsb file_size arr in
    let '(_, stego) := fwrite arr 32 (fptr_stego_image encInfo) in
    (e_success, set_src_stego encInfo src stego).

(* the while loop of encode_secret_file_data: one chunk of at most 512 bytes
   per turn, until fread returns 0.  Every turn but the last moves the offset
   of the secret file forward, so fuel beyond the length of the file is never
   used up ([encode_secret_chunks_run]). *)
Fixpoint encode_secret_chunks (fuel : nat) (fptr_secret fptr_src_image fptr_stego_image : FILE)
  : Status * FILE * FILE * FILE :=
  match fuel with
  | O => (e_failure, fptr_secret, fptr_src_image, fptr_stego_image)
  | S fuel =>
      let '(buffer, nread, secret) :=
        fread (fresh "encode_secret_file_data.buffer" 512) 512 fptr_secret in
      if bool_decide (0 < nread)%nat then
        let '(st, src, stego) :=
          encode_data_to_image buffer nread fptr_src_image fptr_stego_image in
        if bool_decide (st ≠ e_success) then (e_failure, secret, src, stego)
        else encode_secret_chunks fuel secret src stego
      else (e_success, secret, fptr_src_image, fptr_stego_image)
  end.

Definition encode_secret_file_data (encInfo : EncodeInfo) : Status * EncodeInfo :=
  let secret := rewind (fptr_secret encInfo) in
  let '(st, secret, src, stego) :=
    encode_secret_chunks (S (length (contents secret))) secret
      (fptr_src_image encInfo) (fptr_stego_image encInfo) in
  (st, set_files encInfo src secret stego).

(* the while loop of copy_remaining_img_data *)
Fixpoint copy_remaining_chunks (fuel : nat) (fptr_src fptr_dest : FILE)
  : Status * FILE * FILE :=
  match fuel with
  | O => (e_failure, fptr_src, fptr_dest)
  | S fuel =>
      let '(buffer, nread, src) :=
        fread (fresh "copy_remaining_img_data.buffer" 512) 512 fptr_src in
      if bool_decide (0 < nread)%nat then
        let '(nwritten, dest) := fwrite buffer nread fptr_dest in
        if bool_decide (nwritten ≠ nread) then (e_failure, src, dest)
        else copy_remaining_chunks fuel src dest
      else (e_success, src, fptr_dest)
  end.

Definition copy_remaining_img_data (fptr_src fptr_dest : FILE) : Status * FILE * FILE :=
  copy_remaining_chunks (S (length (contents fptr_src) - offset fptr_src)) fptr_src fptr_dest.

(* strstr(haystack, needle): the suffix of haystack at the first occurrence of
   needle, NULL (None) when there is none *)
Fixpoint strstr (haystack needle : string) : option string :=
  if String.prefix needle haystack then Some haystack
  else match haystack with
       | EmptyString => None
       | String _ rest => strstr rest needle
       end.

(* open_files: the source image and the secret file are opened for reading,
   the stego image is created empty *)
Definition open_files (encInfo : EncodeInfo) (src_image secret : list Z)
  : Status * EncodeInfo :=
  (e_success,
   set_files encInfo
     (fopen_rb (src_image_fname encInfo) src_image)
     (fopen_rb (secret_fname encInfo) secret)
     (fopen_wb (stego_image_fname encInfo))).

(* do_encoding.  The result is None where the C code has no defined behaviour:
   strcpy from the NULL that strstr returns for a name without a period, and
   strcpy of a suffix that, with its terminator, does not fit the
   MAX_FILE_SUFFIX characters of extn_secret_file. *)
Definition do_encoding (encInfo : EncodeInfo) (src_image secret : list Z)
  : option (Status * list string * EncodeInfo) :=
  let '(st, encInfo) := open_files encInfo src_image secret in
  if bool_decide (st ≠ e_success) then
    Some (e_failure, ["ERROR: open_files failed "], encInfo)
  else
  let '(size, fsecret) := get_file_size (fptr_secret encInfo) in
  let encInfo :=
    set_size_secret_file
      (set_files encInfo (fptr_src_image encInfo) fsecret (fptr_stego_image encInfo)) size in
  if bool_decide (size_secret_file encInfo ≤ 0) then
    Some (e_failure, ["ERROR: Secret file empty or unreadable"], encInfo)
  else
  let '(st, encInfo) := check_capacity encInfo in
  if bool_decide (st ≠ e_success) then
    Some (e_failure,
          ["ERROR: Image does not have enough capacity to hold the secret"], encInfo)
  else
  let encInfo :=
    set_src_stego encInfo (rewind (fptr_src_image encInfo)) (fptr_stego_image encInfo) in
  let '(st, src, stego) :=
    copy_bmp_header (fptr_src_image encInfo) (fptr_stego_image encInfo) in
  let encInfo := set_src_stego encInfo src stego in
  if bool_decide (st ≠ e_success) then
    Some (e_failure, ["ERROR: copy_bmp_header failed"], encInfo)
  else
  let '(st, encInfo) := encode_magic_string MAGIC_STRING encInfo in
  if bool_decide (st ≠ e_success) then
    Some (e_failure, ["ERROR: encode_magic_string failed"], encInfo)
  else
  match strstr (secret_fname encInfo) "." with
  | None => None
  | Some extn =>
  if bool_decide (MAX_FILE_SUFFIX ≤ Z.of_nat (String.length extn)) then None
  else
  let encInfo := set_extn_secret_file encInfo extn in
  let '(st, src, stego) :=
    encode_secret_file_extn_size
      (int_wrap (Z.of_nat (String.length (extn_secret_file encInfo))))
      (fptr_src_image encInfo) (fptr_stego_image encInfo) in
  let encInfo := set_src_stego encInfo src stego in
  if bool_decide (st ≠ e_success) then
    Some (e_failure, ["ERROR : Failed to encode secret file extn size"], encInfo)
  else
  let '(st, encInfo) := encode_secret_file_extn (extn_secret_file encInfo) encInfo in
  if bool_decide (st ≠ e_success) then
    Some (e_failure, ["ERROR : Failed to encode secret file extn"], encInfo)
  else
  let '(st, encInfo) :=
    encode_secret_file_size (int_wrap (size_secret_file encInfo)) encInfo in
  if bool_decide (st ≠ e_success) then
    Some (e_failure, ["ERROR: encode_secret_file_size failed"], encInfo)
  else
  let '(st, encInfo) := encode_secret_file_data encInfo in
  if bool_decide (st ≠ e_success) then
    Some (e_failure, ["ERROR: encode_secret_file_data failed"], encInfo)
  else
  let '(st, src, stego) :=
    copy_remaining_img_data (fptr_src_image encInfo) (fptr_stego_image encInfo) in
  let encInfo := set_src_stego encInfo src stego in
  if bool_decide (st ≠ e_success) then
    Some (e_failure, ["ERROR: copy_remaining_img_data failed"], encInfo)
  else Some (e_success, [], encInfo)
  end.

End Encode.

(* what read_and_validate_encode_args leaves in the structure that main has
   cleared: the three file names; an empty stream stands for the three
   pointers, which are NULL until open_files sets them *)
Definition encode_args (src_image_fname secret_fname stego_image_fname : string)
  : EncodeInfo :=
  mkEncodeInfo src_image_fname (fopen_wb "") secret_fname (fopen_wb "") "" 0
    stego_image_fname (fopen_wb "").

Definition set_src_image_fname (e : EncodeInfo) (x : string) : EncodeInfo :=
  mkEncodeInfo x (fptr_src_image e) (secret_fname e) (fptr_secret e)
    (extn_secret_file e) (size_secret_file e) (stego_image_fname e) (fptr_stego_image e).
Definition set_secret_fname (e : EncodeInfo) (x : string) : EncodeInfo :=
  mkEncodeInfo (src_image_fname e) (fptr_src_image e) x (fptr_secret e)
    (extn_secret_file e) (size_secret_file e) (stego_image_fname e) (fptr_stego_image e).
Definition set_stego_image_fname (e : EncodeInfo) (x : string) : EncodeInfo :=
  mkEncodeInfo (src_image_fname e) (fptr_src_image e) (secret_fname e) (fptr_secret e)
    (extn_secret_file e) (size_secret_file e) x (fptr_stego_image e).

(* read_and_validate_encode_args: argv holds the argc arguments; the names
   stored before a check fails stay in the structure *)
Definition read_and_validate_encode_args (argv : list string) (encInfo : EncodeInfo)
  : Status * EncodeInfo :=
  let argc := length argv in
  if bool_decide (argc < 4)%nat then (e_failure, encInfo)
  else if bool_decide (strstr (argv !!! 2%nat) ".bmp" = None) then (e_failure, encInfo)
  else
    let encInfo := set_src_image_fname encInfo (argv !!! 2%nat) in
    if bool_decide (strstr (argv !!! 3%nat) ".txt" = None)
       && bool_decide (strstr (argv !!! 3%nat) ".pdf" = None)
       && bool_decide (strstr (argv !!! 3%nat) ".mp3" = None)
       && bool_decide (strstr (argv !!! 3%nat) ".mp4" = None)
    then (e_failure, encInfo)
    else
      let encInfo := set_secret_fname encInfo (argv !!! 3%nat) in
      if bool_decide (5 ≤ argc)%nat then
        let encInfo := set_stego_image_fname encInfo (argv !!! 4%nat) in
        if bool_decide (strstr (stego_image_fname encInfo) ".bmp" = None)
        then (e_failure, encInfo)
        else (e_success, encInfo)
      else (e_success, set_stego_image_fname encInfo "stego.bmp").

End Encode.

(** ** decode.c *)

Module Decode.

Record DecodeInfo := mkDecodeInfo {
  stego_image_fname : string;
  fptr_stego_image : FILE;
  output_fname : option string;          (* NULL when no name was given *)
  fptr_secret_out : option FILE;         (* NULL until the output file is opened *)
  extn_secret_file : list Z;             (* char [MAX_FILE_SUFFIX] *)
  size_secret_file : Z;
  extn_size : Z
}.

Definition set_fptr_stego_image (d : DecodeInfo) (f : FILE) : DecodeInfo :=
  mkDecodeInfo (stego_image_fname d) f (output_fname d) (fptr_secret_out d)
    (extn_secret_file d) (size_secret_file d) (extn_size d).
Definition set_fptr_secret_out (d : DecodeInfo) (f : option FILE) : DecodeInfo :=
  mkDecodeInfo (stego_image_fname d) (fptr_stego_image d) (output_fname d) f
    (extn_secret_file d) (size_secret_file d) (extn_size d).
Definition set_extn_secret_file (d : DecodeInfo) (x : list Z) : DecodeInfo :=
  mkDecodeInfo (stego_image_fname d) (fptr_stego_image d) (output_fname d)
    (fptr_secret_out d) x (size_secret_file d) (extn_size d).
Definition set_size_secret_file (d : DecodeInfo) (n : Z) : DecodeInfo :=
  mkDecodeInfo (stego_image_fname d) (fptr_stego_image d) (output_fname d)
    (fptr_secret_out d) (extn_secret_file d) n (extn_size d).
Definition set_extn_size (d : DecodeInfo) (n : Z) : DecodeInfo :=
  mkDecodeInfo (stego_image_fname d) (fptr_stego_image d) (output_fname d)
    (fptr_secret_out d) (extn_secret_file d) (size_secret_file d) n.

(* what main and read_and_validate_decode_args leave in the structure: all
   bytes cleared, then the name of the stego image and the optional output
   name; an empty stream stands for the pointer to the stego image, NULL
   until open_files_decode sets it *)
Definition decode_args (stego_image_fname : string) (output_fname : option string)
  : DecodeInfo :=
  mkDecodeInfo stego_image_fname (fopen_wb "") output_fname None
    (replicate (Z.to_nat MAX_FILE_SUFFIX) 0) 0 0.

(* strtok(s, delim), first call: skip the leading delimiters, then the token
   runs up to the next delimiter; NULL (None) when nothing is left *)
Definition is_delim (delim : string) (c : Ascii.ascii) : bool :=
  bool_decide (c ∈ String.list_ascii_of_string delim).

Fixpoint skip_delims (delim s : string) : string :=
  match s with
  | EmptyString => EmptyString
  | String c s' => if is_delim delim c then skip_delims delim s' else s
  end.

Fixpoint token_of (delim s : string) : string :=
  match s with
  | EmptyString => EmptyString
  | String c s' => if is_delim delim c then EmptyString else String c (token_of delim s')
  end.

Definition strtok (s delim : string) : option string :=
  match skip_delims delim s with
  | EmptyString => None
  | rest => Some (token_of delim rest)
  end.

(* strncpy(dst, src, n) followed by dst[n] = 0 *)
Definition strncpy (src : string) (n : nat) : string := String.substring 0 n src.

Section Decode.
Context {T : Target}.

(* open_files_decode: the stream is left after the 54 bytes of the header *)
Definition open_files_decode (decInfo : DecodeInfo) (stego_image : list Z)
  : Status * DecodeInfo :=
  (e_success,
   set_fptr_stego_image decInfo
     (fseek_set (fopen_rb (stego_image_fname decInfo) stego_image) 54)).

Definition decode_byte_from_lsb (image_buffer : list Z) : Status * Z :=
  let ch :=
    foldl (λ ch i,
             let bit := Z.land (int_of_char (image_buffer !!! i)) 1 in
             Z.lor ch (uchar_wrap (Z.shiftl bit (Z.of_nat i))))
          0 (seq 0 8) in
  (e_success, ch).

Definition decode_size_from_lsb (buffer : list Z) : Status * Z :=
  let value :=
    foldl (λ value i,
             let bit := Z.land (int_of_char (buffer !!! i)) 1 in
             Z.lor value (uint_wrap (Z.shiftl bit (Z.of_nat i))))
          0 (seq 0 32) in
  (e_success, int_wrap value).

(* the for loop of decode_data_from_image from index i on, n bytes to go *)
Fixpoint decode_data_loop (n i : nat) (buffer data : list Z) (fptr_stego_image : FILE)
  : Status * list Z * FILE :=
  match n with
  | O => (e_success, data, fptr_stego_image)
  | S n =>
      let '(buffer, r, f) := fread buffer 8 fptr_stego_image in
      if bool_decide (r ≠ 8%nat) then (e_failure, data, f)
      else
        let '(_, ch) := decode_byte_from_lsb buffer in
        decode_data_loop n (S i) buffer (<[i := ch]> data) f
  end.

Definition decode_data_from_image (data : list Z) (size : Z) (fptr_stego_image : FILE)
  : Status * list Z * FILE :=
  decode_data_loop (Z.to_nat size) 0 (fresh "decode_data_from_image.buffer" 8) data
    fptr_stego_image.

(* strcmp(buffer, s) == 0 *)
Definition strcmp_eq (buffer : list Z) (s : string) : bool :=
  bool_decide (c_str buffer = bytes_of_string s).

Definition decode_magic_string (decInfo : DecodeInfo) : Status * DecodeInfo :=
  let len := int_wrap (Z.of_nat (String.length MAGIC_STRING)) in
  let '(st, buffer, f) :=
    decode_data_from_image (fresh "decode_magic_string.buffer" 16) len (fptr_stego_image decInfo) in
  let decInfo := set_fptr_stego_image decInfo f in
  if bool_decide (st ≠ e_success) then (e_failure, decInfo)
  else if negb (strcmp_eq buffer MAGIC_STRING) then (e_failure, decInfo)
  else (e_success, decInfo).

Definition decode_file_extn_size (decInfo : DecodeInfo) : Status * DecodeInfo :=
  let '(arr, _, f) := fread (fresh "decode_file_extn_size.arr" 32) 32 (fptr_stego_image decInfo) in
  let '(_, length) := decode_size_from_lsb arr in
  let decInfo := set_extn_size (set_fptr_stego_image decInfo f) length in
  if bool_decide (length ≤ 0) || bool_decide (10 < length)
  then (e_failure, decInfo)
  else (e_success, decInfo).

Definition decode_secret_file_extn (decInfo : DecodeInfo) : Status * DecodeInfo :=
  let file_extn := extn_size decInfo in
  if bool_decide (file_extn ≤ 0) || bool_decide (MAX_FILE_SUFFIX ≤ file_extn)
  then (e_failure, decInfo)
  else
    let '(st, extn, f) :=
      decode_data_from_image (extn_secret_file decInfo) file_extn
        (fptr_stego_image decInfo) in
    let decInfo := set_extn_secret_file (set_fptr_stego_image decInfo f) extn in
    if bool_decide (st ≠ e_success) then (e_failure, decInfo)
    else
      (e_success,
       set_extn_secret_file decInfo
         (<[Z.to_nat file_extn := 0]> (extn_secret_file decInfo))).

Definition decode_secret_file_size (decInfo : DecodeInfo) : Status * DecodeInfo :=
  let '(arr, _, f) :=
    fread (fresh "decode_secret_file_size.arr" 32) 32 (fptr_stego_image decInfo) in
  let '(_, size) := decode_size_from_lsb arr in
  (e_success, set_size_secret_file (set_fptr_stego_image decInfo f) size).

(* the for loop of decode_secret_file_data; ch is the one-byte local, the
   status of decode_data_from_image is dropped as in the C code *)
Fixpoint decode_secret_loop (n : nat) (ch : list Z) (fptr_stego_image fptr_secret_out : FILE)
  : FILE * FILE :=
  match n with
  | O => (fptr_stego_image, fptr_secret_out)
  | S n =>
      let '(_, ch, f) := decode_data_from_image ch 1 fptr_stego_image in
      let '(_, out) := fwrite ch 1 fptr_secret_out in
      decode_secret_loop n ch f out
  end.

Definition decode_secret_file_data (decInfo : DecodeInfo) : Status * DecodeInfo :=
  match fptr_secret_out decInfo with
  | None => (e_failure, decInfo)   (* not reached: do_decoding opens the file first *)
  | Some out =>
      let '(f, out) :=
        decode_secret_loop (Z.to_nat (size_secret_file decInfo))
          (fresh "decode_secret_file_data.ch" 1)
          (fptr_stego_image decInfo) out in
      (e_success, set_fptr_secret_out (set_fptr_stego_image decInfo f) (Some out))
  end.

(* the block of do_decoding that chooses the stem of the output name *)
Definition output_base (output_fname : option string) : string :=
  match output_fname with
  | None => "decoded"
  | Some "" => "decoded"
  | Some name =>
      let base := strncpy name 255 in
      match strtok base "." with
      | Some (String c token) => String c token
      | _ => "decoded"
      end
  end.

(* do_decoding.  The result is None where the C code has no defined behaviour:
   the stem and the extension together overrun final_name[256]. *)
Definition do_decoding (decInfo : DecodeInfo) (stego_image : list Z)
  : option (Status * list string * DecodeInfo) :=
  let '(st, decInfo) := open_files_decode decInfo stego_image in
  if bool_decide (st ≠ e_success) then
    Some (e_failure, ["ERROR: open_files_decode failed "], decInfo)
  else
  let '(st, decInfo) := decode_magic_string decInfo in
  if bool_decide (st ≠ e_success) then
    Some (e_failure, ["ERROR: decode_magic_string failed"], decInfo)
  else
  let '(st, decInfo) := decode_file_extn_size decInfo in
  if bool_decide (st ≠ e_success) then
    Some (e_failure, ["ERROR: decode_file_extn_size failed"], decInfo)
  else
  let '(st, decInfo) := decode_secret_file_extn decInfo in
  if bool_decide (st ≠ e_success) then
    Some (e_failure, ["ERROR: decode_secret_file_extn failed"], decInfo)
  else
  let base := output_base (output_fname decInfo) in
  let extn := string_of_bytes (c_str (extn_secret_file decInfo)) in
  if bool_decide (256 ≤ String.length base + String.length extn)%nat then None
  else
  let final_name := (base +:+ extn)%string in
  let decInfo := set_fptr_secret_out decInfo (Some (fopen_wb final_name)) in
  let '(st, decInfo) := decode_secret_file_size decInfo in
  if bool_decide (st ≠ e_success) then
    Some (e_failure, ["ERROR: decode_secret_file_size failed"], decInfo)
  else
  let '(st, decInfo) := decode_secret_file_data decInfo in
  if bool_decide (st ≠ e_success) then
    Some (e_failure, ["ERROR: decode_secret_file_data failed"], decInfo)
  else Some (e_success, [], decInfo).

End Decode.

Definition set_stego_image_fname (d : DecodeInfo) (x : string) : DecodeInfo :=
  mkDecodeInfo x (fptr_stego_image d) (output_fname d) (fptr_secret_out d)
    (extn_secret_file d) (size_secret_file d) (extn_size d).
Definition set_output_fname (d : DecodeInfo) (x : option string) : DecodeInfo :=
  mkDecodeInfo (stego_image_fname d) (fptr_stego_image d) x (fptr_secret_out d)
    (extn_secret_file d) (size_secret_file d) (extn_size d).

(* read_and_validate_decode_args: argv holds the argc arguments *)
Definition read_and_validate_decode_args (argv : list string) (decInfo : DecodeInfo)
  : Status * DecodeInfo :=
  let argc := length argv in
  if bool_decide (argc < 3)%nat then (e_failure, decInfo)
  else if bool_decide (Encode.strstr (argv !!! 2%nat) ".bmp" = None)
  then (e_failure, decInfo)
  else
    let decInfo := set_stego_image_fname decInfo (argv !!! 2%nat) in
    if bool_decide (4 ≤ argc)%nat
    then (e_success, set_output_fname decInfo (Some (argv !!! 3%nat)))
    else (e_success, set_output_fname decInfo None).

End Decode.

(** ** main.c *)

Module Main.

(* the three enumerators of OperationType that main.c uses *)
Inductive OperationType := e_encode | e_decode | e_unsupported.

(* tolower in the C locale *)
Definition tolower (c : Ascii.ascii) : Ascii.ascii :=
  let n := Ascii.nat_of_ascii c in
  if bool_decide (65 ≤ n ≤ 90)%nat then Ascii.ascii_of_nat (n + 32) else c.

(* strcasecmp(a, b) == 0 *)
Definition strcasecmp_eq (a b : string) : bool :=
  bool_decide (tolower <$> String.list_ascii_of_string a
               = tolower <$> String.list_ascii_of_string b).

Definition check_operation_type (argv : list string) : OperationType :=
  if bool_decide (length argv < 2)%nat then e_unsupported
  else if strcasecmp_eq (argv !!! 1%nat) "-e" then e_encode
  else if strcasecmp_eq (argv !!! 1%nat) "-d" then e_decode
  else e_unsupported.

Section Main.
Context {T : Target}.

(* main: the exit status.  disk gives the bytes of the files that the
   pipelines open for reading; the structures are cleared by memset before
   the arguments are read. *)
Definition main (argv : list string) (disk : string → list Z) : option Z :=
  match check_operation_type argv with
  | e_encode =>
      let '(st, encInfo) :=
        Encode.read_and_validate_encode_args argv (Encode.encode_args "" "" "") in
      if bool_decide (st = e_success) then
        match Encode.do_encoding encInfo (disk (Encode.src_image_fname encInfo))
                (disk (Encode.secret_fname encInfo)) with
        | None => None
        | Some (st, _, _) => Some (if bool_decide (st ≠ e_success) then 1 else 0)
        end
      else Some 1
  | e_decode =>
      let '(st, decInfo) :=
        Decode.read_and_validate_decode_args argv (Decode.decode_args "" None) in
      if bool_decide (st = e_success) then
        match Decode.do_decoding decInfo (disk (Decode.stego_image_fname decInfo)) with
        | None => None
        | Some (st, _, _) => Some (if bool_decide (st ≠ e_success) then 1 else 0)
        end
      else Some 1
  | e_unsupported => Some 1
  end.

End Main.
End Main.

(** ** Notions used to state the properties *)

(* the value that both packing loops store into a carrier byte *)
Definition lsb_store (old y : Z) : Z :=
  char_of_int (Z.lor (Z.land old (Z.lnot 1)) (Z.land y 1)).

Section Notions.
Context {T : Target}.

(* the carrier bytes px with the bytes of data packed into them, eight carrier
   bytes for each data byte; the carrier bytes beyond are not part of it *)
Fixpoint embed (data px : list Z) : list Z :=
  match data with
  | [] => []
  | d :: data' =>
      (Encode.encode_byte_to_lsb (uchar_wrap d) (take 8 px)).2 ++ embed data' (drop 8 px)
  end.

(* the first 32 carrier bytes of px with a 32-bit value packed into them *)
Definition embed_size (size : Z) (px : list Z) : list Z :=
  (Encode.encode_size_to_lsb size (take 32 px)).2.

(* the container of section 6 laid over the pixel bytes px: signature,
   extension length, extension, payload length, payload *)
Definition container (extn : string) (secret px : list Z) : list Z :=
  let l := String.length extn in
  embed (bytes_of_string MAGIC_STRING) px
  ++ embed_size (int_wrap (Z.of_nat l)) (drop 16 px)
  ++ embed (bytes_of_string extn) (drop 48 px)
  ++ embed_size (int_wrap (uint_wrap (Z.of_nat (length secret)))) (drop (48 + 8 * l) px)
  ++ embed secret (drop (80 + 8 * l) px).

(* the number of pixel bytes the container takes *)
Definition container_length (extn : string) (secret : list Z) : nat :=
  8 * (String.length MAGIC_STRING + String.length extn + length secret) + 64.

(* the capacity that get_image_size_for_bmp finds in the header of an image *)
Definition image_capacity (image : list Z) : Z :=
  (Encode.get_image_size_for_bmp (fopen_rb "" image)).1.

End Notions.

(* the least significant bits of a run of carrier bytes, and the bits of data
   bytes in the order of the wire format: bit 0 first *)
Definition lsbs (px : list Z) : list bool := (λ c, Z.testbit c 0) <$> px.
Definition bits_of_byte (d : Z) : list bool :=
  (λ i, Z.testbit d (Z.of_nat i)) <$> seq 0 8.
Definition bits_of_bytes (data : list Z) : list bool := data ≫= bits_of_byte.

(* the pixel bytes of a stego image start with the signature *)
Definition signature_present (stego_image : list Z) : Prop :=
  lsbs (take (8 * String.length MAGIC_STRING) (drop 54 stego_image))
  = bits_of_bytes (bytes_of_string MAGIC_STRING).

(* the width and the height in the header of a bitmap *)
Definition bmp_width (image : list Z) : Z := le32 (take 4 (drop 18 image)).
Definition bmp_height (image : list Z) : Z := le32 (take 4 (drop 22 image)).

Definition is_byte (b : Z) : Prop := 0 ≤ b < 256.

(* a string of C has no NUL inside *)
Definition nul_free (s : string) : Prop := (0 : Z) ∉ bytes_of_string s.

Definition period : Ascii.ascii := Ascii.ascii_of_nat 46.

Definition no_period (s : string) : Prop := period ∉ String.list_ascii_of_string s.

(* a run of k periods *)
Fixpoint periods (k : nat) : string :=
  match k with
  | O => ""
  | S k => String period (periods k)
  end.

(* The overhead of the capacity check as the specification words it: the bytes
   of the signature and of two 32-bit length fields. *)
Definition spec_fixed_overhead : Z := Z.of_nat (String.length MAGIC_STRING) + 4 + 4.

(* The stem of the output name as the specification words it: the part of the
   base name before its first period, the default when no base name is given
   or when it is empty or only a period. *)
Fixpoint before_first_period (s : string) : string :=
  match s with
  | EmptyString => EmptyString
  | String c s' =>
      if Ascii.eqb c period then EmptyString else String c (before_first_period s')
  end.

Definition spec_stem (output_fname : option string) : string :=
  match output_fname with
  | None => "decoded"
  | Some name =>
      if bool_decide (name = "" ∨ name = ".") then "decoded"
      else before_first_period name
  end.

(* The stem as the code chooses it.  Of the base name only the first 255
   characters count, the rest is cut off by strncpy.  The stem is the default
   when no base name is given or when these characters are nothing but
   periods; otherwise it is what lies between the leading periods of the base
   name, which are passed over, and its next period or its end, as far as
   the 255 characters go. *)
Inductive names_stem : option string → string → Prop :=
  | stem_absent : names_stem None "decoded"
  | stem_periods k : names_stem (Some (periods k)) "decoded"
  | stem_cut k pre rest :
      (255 ≤ k)%nat →
      names_stem (Some (periods k +:+ pre +:+ rest)%string) "decoded"
  | stem_token k pre rest :
      pre ≠ ""%string → no_period pre →
      (rest = ""%string ∨ ∃ r, rest = String period r) →
      (k < 255)%nat →
      names_stem (Some (periods k +:+ pre +:+ rest)%string)
        (String.substring 0 (255 - k) pre).

(* the bytes that decode_data_from_image leaves in its destination *)
Fixpoint store_from (i : nat) (data dst : list Z) : list Z :=
  match data with
  | [] => dst
  | b :: data' => store_from (S i) data' (<[i := b]> dst)
  end.

(* the 32 bits of a length field in the order of the wire format *)
Definition bits_of_size (v : Z) : list bool :=
  (λ i, Z.testbit v (Z.of_nat i)) <$> seq 0 32.

(* two bytes that agree in the bits 1 to 7 *)
Definition same_upper_bits (x y : Z) : Prop :=
  ∀ j, 1 ≤ j < 8 → Z.testbit x j = Z.testbit y j.

(* needle occurs in s *)
Definition contains (needle s : string) : Prop :=
  ∃ pre post, s = (pre +:+ needle +:+ post)%string.

(* the secret file name carries one of the four extensions that
   read_and_validate_encode_args looks for *)
Definition secret_kind (s : string) : Prop :=
  contains ".txt" s ∨ contains ".pdf" s ∨ contains ".mp3" s ∨ contains ".mp4" s.

(* the suffix of a name from its first period on fits extn_secret_file, its
   terminator included *)
Definition extension_fits (name : string) : Prop :=
  ∃ extn, Encode.strstr name "." = Some extn
          ∧ Z.of_nat (String.length extn) < MAX_FILE_SUFFIX.

(* the name has one of the four extensions at its first period, and nothing
   behind it *)
Definition single_extension (name : string) : Prop :=
  ∃ pre extn, name = (pre +:+ extn)%string ∧ no_period pre
              ∧ (extn = ".txt" ∨ extn = ".pdf" ∨ extn = ".mp3" ∨ extn = ".mp4")%string.

(** ** Sample data for the closed instances *)

(* gcc on x86-64, the stack happening to hold zeros or ones *)
Definition zeroed_stack : Target := {| char_signed := true; uninit := λ _ _, 0 |}.
Definition dirty_stack : Target := {| char_signed := true; uninit := λ _ _, 255 |}.

Definition le32_bytes (x : Z) : list Z :=
  [x `mod` 256; (x / 2 ^ 8) `mod` 256; (x / 2 ^ 16) `mod` 256; (x / 2 ^ 24) `mod` 256].

(* a 54-byte header with the given width and height *)
Definition sample_header (w h : Z) : list Z :=
  [66; 77] ++ replicate 16 0 ++ le32_bytes w ++ le32_bytes h ++ replicate 28 7.

(* an image of 8 by 6 pixels, 144 pixel bytes and 6 bytes more *)
Definition sample_cover : list Z := sample_header 8 6 ++ (Z.of_nat <$> seq 100 150).

Definition sample_secret : list Z := bytes_of_string "hi".

Definition sample_encoded (T : Target) (secret_fname : string) (secret : list Z)
  : Encode.EncodeInfo :=
  match Encode.do_encoding (Encode.encode_args "cover.bmp" secret_fname "stego.bmp")
          sample_cover secret with
  | Some (_, _, e) => e
  | None => Encode.encode_args "" "" ""
  end.

Definition sample_stego (T : Target) (secret_fname : string) (secret : list Z) : list Z :=
  contents (Encode.fptr_stego_image (sample_encoded T secret_fname secret)).

Definition sample_decoded (T : Target) (output_fname : option string) (stego : list Z)
  : Decode.DecodeInfo :=
  match Decode.do_decoding (Decode.decode_args "stego.bmp" output_fname) stego with
  | Some (_, _, d) => d
  | None => Decode.decode_args "" None
  end.

(* the file structure of an encoder that has opened an image of the given
   header and a secret file *)
Definition opened (header secret : list Z) : Encode.EncodeInfo :=
  Encode.mkEncodeInfo "cover.bmp" (fopen_rb "cover.bmp" header) "s.txt"
    (fopen_rb "s.txt" secret) "" 0 "stego.bmp" (fopen_wb "stego.bmp").

(* a command line of the encoder, one of the decoder, and the files that the
   names on them stand for *)
Definition sample_argv : list string := ["stego"; "-e"; "cover.bmp"; "s.txt"].
Definition sample_argv_decode : list string := ["stego"; "-d"; "stego.bmp"].
Definition sample_disk (name : string) : list Z :=
  if bool_decide (name = "cover.bmp") then sample_cover
  else if bool_decide (name = "stego.bmp") then sample_stego zeroed_stack "s.txt" sample_secret
  else sample_secret.

(* a name of 252 characters without a period *)
Definition long_stem : string :=
  String.string_of_list_ascii (replicate 252 (Ascii.ascii_of_nat 97)).

(** * Properties *)

(** ** Bits of the values the codec stores *)

Section Bits.
Context {T : Target}.

Lemma testbit_1 j : 0 ≤ j → Z.testbit 1 j = bool_decide (j = 0).
Proof.
  intros Hj. change 1 with (Z.ones 1). rewrite Z.testbit_ones_nonneg by lia.
  case_bool_decide; [apply Z.ltb_lt | apply Z.ltb_ge]; lia.
Qed.

Lemma int_of_char_low_bits c j : j < 8 → Z.testbit (int_of_char c) j = Z.testbit c j.
Proof.
  intros Hj. unfold int_of_char.
  destruct (char_signed && bool_decide (128 ≤ c)); [|done].
  rewrite <- (Z.mod_pow2_bits_low (c - 256) 8 j), <- (Z.mod_pow2_bits_low c 8 j) by lia.
  f_equal. change (2 ^ 8) with 256.
  rewrite <- (Z.mod_add (c - 256) 1 256) by lia. f_equal. lia.
Qed.

Lemma lsb_store_testbit old y j :
  0 ≤ j →
  Z.testbit (lsb_store old y) j =
    if bool_decide (j = 0) then Z.testbit y 0
    else bool_decide (j < 8) && Z.testbit old j.
Proof.
  intros Hj. unfold lsb_store, char_of_int. change 256 with (2 ^ 8).
  rewrite Z.testbit_mod_pow2, Z.lor_spec, !Z.land_spec, Z.lnot_spec, testbit_1 by lia.
  case_bool_decide as H0.
  - subst j. simpl. by rewrite andb_false_r, andb_true_r.
  - rewrite andb_true_r, andb_false_r, orb_false_r.
    case_bool_decide; [rewrite (proj2 (Z.ltb_lt _ _)) | rewrite (proj2 (Z.ltb_ge _ _))];
      done || lia.
Qed.

Lemma lsb_store_range old y : 0 ≤ lsb_store old y < 256.
Proof. unfold lsb_store, char_of_int. apply Z.mod_pos_bound. lia. Qed.

Lemma byte_high_bits b j : 0 ≤ b < 256 → 8 ≤ j → Z.testbit b j = false.
Proof.
  intros Hb Hj. rewrite <- (Z.mod_small b (2 ^ 8)) by (change (2 ^ 8) with 256; lia).
  apply Z.mod_pow2_bits_high. lia.
Qed.

(* a loop that rewrites the cells 0 .. n-1 of an array, each from its own
   former value *)
Lemma foldl_insert_seq_lookup (g : nat → Z → Z) (n : nat) (buf : list Z) (j : nat) :
  foldl (λ b i, <[i := g i (b !!! i)]> b) buf (seq 0 n) !! j
  = if bool_decide (j < n)%nat then g j <$> buf !! j else buf !! j.
Proof.
  induction n as [|n IH]; [done|].
  rewrite seq_S, foldl_app. simpl.
  set (b := foldl _ buf (seq 0 n)) in *.
  destruct (decide (j = n)) as [->|Hne].
  - rewrite bool_decide_eq_true_2 by lia.
    rewrite bool_decide_eq_false_2 in IH by lia.
    rewrite list_lookup_total_alt, IH.
    destruct (buf !! n) as [x|] eqn:Hx; simpl.
    + apply list_lookup_insert_eq. apply lookup_lt_is_Some. rewrite IH. eauto.
    + rewrite list_insert_ge; [done|]. apply lookup_ge_None. by rewrite IH.
  - rewrite list_lookup_insert_ne by done. rewrite IH.
    repeat case_bool_decide; done || lia.
Qed.

Lemma foldl_insert_seq_length (g : nat → Z → Z) (n : nat) (buf : list Z) :
  length (foldl (λ b i, <[i := g i (b !!! i)]> b) buf (seq 0 n)) = length buf.
Proof.
  induction n as [|n IH]; [done|].
  rewrite seq_S, foldl_app. simpl. by rewrite length_insert.
Qed.

(* a loop that gathers the least significant bits of the cells 0 .. n-1 *)
Lemma foldl_gather_testbit (w : Z) (n : nat) (buf : list Z) (j : Z) :
  0 ≤ j → (n ≤ Z.to_nat w)%nat →
  Z.testbit
    (foldl (λ v i, Z.lor v ((Z.land (int_of_char (buf !!! i)) 1 ≪ Z.of_nat i) `mod` 2 ^ w))
           0 (seq 0 n)) j
  = bool_decide (j < Z.of_nat n) && Z.testbit (buf !!! Z.to_nat j) 0.
Proof.
  intros Hj. induction n as [|n IH]; intros Hn.
  - simpl. rewrite Z.bits_0. by rewrite bool_decide_eq_false_2 by lia.
  - rewrite seq_S, foldl_app. simpl.
    rewrite Z.lor_spec, IH by lia.
    rewrite Z.testbit_mod_pow2, Z.shiftl_spec, Z.land_spec by lia.
    destruct (decide (j = Z.of_nat n)) as [->|Hne].
    + rewrite Z.sub_diag, Nat2Z.id, testbit_1, int_of_char_low_bits by lia.
      rewrite (bool_decide_eq_false_2 (Z.of_nat n < Z.of_nat n)) by lia.
      rewrite (bool_decide_eq_true_2 (Z.of_nat n < Z.of_nat (S n))) by lia.
      rewrite (proj2 (Z.ltb_lt _ _)) by lia.
      by rewrite bool_decide_eq_true_2, andb_true_r by done.
    + destruct (decide (j < Z.of_nat n)) as [Hlt|Hge].
      * rewrite (Z.testbit_neg_r _ (j - Z.of_nat n)) by lia.
        rewrite !andb_false_l, andb_false_r, orb_false_r.
        by rewrite !bool_decide_eq_true_2 by lia.
      * rewrite testbit_1 by lia.
        rewrite (bool_decide_eq_false_2 (j - Z.of_nat n = 0)) by lia.
        rewrite andb_false_r, andb_false_r, orb_false_r.
        by rewrite !bool_decide_eq_false_2 by lia.
Qed.

End Bits.

(** ** The bit codec *)

Section Codec.
Context {T : Target}.

Lemma encode_byte_to_lsb_lookup data buf (j : nat) :
  (Encode.encode_byte_to_lsb data buf).2 !! j
  = if bool_decide (j < 8)%nat
    then (λ x, lsb_store (int_of_char x) (int_of_char data ≫ Z.of_nat j)) <$> buf !! j
    else buf !! j.
Proof.
  apply (foldl_insert_seq_lookup
           (λ i x, lsb_store (int_of_char x) (int_of_char data ≫ Z.of_nat i))).
Qed.

Lemma encode_size_to_lsb_lookup size buf (j : nat) :
  (Encode.encode_size_to_lsb size buf).2 !! j
  = if bool_decide (j < 32)%nat
    then (λ x, lsb_store (int_of_char x) (size ≫ Z.of_nat j)) <$> buf !! j
    else buf !! j.
Proof.
  apply (foldl_insert_seq_lookup (λ i x, lsb_store (int_of_char x) (size ≫ Z.of_nat i))).
Qed.

Lemma encode_byte_to_lsb_length data buf :
  length (Encode.encode_byte_to_lsb data buf).2 = length buf.
Proof.
  apply (foldl_insert_seq_length
           (λ i x, lsb_store (int_of_char x) (int_of_char data ≫ Z.of_nat i))).
Qed.

Lemma encode_size_to_lsb_length size buf :
  length (Encode.encode_size_to_lsb size buf).2 = length buf.
Proof.
  apply (foldl_insert_seq_length (λ i x, lsb_store (int_of_char x) (size ≫ Z.of_nat i))).
Qed.

Lemma decode_byte_from_lsb_testbit buf j :
  0 ≤ j →
  Z.testbit (Decode.decode_byte_from_lsb buf).2 j
  = bool_decide (j < 8) && Z.testbit (buf !!! Z.to_nat j) 0.
Proof. intros Hj. by apply (foldl_gather_testbit 8 8 buf j). Qed.

Lemma decode_size_from_lsb_unsigned buf j :
  0 ≤ j →
  Z.testbit (uint_wrap (Decode.decode_size_from_lsb buf).2) j
  = bool_decide (j < 32) && Z.testbit (buf !!! Z.to_nat j) 0.
Proof.
  intros Hj. unfold Decode.decode_size_from_lsb. cbn [snd].
  match goal with |- context [int_wrap ?v] => set (value := v) end.
  assert (Hv : ∀ k, 0 ≤ k → Z.testbit value k
                 = bool_decide (k < 32) && Z.testbit (buf !!! Z.to_nat k) 0).
  { intros k Hk. by apply (foldl_gather_testbit 32 32 buf k). }
  assert (Hw : uint_wrap (int_wrap value) = value `mod` 2 ^ 32).
  { unfold uint_wrap, int_wrap.
    rewrite Zminus_mod_idemp_l. f_equal. lia. }
  rewrite Hw, Z.testbit_mod_pow2, Hv by lia.
  destruct (Z.ltb_spec j 32); [done|]. by rewrite bool_decide_eq_false_2 by lia.
Qed.

Lemma int_wrap_uint_wrap s : - 2 ^ 31 ≤ s < 2 ^ 31 → int_wrap (uint_wrap s) = s.
Proof.
  intros Hs. unfold int_wrap, uint_wrap.
  rewrite Zplus_mod_idemp_l. rewrite Z.mod_small; lia.
Qed.

Lemma int_wrap_small s : - 2 ^ 31 ≤ s < 2 ^ 31 → int_wrap s = s.
Proof. intros Hs. unfold int_wrap. rewrite Z.mod_small; lia. Qed.

Lemma orb_false_iff_2 (a b : bool) : a = false ∧ b = false → a || b = false.
Proof. by intros [-> ->]. Qed.

Lemma int_wrap_int_wrap x : int_wrap (uint_wrap (int_wrap x)) = int_wrap x.
Proof.
  apply int_wrap_uint_wrap. unfold int_wrap.
  pose proof (Z.mod_pos_bound (x + 2 ^ 31) (2 ^ 32)). lia.
Qed.

(* the cell of a packed carrier, read with the default of [!!!] *)
Lemma encode_byte_to_lsb_cell data buf (i : nat) :
  (i < 8)%nat → (i < length buf)%nat →
  (Encode.encode_byte_to_lsb data buf).2 !!! i
  = lsb_store (int_of_char (buf !!! i)) (int_of_char data ≫ Z.of_nat i).
Proof.
  intros Hi Hlen. rewrite !list_lookup_total_alt, encode_byte_to_lsb_lookup.
  rewrite bool_decide_eq_true_2 by done.
  destruct (lookup_lt_is_Some_2 buf i Hlen) as [x ->]. done.
Qed.

Lemma encode_size_to_lsb_cell size buf (i : nat) :
  (i < 32)%nat → (i < length buf)%nat →
  (Encode.encode_size_to_lsb size buf).2 !!! i
  = lsb_store (int_of_char (buf !!! i)) (size ≫ Z.of_nat i).
Proof.
  intros Hi Hlen. rewrite !list_lookup_total_alt, encode_size_to_lsb_lookup.
  rewrite bool_decide_eq_true_2 by done.
  destruct (lookup_lt_is_Some_2 buf i Hlen) as [x ->]. done.
Qed.

Lemma decode_encode_byte b carrier :
  0 ≤ b < 256 → (8 ≤ length carrier)%nat →
  (Decode.decode_byte_from_lsb (Encode.encode_byte_to_lsb b carrier).2).2 = b.
Proof.
  intros Hb Hlen. apply Z.bits_inj'. intros j Hj.
  rewrite decode_byte_from_lsb_testbit by done.
  case_bool_decide as Hj8; [rewrite andb_true_l | rewrite andb_false_l].
  - rewrite encode_byte_to_lsb_cell by lia.
    rewrite lsb_store_testbit, bool_decide_eq_true_2 by done.
    rewrite Z.shiftr_spec, Z2Nat.id, Z.add_0_l by lia.
    by apply int_of_char_low_bits.
  - symmetry. apply byte_high_bits; lia.
Qed.

Lemma decode_encode_size s carrier :
  (32 ≤ length carrier)%nat →
  uint_wrap (Decode.decode_size_from_lsb (Encode.encode_size_to_lsb s carrier).2).2
  = uint_wrap s.
Proof.
  intros Hlen. apply Z.bits_inj'. intros j Hj.
  rewrite decode_size_from_lsb_unsigned by done.
  unfold uint_wrap at 1. rewrite Z.testbit_mod_pow2 by lia.
  case_bool_decide as Hj32; [rewrite andb_true_l | rewrite andb_false_l].
  - rewrite (proj2 (Z.ltb_lt _ _)), andb_true_l by done.
    rewrite encode_size_to_lsb_cell by lia.
    rewrite lsb_store_testbit, bool_decide_eq_true_2 by done.
    by rewrite Z.shiftr_spec, Z2Nat.id, Z.add_0_l by lia.
  - by rewrite (proj2 (Z.ltb_ge _ _)) by lia.
Qed.

Lemma decode_size_from_lsb_int buf :
  int_wrap (uint_wrap (Decode.decode_size_from_lsb buf).2)
  = (Decode.decode_size_from_lsb buf).2.
Proof. apply int_wrap_int_wrap. Qed.

Lemma decode_encode_size_int s carrier :
  - 2 ^ 31 ≤ s < 2 ^ 31 → (32 ≤ length carrier)%nat →
  (Decode.decode_size_from_lsb (Encode.encode_size_to_lsb s carrier).2).2 = s.
Proof.
  intros Hs Hlen. rewrite <- decode_size_from_lsb_int, decode_encode_size by done.
  by apply int_wrap_uint_wrap.
Qed.

End Codec.

(** ** Streams *)

Section Streams.
Context {T : Target}.

Lemma length_fresh array n : length (fresh array n) = n.
Proof. unfold fresh. by rewrite length_fmap, length_seq. Qed.

Lemma fread_spec buf n name c k :
  (k ≤ length c)%nat → (n ≤ length buf)%nat →
  ∃ got, fread buf n (mkFILE name c k) = (got, length (take n (drop k c)),
                                           mkFILE name c (length c `min` (k + n)))
         ∧ length got = length buf
         ∧ take (length (take n (drop k c))) got = take n (drop k c)
         ∧ ((k + n ≤ length c)%nat → length buf = n → got = take n (drop k c)).
Proof.
  intros Hk Hn. unfold fread. cbn [contents offset path].
  set (got := take n (drop k c)).
  assert (Hgot : length got = (n `min` (length c - k))%nat).
  { unfold got. by rewrite length_take, length_drop. }
  eexists. split; [|split; [|split]].
  - do 2 f_equal. lia.
  - rewrite length_app, length_drop. lia.
  - by rewrite take_app_length.
  - intros Hfull Hbuf. rewrite drop_ge by lia. by rewrite app_nil_r.
Qed.

Lemma fwrite_end buf n name c :
  (n ≤ length buf)%nat →
  fwrite buf n (mkFILE name c (length c))
  = (n, mkFILE name (c ++ take n buf) (length (c ++ take n buf))).
Proof.
  intros Hn. unfold fwrite. cbn [contents offset path].
  rewrite (take_ge c), (drop_ge c), app_nil_r by lia.
  rewrite length_app, length_take. do 2 f_equal; lia.
Qed.

Lemma length_embed data px :
  (8 * length data ≤ length px)%nat → length (embed data px) = (8 * length data)%nat.
Proof.
  revert px. induction data as [|d data IH]; intros px Hpx; [done|].
  cbn [embed]. cbn [length] in Hpx.
  rewrite length_app, encode_byte_to_lsb_length, length_take.
  rewrite IH by (rewrite length_drop; lia). cbn [length]. lia.
Qed.

Lemma embed_app data1 data2 px :
  embed (data1 ++ data2) px = embed data1 px ++ embed data2 (drop (8 * length data1) px).
Proof.
  revert px. induction data1 as [|d data1 IH]; intros px; [done|].
  cbn [embed app length]. rewrite IH, drop_drop, <- app_assoc.
  repeat f_equal. lia.
Qed.

Lemma length_embed_size size px : (32 ≤ length px)%nat → length (embed_size size px) = 32%nat.
Proof.
  intros Hpx. unfold embed_size. rewrite encode_size_to_lsb_length, length_take. lia.
Qed.

(* encode_data_to_image: eight bytes go to the stego image for every data
   byte, whatever the source image still holds *)
Lemma encode_data_loop_run data buffer name c k sname sc :
  length buffer = 8%nat → (k ≤ length c)%nat →
  ∃ w, Encode.encode_data_loop data buffer (mkFILE name c k) (mkFILE sname sc (length sc))
       = (e_success, mkFILE name c (length c `min` (k + 8 * length data)),
          mkFILE sname (sc ++ w) (length (sc ++ w)))
     ∧ length w = (8 * length data)%nat
     ∧ ((k + 8 * length data ≤ length c)%nat → w = embed data (drop k c)).
Proof.
  revert buffer k sc. induction data as [|d data IH]; intros buffer k sc Hbuf Hk.
  - exists []. cbn [Encode.encode_data_loop length embed].
    rewrite app_nil_r. split; [|done]. do 3 f_equal. lia.
  - cbn [Encode.encode_data_loop].
    destruct (fread_spec buffer 8 name c k) as (got & -> & Hgot & _ & Hfull); [lia..|].
    destruct (Encode.encode_byte_to_lsb (uchar_wrap d) got) as [st blk] eqn:Hblk.
    assert (st = e_success) as -> by (by inversion Hblk).
    assert (blk = (Encode.encode_byte_to_lsb (uchar_wrap d) got).2) as Hblk2 by (by rewrite Hblk).
    assert (Hlen : length blk = 8%nat).
    { rewrite Hblk2, encode_byte_to_lsb_length. lia. }
    rewrite bool_decide_eq_false_2 by (intros ?; done).
    rewrite fwrite_end by lia. rewrite take_ge by lia.
    destruct (IH blk (length c `min` (k + 8))%nat (sc ++ blk)) as (w & -> & Hw & Hwfull);
      [done|lia|].
    exists (blk ++ w). split; [|split].
    + rewrite <- !app_assoc. do 3 f_equal. cbn [length]. lia.
    + rewrite length_app. cbn [length]. lia.
    + cbn [length]. intros Hroom. cbn [embed].
      rewrite Hfull in Hblk2 by lia. rewrite Hblk2. f_equal.
      rewrite Hwfull by lia. rewrite drop_drop. do 2 f_equal. lia.
Qed.

Lemma encode_data_to_image_run data size name c k sname sc :
  (k ≤ length c)%nat →
  ∃ w, Encode.encode_data_to_image data size (mkFILE name c k) (mkFILE sname sc (length sc))
       = (e_success, mkFILE name c (length c `min` (k + 8 * length (take size data))),
          mkFILE sname (sc ++ w) (length (sc ++ w)))
     ∧ length w = (8 * length (take size data))%nat
     ∧ ((k + 8 * length (take size data) ≤ length c)%nat
        → w = embed (take size data) (drop k c)).
Proof.
  intros Hk. unfold Encode.encode_data_to_image.
  apply encode_data_loop_run; [apply length_fresh | done].
Qed.

(* the three steps that write a 32-bit field: read 32 carrier bytes into the
   local array, pack the value, write the array; K is what follows *)
Lemma size_field_run size arr0 name c k sname sc :
  length arr0 = 32%nat → (k ≤ length c)%nat →
  ∃ w, (∀ (A : Type) (K : FILE → FILE → A),
          (let '(arr, _, src) := fread arr0 32 (mkFILE name c k) in
           let '(_, arr) := Encode.encode_size_to_lsb size arr in
           let '(_, stego) := fwrite arr 32 (mkFILE sname sc (length sc)) in
           K src stego)
          = K (mkFILE name c (length c `min` (k + 32)))
              (mkFILE sname (sc ++ w) (length (sc ++ w))))
     ∧ length w = 32%nat
     ∧ ((k + 32 ≤ length c)%nat → w = embed_size size (drop k c)).
Proof.
  intros Harr0 Hk.
  destruct (fread_spec arr0 32 name c k) as (got & -> & Hgot & _ & Hfull); [done|lia|].
  rewrite Harr0 in Hgot, Hfull.
  destruct (Encode.encode_size_to_lsb size got) as [st arr] eqn:Harr.
  assert (arr = (Encode.encode_size_to_lsb size got).2) as Harr2 by (by rewrite Harr).
  assert (Hlen : length arr = 32%nat) by (by rewrite Harr2, encode_size_to_lsb_length).
  rewrite fwrite_end by lia. rewrite take_ge by lia.
  exists arr. split; [reflexivity|]. split; [exact Hlen|].
  intros Hroom. unfold embed_size. rewrite <- Hfull by done. exact Harr2.
Qed.

Lemma encode_secret_file_extn_size_run size name c k sname sc :
  (k ≤ length c)%nat →
  ∃ w, Encode.encode_secret_file_extn_size size (mkFILE name c k) (mkFILE sname sc (length sc))
       = (e_success, mkFILE name c (length c `min` (k + 32)),
          mkFILE sname (sc ++ w) (length (sc ++ w)))
     ∧ length w = 32%nat
     ∧ ((k + 32 ≤ length c)%nat → w = embed_size size (drop k c)).
Proof.
  intros Hk. unfold Encode.encode_secret_file_extn_size.
  destruct (size_field_run size (fresh "encode_secret_file_extn_size.arr" 32)
              name c k sname sc) as (w & HK & Hw); [apply length_fresh|done|].
  exists w. split; [|exact Hw].
  exact (HK _ (λ src stego, (e_success, src, stego))).
Qed.

Lemma encode_secret_file_size_run file_size e name c k sname sc :
  0 ≤ file_size →
  Encode.fptr_src_image e = mkFILE name c k →
  Encode.fptr_stego_image e = mkFILE sname sc (length sc) →
  (k ≤ length c)%nat →
  ∃ w, Encode.encode_secret_file_size file_size e
       = (e_success,
          Encode.set_src_stego e (mkFILE name c (length c `min` (k + 32)))
            (mkFILE sname (sc ++ w) (length (sc ++ w))))
     ∧ length w = 32%nat
     ∧ ((k + 32 ≤ length c)%nat → w = embed_size file_size (drop k c)).
Proof.
  intros Hsize Hsrc Hstego Hk. unfold Encode.encode_secret_file_size.
  rewrite bool_decide_eq_false_2 by lia. rewrite Hsrc, Hstego.
  destruct (size_field_run file_size (fresh "encode_secret_file_size.arr" 32)
              name c k sname sc) as (w & HK & Hw); [apply length_fresh|done|].
  exists w. split; [|exact Hw].
  exact (HK _ (λ src stego, (e_success, Encode.set_src_stego e src stego))).
Qed.

Lemma drop_index_eq (l : list Z) a b :
  (a = b ∨ (length l ≤ a ∧ length l ≤ b))%nat → drop a l = drop b l.
Proof. intros [->|[Ha Hb]]; [done|]. by rewrite !drop_ge by lia. Qed.

Lemma drop_min_length (l : list Z) n : drop (length l `min` n) l = drop n l.
Proof.
  destruct (decide (n ≤ length l)%nat).
  - by rewrite Nat.min_r by lia.
  - rewrite Nat.min_l by lia. by rewrite !drop_ge by lia.
Qed.

(* the fuel of the chunk loop suffices; all the bytes of the secret file from
   its offset on are embedded *)
Lemma encode_secret_chunks_run fuel sn s ks name c k sname sc :
  (ks ≤ length s)%nat → (k ≤ length c)%nat → (length s - ks < fuel)%nat →
  ∃ w, Encode.encode_secret_chunks fuel (mkFILE sn s ks) (mkFILE name c k)
         (mkFILE sname sc (length sc))
       = (e_success, mkFILE sn s (length s),
          mkFILE name c (length c `min` (k + 8 * (length s - ks))),
          mkFILE sname (sc ++ w) (length (sc ++ w)))
     ∧ length w = (8 * (length s - ks))%nat
     ∧ ((k + 8 * (length s - ks) ≤ length c)%nat → w = embed (drop ks s) (drop k c)).
Proof.
  revert ks k sc. induction fuel as [|fuel IH]; intros ks k sc Hks Hk Hfuel; [lia|].
  cbn [Encode.encode_secret_chunks].
  destruct (fread_spec (fresh "encode_secret_file_data.buffer" 512) 512 sn s ks)
    as (got & -> & Hgot & Htake & _);
    [done|by rewrite length_fresh|].
  rewrite length_fresh in Hgot.
  set (chunk := take 512 (drop ks s)) in *.
  assert (Hchunk : length chunk = (512 `min` (length s - ks))%nat).
  { unfold chunk. by rewrite length_take, length_drop. }
  case_bool_decide as Hnread.
  - destruct (encode_data_to_image_run got (length chunk) name c k sname sc)
      as (w1 & -> & Hw1 & Hfull1); [done|].
    rewrite Htake in Hw1, Hfull1 |- *.
    rewrite bool_decide_eq_false_2 by (intros ?; done).
    destruct (IH (length s `min` (ks + 512))%nat
                 (length c `min` (k + 8 * length chunk))%nat (sc ++ w1))
      as (w2 & -> & Hw2 & Hfull2); [lia..|].
    exists (w1 ++ w2). split; [|split].
    + rewrite <- !app_assoc. do 3 f_equal. lia.
    + rewrite length_app. lia.
    + intros Hroom. rewrite Hfull1, Hfull2 by lia.
      rewrite !drop_min_length.
      transitivity (embed (chunk ++ drop 512 (drop ks s)) (drop k c));
        [|by unfold chunk; rewrite take_drop].
      rewrite embed_app, !drop_drop. done.
  - assert (length s - ks = 0)%nat as Hz by lia.
    exists []. rewrite app_nil_r, Hz. split; [|split]; [|done|].
    + replace (length s `min` (ks + 512))%nat with (length s) by lia.
      by replace (length c `min` (k + 8 * 0))%nat with k by lia.
    + intros _. replace ks with (length s) by lia. by rewrite drop_all.
Qed.

Lemma copy_remaining_chunks_run fuel name c k sname sc :
  (k ≤ length c)%nat → (length c - k < fuel)%nat →
  Encode.copy_remaining_chunks fuel (mkFILE name c k) (mkFILE sname sc (length sc))
  = (e_success, mkFILE name c (length c),
     mkFILE sname (sc ++ drop k c) (length (sc ++ drop k c))).
Proof.
  revert k sc. induction fuel as [|fuel IH]; intros k sc Hk Hfuel; [lia|].
  cbn [Encode.copy_remaining_chunks].
  destruct (fread_spec (fresh "copy_remaining_img_data.buffer" 512) 512 name c k)
    as (got & -> & Hgot & Htake & _);
    [done|by rewrite length_fresh|].
  rewrite length_fresh in Hgot.
  set (chunk := take 512 (drop k c)) in *.
  assert (Hchunk : length chunk = (512 `min` (length c - k))%nat).
  { unfold chunk. by rewrite length_take, length_drop. }
  case_bool_decide as Hnread.
  - rewrite fwrite_end by lia. rewrite Htake.
    rewrite bool_decide_eq_false_2 by (intros ?; done).
    rewrite IH by lia.
    rewrite drop_min_length, <- app_assoc.
    replace (chunk ++ drop (k + 512) c) with (drop k c); [done|].
    unfold chunk. by rewrite <- drop_drop, take_drop.
  - rewrite (drop_ge c k) by lia. rewrite app_nil_r.
    by replace (length c `min` (k + 512))%nat with (length c) by lia.
Qed.

End Streams.

(** ** The encode pipeline *)

Ltac enc_simpl :=
  unfold Encode.open_files, Encode.get_file_size, Encode.set_src_stego,
    Encode.set_extn_secret_file, Encode.set_size_secret_file, Encode.set_files,
    fopen_rb, fopen_wb, rewind, fseek_set;
  cbn [Encode.fptr_src_image Encode.fptr_secret Encode.fptr_stego_image
       Encode.extn_secret_file Encode.size_secret_file Encode.secret_fname
       Encode.src_image_fname Encode.stego_image_fname path contents offset fst snd].

Section EncodePipeline.
Context {T : Target}.

Lemma get_image_size_for_bmp_contents name c k :
  (Encode.get_image_size_for_bmp (mkFILE name c k)).1 = image_capacity c.
Proof. reflexivity. Qed.

Lemma get_image_size_for_bmp_file name c k :
  (Encode.get_image_size_for_bmp (mkFILE name c k)).2
  = mkFILE name c (offset (Encode.get_image_size_for_bmp (mkFILE name c k)).2).
Proof. reflexivity. Qed.

Lemma check_capacity_run e name c k sn s ks :
  Encode.fptr_src_image e = mkFILE name c k →
  Encode.fptr_secret e = mkFILE sn s ks →
  ∃ k',
    Encode.check_capacity e
    = (if bool_decide (image_capacity c / 8
                       < uint_wrap (uint_wrap (Z.of_nat (length s)) + 14))
       then e_failure else e_success,
       Encode.set_files e (mkFILE name c k') (mkFILE sn s 0) (Encode.fptr_stego_image e)).
Proof.
  intros Hsrc Hsec. unfold Encode.check_capacity. rewrite Hsrc, Hsec.
  destruct (Encode.get_image_size_for_bmp (mkFILE name c k)) as [cap src] eqn:Hcap.
  assert (cap = image_capacity c) as ->.
  { by rewrite <- (get_image_size_for_bmp_contents name c k), Hcap. }
  assert (src = mkFILE name c (offset src)) as ->.
  { pose proof (get_image_size_for_bmp_file name c k) as Hf. by rewrite Hcap in Hf. }
  exists (offset src). unfold Encode.get_file_size, rewind, fseek_set.
  cbn [contents path offset]. by case_bool_decide.
Qed.

Lemma copy_bmp_header_run name c k sname :
  ∃ hdr, Encode.copy_bmp_header (mkFILE name c k) (mkFILE sname [] 0)
         = (e_success, mkFILE name c (length c `min` 54), mkFILE sname hdr (length hdr))
       ∧ length hdr = 54%nat
       ∧ take (length (take 54 c)) hdr = take 54 c
       ∧ ((54 ≤ length c)%nat → hdr = take 54 c).
Proof.
  unfold Encode.copy_bmp_header, fseek_set. cbn [path contents offset].
  destruct (fread_spec (fresh "copy_bmp_header.buffer" 54) 54 name c 0)
    as (got & -> & Hgot & Htake & Hfull);
    [lia|by rewrite length_fresh|].
  rewrite length_fresh in Hgot, Hfull. rewrite drop_0 in Htake, Hfull.
  change (mkFILE sname [] 0) with (mkFILE sname [] (length (@nil Z))).
  rewrite fwrite_end by lia. rewrite take_ge by lia. cbn [app].
  exists got. split; [done|]. split; [done|]. split; [done|].
  intros Hc. by apply Hfull.
Qed.

Lemma bool_decide_status_ok : bool_decide (e_success ≠ e_success) = false.
Proof. reflexivity. Qed.

Lemma length_bytes_of_string s : length (bytes_of_string s) = String.length s.
Proof.
  unfold bytes_of_string. rewrite length_fmap.
  induction s as [|a s IH]; [done|]. cbn. by rewrite IH.
Qed.

(* the steps of do_encoding from its entrance to the signature, ... *)
Ltac enc_through_magic e cover :=
  unfold Encode.do_encoding; enc_simpl; rewrite bool_decide_status_ok;
  rewrite bool_decide_eq_false_2 by lia;
  edestruct (check_capacity_run) as (k' & ->); [enc_simpl; reflexivity..|];
  rewrite (bool_decide_eq_false_2 (_ < _)) by done;
  rewrite bool_decide_status_ok; enc_simpl;
  destruct (copy_bmp_header_run (Encode.src_image_fname e) cover 0
              (Encode.stego_image_fname e)) as (hdr & -> & Hhdr & Hpre & Hhfull);
  rewrite bool_decide_status_ok; enc_simpl;
  unfold Encode.encode_magic_string; enc_simpl;
  edestruct (encode_data_to_image_run (bytes_of_string MAGIC_STRING))
    as (w1 & -> & Hw1 & Hfull1); [lia|];
  rewrite !bool_decide_status_ok; enc_simpl.

(* ... and on to the extension, for a name with a period *)
Ltac enc_through_extn e cover extn :=
  enc_through_magic e cover;
  match goal with Hextn : Encode.strstr _ _ = Some extn |- _ => rewrite Hextn end;
  rewrite (bool_decide_eq_false_2 (MAX_FILE_SUFFIX ≤ _)) by (unfold MAX_FILE_SUFFIX; lia);
  enc_simpl;
  edestruct (encode_secret_file_extn_size_run) as (w2 & -> & Hw2 & Hfull2); [lia|];
  rewrite bool_decide_status_ok; enc_simpl;
  unfold Encode.encode_secret_file_extn; enc_simpl;
  edestruct (encode_data_to_image_run (bytes_of_string extn))
    as (w3 & -> & Hw3 & Hfull3); [lia|];
  rewrite !bool_decide_status_ok; enc_simpl.

(* the run of do_encoding once the two guards at its entrance are passed *)
Lemma do_encoding_run e cover secret extn :
  0 < uint_wrap (Z.of_nat (length secret)) →
  ¬ image_capacity cover / 8 < uint_wrap (uint_wrap (Z.of_nat (length secret)) + 14) →
  Encode.strstr (Encode.secret_fname e) "." = Some extn →
  (String.length extn < 5)%nat →
  0 ≤ int_wrap (uint_wrap (Z.of_nat (length secret))) →
  ∃ e' hdr w,
    Encode.do_encoding e cover secret = Some (e_success, [], e')
    ∧ Encode.fptr_stego_image e'
      = mkFILE (Encode.stego_image_fname e) (hdr ++ w ++ drop (54 + length w) cover)
          (length (hdr ++ w ++ drop (54 + length w) cover))
    ∧ Encode.extn_secret_file e' = extn
    ∧ length hdr = 54%nat
    ∧ take (length (take 54 cover)) hdr = take 54 cover
    ∧ length w = container_length extn secret
    ∧ ((54 + container_length extn secret ≤ length cover)%nat
       → hdr = take 54 cover ∧ w = container extn secret (drop 54 cover)).
Proof.
  intros Hsize Hcap Hextn Hfit Hint. enc_through_extn e cover extn.
  edestruct (encode_secret_file_size_run) as (w4 & -> & Hw4 & Hfull4);
    [exact Hint|enc_simpl; reflexivity|enc_simpl; reflexivity|lia|].
  rewrite bool_decide_status_ok. enc_simpl.
  unfold Encode.encode_secret_file_data. enc_simpl.
  edestruct (encode_secret_chunks_run (S (length secret))) as (w5 & -> & Hw5 & Hfull5);
    [lia..|].
  rewrite bool_decide_status_ok. enc_simpl.
  unfold Encode.copy_remaining_img_data. enc_simpl.
  rewrite copy_remaining_chunks_run by lia.
  rewrite bool_decide_status_ok. enc_simpl.
  rewrite !take_ge in * by (rewrite length_bytes_of_string; lia).
  rewrite !length_bytes_of_string, ?Nat.sub_0_r, ?drop_0 in *.
  change (String.length MAGIC_STRING) with 2%nat in *.
  eexists _, hdr, (w1 ++ w2 ++ w3 ++ w4 ++ w5).
  assert (Hw : length (w1 ++ w2 ++ w3 ++ w4 ++ w5) = container_length extn secret).
  { rewrite !length_app. unfold container_length.
    change (String.length MAGIC_STRING) with 2%nat. lia. }
  split; [reflexivity|]. split; [|split; [done|split; [done|split; [done|split; [done|]]]]].
  - cbn [Encode.fptr_stego_image Encode.stego_image_fname].
    match goal with
    | |- mkFILE _ (?l ++ drop ?a cover) _ = mkFILE _ (hdr ++ ?w ++ drop ?b cover) _ =>
        replace (l ++ drop a cover) with (hdr ++ w ++ drop b cover); [done|]
    end.
    rewrite <- !app_assoc. do 6 f_equal. rewrite Hw.
    apply drop_index_eq. unfold container_length.
    change (String.length MAGIC_STRING) with 2%nat. lia.
  - unfold container_length. change (String.length MAGIC_STRING) with 2%nat.
    intros Hroom. split; [apply Hhfull; lia|].
    rewrite Hfull1, Hfull2, Hfull3, Hfull4, Hfull5 by lia.
    unfold container. rewrite !drop_drop.
    repeat (rewrite (Nat.min_r (length cover)) by lia).
    set (l := String.length extn).
    replace (54 + 8 * 2)%nat with (54 + 16)%nat by lia.
    replace (54 + 16 + 32)%nat with (54 + 48)%nat by lia.
    replace (54 + 48 + 8 * l)%nat with (54 + (48 + 8 * l))%nat by lia.
    by replace (54 + (48 + 8 * l) + 32)%nat with (54 + (80 + 8 * l))%nat by lia.
Qed.

Lemma do_encoding_empty e cover secret :
  uint_wrap (Z.of_nat (length secret)) ≤ 0 →
  ∃ e', Encode.do_encoding e cover secret
        = Some (e_failure, ["ERROR: Secret file empty or unreadable"], e')
      ∧ Encode.fptr_stego_image e' = fopen_wb (Encode.stego_image_fname e).
Proof.
  intros Hsize. unfold Encode.do_encoding. enc_simpl. rewrite bool_decide_status_ok.
  rewrite bool_decide_eq_true_2 by done. eexists. split; reflexivity.
Qed.

Lemma do_encoding_small_image e cover secret :
  0 < uint_wrap (Z.of_nat (length secret)) →
  image_capacity cover / 8 < uint_wrap (uint_wrap (Z.of_nat (length secret)) + 14) →
  ∃ e', Encode.do_encoding e cover secret
        = Some (e_failure,
                ["ERROR: Image does not have enough capacity to hold the secret"], e')
      ∧ Encode.fptr_stego_image e' = fopen_wb (Encode.stego_image_fname e).
Proof.
  intros Hsize Hcap. unfold Encode.do_encoding. enc_simpl. rewrite bool_decide_status_ok.
  rewrite bool_decide_eq_false_2 by lia.
  edestruct (check_capacity_run) as (k' & ->); [enc_simpl; reflexivity..|].
  rewrite (bool_decide_eq_true_2 (_ < _)) by done.
  rewrite bool_decide_eq_true_2 by done. eexists. split; reflexivity.
Qed.

Lemma do_encoding_no_period e cover secret :
  0 < uint_wrap (Z.of_nat (length secret)) →
  ¬ image_capacity cover / 8 < uint_wrap (uint_wrap (Z.of_nat (length secret)) + 14) →
  Encode.strstr (Encode.secret_fname e) "." = None →
  Encode.do_encoding e cover secret = None.
Proof.
  intros Hsize Hcap Hextn. enc_through_magic e cover. by rewrite Hextn.
Qed.

(* a suffix of five characters or more overruns extn_secret_file *)
Lemma do_encoding_overrun e cover secret extn :
  0 < uint_wrap (Z.of_nat (length secret)) →
  ¬ image_capacity cover / 8 < uint_wrap (uint_wrap (Z.of_nat (length secret)) + 14) →
  Encode.strstr (Encode.secret_fname e) "." = Some extn →
  (5 ≤ String.length extn)%nat →
  Encode.do_encoding e cover secret = None.
Proof.
  intros Hsize Hcap Hextn Hlong. enc_through_magic e cover. rewrite Hextn.
  by rewrite bool_decide_eq_true_2 by (unfold MAX_FILE_SUFFIX; lia).
Qed.

Lemma do_encoding_negative_size e cover secret extn :
  0 < uint_wrap (Z.of_nat (length secret)) →
  ¬ image_capacity cover / 8 < uint_wrap (uint_wrap (Z.of_nat (length secret)) + 14) →
  Encode.strstr (Encode.secret_fname e) "." = Some extn →
  (String.length extn < 5)%nat →
  int_wrap (uint_wrap (Z.of_nat (length secret))) < 0 →
  ∃ e', Encode.do_encoding e cover secret
        = Some (e_failure, ["ERROR: encode_secret_file_size failed"], e').
Proof.
  intros Hsize Hcap Hextn Hfit Hint. enc_through_extn e cover extn.
  unfold Encode.encode_secret_file_size. rewrite bool_decide_eq_true_2 by done.
  rewrite bool_decide_eq_true_2 by done. by eexists.
Qed.

(* do_encoding returns e_success only past its guards, with a suffix that
   fits extn_secret_file *)
Lemma do_encoding_success_inv e cover secret log e' :
  Encode.do_encoding e cover secret = Some (e_success, log, e') →
  0 < uint_wrap (Z.of_nat (length secret))
  ∧ ¬ image_capacity cover / 8 < uint_wrap (uint_wrap (Z.of_nat (length secret)) + 14)
  ∧ (∃ extn, Encode.strstr (Encode.secret_fname e) "." = Some extn
             ∧ (String.length extn < 5)%nat)
  ∧ 0 ≤ int_wrap (uint_wrap (Z.of_nat (length secret))).
Proof.
  intros Hrun.
  destruct (decide (0 < uint_wrap (Z.of_nat (length secret)))) as [Hsize|Hsize]; last first.
  { destruct (do_encoding_empty e cover secret) as (e1 & He1 & _); [lia|]. congruence. }
  destruct (decide (image_capacity cover / 8
                    < uint_wrap (uint_wrap (Z.of_nat (length secret)) + 14))) as [Hcap|Hcap].
  { destruct (do_encoding_small_image e cover secret) as (e1 & He1 & _); [done..|].
    congruence. }
  destruct (Encode.strstr (Encode.secret_fname e) ".") as [extn|] eqn:Hextn; last first.
  { rewrite do_encoding_no_period in Hrun by done. done. }
  destruct (decide (String.length extn < 5)%nat) as [Hfit|Hfit]; last first.
  { rewrite (do_encoding_overrun e cover secret extn) in Hrun by (done || lia). done. }
  destruct (decide (0 ≤ int_wrap (uint_wrap (Z.of_nat (length secret))))) as [Hint|Hint];
    last first.
  { destruct (do_encoding_negative_size e cover secret extn) as (e1 & He1);
      [done|done|done|done|lia|]. congruence. }
  eauto 6.
Qed.

End EncodePipeline.

(** ** Claims about the encode pipeline *)

Section EncodeClaims.
Context {T : Target}.

(** C10.  A secret file of size zero makes do_encoding fail at its entrance:
    the source image has not been read, and the stego image, created by
    open_files, is still empty: neither the header nor any byte of the
    container has been written. *)
Theorem C10_empty_secret_rejected (e : Encode.EncodeInfo) (cover : list Z) :
  ∃ e', Encode.do_encoding e cover []
        = Some (e_failure, ["ERROR: Secret file empty or unreadable"], e')
      ∧ Encode.fptr_stego_image e' = fopen_wb (Encode.stego_image_fname e)
      ∧ Encode.fptr_src_image e' = fopen_rb (Encode.src_image_fname e) cover.
Proof.
  unfold Encode.do_encoding. enc_simpl. rewrite bool_decide_status_ok.
  rewrite bool_decide_eq_true_2 by done.
  eexists. split; [reflexivity|]. split; reflexivity.
Qed.

(** C6.  After a successful do_encoding the stego image agrees with the cover
    image outside the encoded region: the header bytes of the cover (its first
    54 bytes) open the stego image unchanged, and from the first byte after
    the container on (offset 54 + 8 * (signature + extension + payload) + 64)
    the two files are the same. *)
Theorem C6_outside_encoded_region (e e' : Encode.EncodeInfo) (cover secret : list Z)
    (log : list string) :
  Encode.do_encoding e cover secret = Some (e_success, log, e') →
  let stego := contents (Encode.fptr_stego_image e') in
  let used := (54 + container_length (Encode.extn_secret_file e') secret)%nat in
  take (54 `min` length cover) stego = take 54 cover
  ∧ drop used stego = drop used cover.
Proof.
  intros Hrun stego used.
  destruct (do_encoding_success_inv _ _ _ _ _ Hrun)
    as (Hsize & Hcap & (extn & Hextn & Hfit) & Hint).
  destruct (do_encoding_run e cover secret extn Hsize Hcap Hextn Hfit Hint)
    as (e1 & hdr & w & He1 & Hstego & Hext & Hhdr & Hpre & Hw & _).
  assert (e1 = e') as -> by congruence.
  unfold stego, used. rewrite Hstego, Hext. cbn [contents]. split.
  - rewrite take_app_le by lia. by rewrite <- Hpre, length_take.
  - rewrite <- Hw. rewrite drop_app_ge by lia.
    replace (54 + length w - length hdr)%nat with (length w) by lia.
    by rewrite drop_app_length.
Qed.

Lemma image_capacity_header (image : list Z) :
  (26 ≤ length image)%nat →
  image_capacity image = uint_wrap (bmp_width image * bmp_height image * 3).
Proof.
  intros Hlen. unfold image_capacity, Encode.get_image_size_for_bmp, fopen_rb, fseek_set.
  cbn [path contents offset].
  destruct (fread_spec (fresh "get_image_size_for_bmp.width" 4) 4 "" image 18)
    as (w & -> & _ & _ & Hw);
    [lia|by rewrite length_fresh|].
  replace (length image `min` (18 + 4))%nat with 22%nat by lia.
  destruct (fread_spec (fresh "get_image_size_for_bmp.height" 4) 4 "" image 22)
    as (h & -> & _ & _ & Hh);
    [lia|by rewrite length_fresh|].
  rewrite Hw, Hh by (by rewrite ?length_fresh; lia). done.
Qed.

(** C3 (amended).  With the width and the height found in the header,
    check_capacity succeeds exactly when (width * height * 3) / 8 is at least
    the size of the secret file plus the constant 14, the product, the size
    and the sum being taken as 32-bit unsigned values.  When neither the
    product nor the sum overflows this is the comparison on the integers, and
    the boundary is exact: size + 14 equal to the usable bytes succeeds, one
    byte more fails. *)
Theorem C3_check_capacity (e : Encode.EncodeInfo) (cover secret : list Z)
    (n1 n2 : string) (k1 k2 : nat) :
  (26 ≤ length cover)%nat →
  Encode.fptr_src_image e = mkFILE n1 cover k1 →
  Encode.fptr_secret e = mkFILE n2 secret k2 →
  let usable := uint_wrap (bmp_width cover * bmp_height cover * 3) / 8 in
  let size := Z.of_nat (length secret) in
  ((Encode.check_capacity e).1 = e_success ↔ uint_wrap (uint_wrap size + 14) ≤ usable)
  ∧ (0 ≤ bmp_width cover * bmp_height cover * 3 < 2 ^ 32 → size + 14 < 2 ^ 32 →
     ((Encode.check_capacity e).1 = e_success
      ↔ size + 14 ≤ bmp_width cover * bmp_height cover * 3 / 8)
     ∧ (size + 14 = bmp_width cover * bmp_height cover * 3 / 8
        → (Encode.check_capacity e).1 = e_success)
     ∧ (size + 14 = bmp_width cover * bmp_height cover * 3 / 8 + 1
        → (Encode.check_capacity e).1 = e_failure)).
Proof.
  intros Hlen Hsrc Hsec usable size.
  destruct (check_capacity_run e n1 cover k1 n2 secret k2 Hsrc Hsec) as (k' & ->).
  rewrite image_capacity_header by done. cbn [fst]. fold usable size.
  assert (Hiff : (if bool_decide (usable < uint_wrap (uint_wrap size + 14))
                  then e_failure else e_success) = e_success
                 ↔ uint_wrap (uint_wrap size + 14) ≤ usable).
  { case_bool_decide; split; intros; done || lia. }
  split; [exact Hiff|]. intros Hprod Hsum.
  assert (uint_wrap (uint_wrap size + 14) = size + 14) as Hs.
  { unfold uint_wrap. rewrite (Z.mod_small size), Z.mod_small; lia. }
  assert (usable = bmp_width cover * bmp_height cover * 3 / 8) as Hu.
  { unfold usable, uint_wrap. by rewrite Z.mod_small. }
  rewrite Hs, Hu in *. split; [exact Hiff|]. split.
  - intros Heq. apply Hiff. lia.
  - intros Heq. case_bool_decide; [done|lia].
Qed.

Lemma prefix_period c s : String.prefix "." (String c s) = bool_decide (period = c).
Proof.
  change (String.prefix "." (String c s))
    with (if Ascii.ascii_dec period c then String.prefix "" s else false).
  destruct (Ascii.ascii_dec period c).
  - rewrite bool_decide_eq_true_2 by done. by destruct s.
  - by rewrite bool_decide_eq_false_2.
Qed.

Lemma strstr_cons c s needle :
  Encode.strstr (String c s) needle
  = if String.prefix needle (String c s) then Some (String c s)
    else Encode.strstr s needle.
Proof. reflexivity. Qed.

(* strstr with a period as needle: the suffix from the first period on *)
Lemma strstr_period_app (pre rest : string) :
  no_period pre →
  Encode.strstr (pre +:+ String period rest) "." = Some (String period rest).
Proof.
  unfold no_period. induction pre as [|c pre IH]; intros Hpre.
  - change ("" +:+ String period rest)%string with (String period rest).
    by rewrite strstr_cons, prefix_period, bool_decide_eq_true_2.
  - cbn in Hpre. apply not_elem_of_cons in Hpre as [Hc Hpre].
    change (String c pre +:+ String period rest)%string
      with (String c (pre +:+ String period rest)).
    rewrite strstr_cons, prefix_period, bool_decide_eq_false_2 by done.
    by apply IH.
Qed.

(** C8 (what the code does).  The extension that do_encoding embeds is the
    part of the name of the secret file from its FIRST period on: for the
    name x.a.b it stores .a.b, where the claim asks for .b, and do_decoding
    names its output decoded.a.b.  (A longer suffix, such as the .b.txt of
    a.b.txt, does not fit extn_secret_file.) *)
Theorem C8_extension_from_first_period (e e' : Encode.EncodeInfo) (cover secret : list Z)
    (log : list string) (pre rest : string) :
  Encode.secret_fname e = (pre +:+ String period rest)%string →
  no_period pre →
  Encode.do_encoding e cover secret = Some (e_success, log, e') →
  Encode.extn_secret_file e' = String period rest.
Proof.
  intros Hname Hpre Hrun.
  destruct (do_encoding_success_inv _ _ _ _ _ Hrun)
    as (Hsize & Hcap & (extn & Hextn & Hfit) & Hint).
  destruct (do_encoding_run e cover secret extn Hsize Hcap Hextn Hfit Hint)
    as (e1 & hdr & w & He1 & _ & Hext & _).
  assert (e1 = e') as -> by congruence.
  rewrite Hname, strstr_period_app in Hextn by done. congruence.
Qed.

End EncodeClaims.

(** ** The decode pipeline *)

Ltac dec_simpl :=
  unfold Decode.open_files_decode, Decode.set_fptr_stego_image,
    Decode.set_fptr_secret_out, Decode.set_extn_secret_file,
    Decode.set_size_secret_file, Decode.set_extn_size, Decode.decode_args,
    fopen_rb, fopen_wb, rewind, fseek_set;
  cbn [Decode.stego_image_fname Decode.fptr_stego_image Decode.output_fname
       Decode.fptr_secret_out Decode.extn_secret_file Decode.size_secret_file
       Decode.extn_size path contents offset fst snd].

Section DecodePipeline.
Context {T : Target}.

Lemma decode_byte_lsbs blk :
  length blk = 8%nat → bits_of_byte (Decode.decode_byte_from_lsb blk).2 = lsbs blk.
Proof.
  intros Hlen. apply list_eq. intros i. unfold bits_of_byte, lsbs.
  rewrite !list_lookup_fmap.
  destruct (decide (i < 8)%nat) as [Hi|Hi].
  - rewrite lookup_seq_lt by done.
    destruct (lookup_lt_is_Some_2 blk i) as [x Hx]; [lia|].
    rewrite Hx. cbn [fmap option_fmap option_map Nat.add]. f_equal.
    rewrite decode_byte_from_lsb_testbit by lia.
    rewrite bool_decide_eq_true_2, Nat2Z.id by lia.
    by rewrite (list_lookup_total_correct _ _ _ Hx).
  - rewrite lookup_seq_ge by lia. by rewrite lookup_ge_None_2 by lia.
Qed.

Lemma length_fread_got n (c : list Z) k : (length (take n (drop k c)) ≤ n)%nat.
Proof. rewrite length_take. lia. Qed.

(* decode_magic_string reads at most the sixteen bytes of the signature field
   and accepts only the signature, with a NUL found behind it *)
Lemma decode_magic_string_cases d name c :
  Decode.fptr_stego_image d = mkFILE name c 54 →
  ∃ st k',
    Decode.decode_magic_string d
    = (st, Decode.set_fptr_stego_image d (mkFILE name c k'))
    ∧ (k' ≤ 70)%nat
    ∧ (st = e_success → signature_present c ∧ uninit "decode_magic_string.buffer" 2%nat = 0).
Proof.
  intros Hf. unfold Decode.decode_magic_string, Decode.decode_data_from_image.
  rewrite Hf.
  change (Z.to_nat (int_wrap (Z.of_nat (String.length MAGIC_STRING)))) with 2%nat.
  cbn [Decode.decode_data_loop]. unfold fread at 1. cbn [contents offset path].
  pose proof (length_fread_got 8 c 54) as Hle1.
  set (got1 := take 8 (drop 54 c)) in *.
  case_bool_decide as Hr1.
  { rewrite bool_decide_eq_true_2 by done.
    eexists _, _. split; [reflexivity|]. split; [lia|done]. }
  rewrite Hr1, (drop_ge (fresh _ 8)), app_nil_r by (rewrite length_fresh; lia).
  destruct (Decode.decode_byte_from_lsb got1) as [st0 d0] eqn:Hd0.
  unfold fread at 1. cbn [contents offset path].
  pose proof (length_fread_got 8 c (54 + 8)) as Hle2.
  set (got2 := take 8 (drop (54 + 8) c)) in *.
  case_bool_decide as Hr2.
  { rewrite bool_decide_eq_true_2 by done.
    eexists _, _. split; [reflexivity|]. split; [lia|done]. }
  rewrite Hr2, drop_ge, app_nil_r by lia.
  destruct (Decode.decode_byte_from_lsb got2) as [st1 d1] eqn:Hd1.
  rewrite bool_decide_eq_false_2 by (intros ?; done).
  destruct (Decode.strcmp_eq _ _) eqn:Hcmp; cbn [negb]; last first.
  { eexists _, _. split; [reflexivity|]. split; [lia|done]. }
  eexists _, _. split; [reflexivity|]. split; [lia|]. intros _.
  unfold Decode.strcmp_eq in Hcmp. apply bool_decide_eq_true_1 in Hcmp.
  unfold fresh in Hcmp. cbn in Hcmp.
  repeat case_bool_decide; try done.
  split; [|done]. injection Hcmp as Hd0' Hd1'.
  unfold signature_present.
  change (8 * String.length MAGIC_STRING)%nat with (8 + 8)%nat.
  rewrite <- (take_take_drop (drop 54 c) 8 8), drop_drop. fold got1 got2.
  unfold lsbs. rewrite fmap_app. fold (lsbs got1) (lsbs got2).
  rewrite <- !decode_byte_lsbs, Hd0, Hd1 by done. cbn [snd].
  by rewrite Hd0', Hd1'.
Qed.

(* a read that finds the whole block in the file *)
Lemma fread_block buf n name pre blk post :
  length buf = n → length blk = n →
  fread buf n (mkFILE name (pre ++ blk ++ post) (length pre))
  = (blk, n, mkFILE name (pre ++ blk ++ post) (length pre + n)).
Proof.
  intros Hbuf Hblk. unfold fread. cbn [contents offset path].
  rewrite drop_app_length. rewrite take_app_le, take_ge by lia.
  rewrite drop_ge, app_nil_r by lia. by rewrite Hblk.
Qed.

Lemma uchar_wrap_byte b : is_byte b → uchar_wrap b = b.
Proof. intros Hb. unfold uchar_wrap. apply Z.mod_small. exact Hb. Qed.

Lemma store_from_app (i : nat) (data dst : list Z) :
  (i + length data ≤ length dst)%nat →
  store_from i data dst = take i dst ++ data ++ drop (i + length data) dst.
Proof.
  revert i dst. induction data as [|b data IH]; intros i dst Hlen.
  - cbn [store_from length app]. by rewrite Nat.add_0_r, take_drop.
  - cbn [store_from length] in *. rewrite IH by (rewrite length_insert; lia).
    rewrite (take_S_r _ i b) by (apply list_lookup_insert_eq; lia).
    rewrite take_insert_ge, drop_insert_lt by lia.
    rewrite <- app_assoc. cbn [app].
    by replace (S i + length data)%nat with (i + S (length data))%nat by lia.
Qed.

(* decode_data_from_image over a stretch of the image that holds data *)
Lemma decode_data_loop_embed data i buffer dst name pre px post :
  length buffer = 8%nat → Forall is_byte data → (8 * length data ≤ length px)%nat →
  Decode.decode_data_loop (length data) i buffer dst
    (mkFILE name (pre ++ embed data px ++ post) (length pre))
  = (e_success, store_from i data dst,
     mkFILE name (pre ++ embed data px ++ post) (length pre + 8 * length data)).
Proof.
  revert i buffer dst pre px.
  induction data as [|b data IH]; intros i buffer dst pre px Hbuf Hdata Hpx.
  - cbn [Decode.decode_data_loop length store_from]. by rewrite Nat.add_0_r.
  - apply Forall_cons in Hdata as [Hb Hdata]. cbn [length] in Hpx.
    cbn [Decode.decode_data_loop length embed store_from].
    set (blk := (Encode.encode_byte_to_lsb (uchar_wrap b) (take 8 px)).2).
    assert (Hblk : length blk = 8%nat).
    { unfold blk. rewrite encode_byte_to_lsb_length, length_take. lia. }
    rewrite <- (app_assoc blk). rewrite fread_block by done.
    rewrite bool_decide_eq_false_2 by (intros ?; done).
    destruct (Decode.decode_byte_from_lsb blk) as [st ch] eqn:Hch.
    assert (ch = b) as ->.
    { change ch with (st, ch).2. rewrite <- Hch. unfold blk.
      rewrite uchar_wrap_byte by done.
      apply decode_encode_byte; [done|]. rewrite length_take. lia. }
    rewrite (app_assoc pre blk).
    replace (length pre + 8)%nat with (length (pre ++ blk))
      by (rewrite length_app; lia).
    rewrite IH by (done || rewrite length_drop; lia).
    rewrite length_app, Hblk. do 2 f_equal. lia.
Qed.

Lemma decode_data_from_image_embed data dst name pre px post :
  Forall is_byte data → (8 * length data ≤ length px)%nat →
  Decode.decode_data_from_image dst (Z.of_nat (length data))
    (mkFILE name (pre ++ embed data px ++ post) (length pre))
  = (e_success, store_from 0 data dst,
     mkFILE name (pre ++ embed data px ++ post) (length pre + 8 * length data)).
Proof.
  intros Hdata Hpx. unfold Decode.decode_data_from_image. rewrite Nat2Z.id.
  apply decode_data_loop_embed; [apply length_fresh|done..].
Qed.

(* the payload loop of decode_secret_file_data over a stretch that holds data *)
Lemma decode_secret_loop_embed data ch name pre px post oname oc :
  length ch = 1%nat → Forall is_byte data → (8 * length data ≤ length px)%nat →
  Decode.decode_secret_loop (length data) ch
    (mkFILE name (pre ++ embed data px ++ post) (length pre))
    (mkFILE oname oc (length oc))
  = (mkFILE name (pre ++ embed data px ++ post) (length pre + 8 * length data),
     mkFILE oname (oc ++ data) (length (oc ++ data))).
Proof.
  revert ch pre px oc.
  induction data as [|b data IH]; intros ch pre px oc Hch Hdata Hpx.
  - cbn [Decode.decode_secret_loop length]. by rewrite Nat.add_0_r, app_nil_r.
  - apply Forall_cons in Hdata as [Hb Hdata]. cbn [length] in Hpx.
    cbn [Decode.decode_secret_loop length embed].
    set (blk := (Encode.encode_byte_to_lsb (uchar_wrap b) (take 8 px)).2).
    assert (Hblk : length blk = 8%nat).
    { unfold blk. rewrite encode_byte_to_lsb_length, length_take. lia. }
    pose proof (decode_data_from_image_embed [b] ch name pre px
                  (embed data (drop 8 px) ++ post)) as Hstep.
    cbn [embed length] in Hstep. fold blk in Hstep.
    rewrite app_nil_r in Hstep. rewrite <- (app_assoc blk).
    change (Z.of_nat 1) with 1 in Hstep.
    rewrite Hstep by (lia || by apply Forall_singleton).
    destruct ch as [|c0 [|? ?]]; try done. cbn [store_from].
    change (<[0%nat:=b]> [c0]) with [b].
    rewrite fwrite_end by (cbn; lia). cbn [take].
    rewrite (app_assoc pre blk).
    replace (length pre + 8 * 1)%nat with (length (pre ++ blk))
      by (rewrite length_app; lia).
    rewrite IH by (done || rewrite length_drop; lia).
    rewrite length_app, Hblk, <- !app_assoc. cbn [app]. do 2 f_equal. lia.
Qed.

(* a 32-bit field read back *)
Lemma decode_size_block size px :
  - 2 ^ 31 ≤ size < 2 ^ 31 → (32 ≤ length px)%nat →
  (Decode.decode_size_from_lsb (embed_size size px)).2 = size.
Proof.
  intros Hsize Hpx. unfold embed_size.
  apply decode_encode_size_int; [done|]. rewrite length_take. lia.
Qed.

Lemma fread_at buf n name c k pre blk post :
  c = pre ++ blk ++ post → k = length pre → length buf = n → length blk = n →
  fread buf n (mkFILE name c k) = (blk, n, mkFILE name c (k + n)).
Proof. intros -> -> Hbuf Hblk. by apply fread_block. Qed.

Lemma decode_data_from_image_at data dst name c k pre px post :
  c = pre ++ embed data px ++ post → k = length pre →
  Forall is_byte data → (8 * length data ≤ length px)%nat →
  Decode.decode_data_from_image dst (Z.of_nat (length data)) (mkFILE name c k)
  = (e_success, store_from 0 data dst, mkFILE name c (k + 8 * length data)).
Proof. intros -> -> Hdata Hpx. by apply decode_data_from_image_embed. Qed.

Lemma decode_secret_loop_at data ch name c k pre px post oname :
  c = pre ++ embed data px ++ post → k = length pre →
  length ch = 1%nat → Forall is_byte data → (8 * length data ≤ length px)%nat →
  Decode.decode_secret_loop (length data) ch (mkFILE name c k) (mkFILE oname [] 0)
  = (mkFILE name c (k + 8 * length data), mkFILE oname data (length data)).
Proof.
  intros -> -> Hch Hdata Hpx.
  exact (decode_secret_loop_embed data ch name pre px post oname [] Hch Hdata Hpx).
Qed.

Lemma bytes_of_string_is_byte s : Forall is_byte (bytes_of_string s).
Proof.
  unfold bytes_of_string. apply Forall_fmap, Forall_forall. intros a _.
  unfold is_byte, byte_of_ascii. cbn.
  pose proof (Ascii.N_ascii_bounded a). lia.
Qed.

Lemma string_of_bytes_of_string s : string_of_bytes (bytes_of_string s) = s.
Proof.
  unfold string_of_bytes, bytes_of_string.
  rewrite <- (String.string_of_list_ascii_of_string s) at 2. f_equal.
  induction (String.list_ascii_of_string s) as [|a l IH]; [done|].
  cbn [fmap list_fmap]. f_equal; [|exact IH].
  unfold ascii_of_byte, byte_of_ascii. rewrite N2Z.id. apply Ascii.ascii_N_embedding.
Qed.

Lemma c_str_app_nul (a b : list Z) : (0 : Z) ∉ a → c_str (a ++ 0 :: b) = a.
Proof.
  induction a as [|x a IH]; intros Ha; [done|].
  apply not_elem_of_cons in Ha as [Hx Ha]. cbn [app c_str].
  rewrite bool_decide_eq_false_2 by done. by rewrite IH.
Qed.

(* the extension buffer of the decoder once an extension of one to four
   characters is stored and terminated *)
Lemma extension_buffer (ext : list Z) :
  (1 ≤ length ext ≤ 4)%nat → (0 : Z) ∉ ext →
  c_str (<[length ext := 0]> (store_from 0 ext (replicate 5 0))) = ext.
Proof.
  intros Hlen Hnul. rewrite store_from_app by (rewrite length_replicate; lia).
  rewrite take_0, drop_replicate. cbn [app Nat.add].
  rewrite insert_app_r_alt, Nat.sub_diag by lia.
  destruct (5 - length ext)%nat as [|m] eqn:Hm; [lia|].
  cbn [replicate]. by apply c_str_app_nul.
Qed.

(* do_decoding on a stego image that holds a container *)
Lemma do_decoding_run name out extn secret hdr px tail :
  uninit "decode_magic_string.buffer" 2%nat = 0 →
  length hdr = 54%nat → (container_length extn secret ≤ length px)%nat →
  Forall is_byte secret → Z.of_nat (length secret) < 2 ^ 31 →
  nul_free extn → (1 ≤ String.length extn ≤ 4)%nat →
  (String.length (Decode.output_base out) + String.length extn < 256)%nat →
  ∃ d',
    Decode.do_decoding (Decode.decode_args name out)
      (hdr ++ container extn secret px ++ tail)
    = Some (e_success, [], d')
    ∧ Decode.fptr_secret_out d'
      = Some (mkFILE (Decode.output_base out +:+ extn) secret (length secret))
    ∧ string_of_bytes (c_str (Decode.extn_secret_file d')) = extn.
Proof.
  intros Hu Hhdr Hpx Hsecret Hlen Hnul Hextn Hname.
  unfold container_length in Hpx. change (String.length MAGIC_STRING) with 2%nat in Hpx.
  unfold Decode.do_decoding, container. dec_simpl. rewrite bool_decide_status_ok.
  set (l := String.length extn) in *.
  set (B1 := embed (bytes_of_string MAGIC_STRING) px).
  set (B2 := embed_size (int_wrap (Z.of_nat l)) (drop 16 px)).
  set (B3 := embed (bytes_of_string extn) (drop 48 px)).
  set (B4 := embed_size (int_wrap (uint_wrap (Z.of_nat (length secret))))
               (drop (48 + 8 * l) px)).
  set (B5 := embed secret (drop (80 + 8 * l) px)).
  set (c := hdr ++ (B1 ++ B2 ++ B3 ++ B4 ++ B5) ++ tail).
  assert (HB1 : length B1 = 16%nat) by (apply length_embed; cbn; lia).
  assert (HB2 : length B2 = 32%nat)
    by (apply length_embed_size; rewrite length_drop; lia).
  assert (HB3 : length B3 = (8 * l)%nat).
  { unfold B3. rewrite length_embed; rewrite length_bytes_of_string; [done|].
    rewrite length_drop. lia. }
  assert (HB4 : length B4 = 32%nat)
    by (apply length_embed_size; rewrite length_drop; lia).
  (* the signature *)
  unfold Decode.decode_magic_string. dec_simpl.
  change (int_wrap (Z.of_nat (String.length MAGIC_STRING)))
    with (Z.of_nat (length (bytes_of_string MAGIC_STRING))).
  rewrite (decode_data_from_image_at _ _ _ c 54 hdr px ((B2 ++ B3 ++ B4 ++ B5) ++ tail));
    [|by unfold c; rewrite <- !app_assoc|done|apply bytes_of_string_is_byte|cbn; lia].
  rewrite bool_decide_status_ok.
  assert (Hcmp : Decode.strcmp_eq
                   (store_from 0 (bytes_of_string MAGIC_STRING)
                      (fresh "decode_magic_string.buffer" 16)) MAGIC_STRING
                 = true).
  { unfold Decode.strcmp_eq, fresh. cbn. rewrite Hu. reflexivity. }
  rewrite Hcmp. cbn [negb]. rewrite bool_decide_status_ok.
  change (length (bytes_of_string MAGIC_STRING)) with 2%nat.
  (* the length of the extension *)
  unfold Decode.decode_file_extn_size. dec_simpl.
  rewrite (fread_at _ _ _ c _ (hdr ++ B1) B2 ((B3 ++ B4 ++ B5) ++ tail));
    [|by unfold c; rewrite <- !app_assoc|rewrite length_app; lia
     |apply length_fresh|done].
  destruct (Decode.decode_size_from_lsb B2) as [st2 v2] eqn:Hv2.
  assert (v2 = Z.of_nat l) as ->.
  { change v2 with (st2, v2).2. rewrite <- Hv2. unfold B2.
    rewrite decode_size_block; [apply int_wrap_small; lia| |rewrite length_drop; lia].
    rewrite int_wrap_small; lia. }
  rewrite orb_false_iff_2 by (split; apply bool_decide_eq_false_2; lia).
  rewrite bool_decide_status_ok. dec_simpl.
  (* the extension *)
  unfold Decode.decode_secret_file_extn. dec_simpl.
  rewrite orb_false_iff_2
    by (split; apply bool_decide_eq_false_2; unfold MAX_FILE_SUFFIX; lia).
  replace (Z.of_nat l) with (Z.of_nat (length (bytes_of_string extn)))
    by (by rewrite length_bytes_of_string).
  rewrite (decode_data_from_image_at _ _ _ c _ (hdr ++ B1 ++ B2) (drop 48 px)
             ((B4 ++ B5) ++ tail));
    [|by unfold c; rewrite <- !app_assoc|rewrite !length_app; lia
     |apply bytes_of_string_is_byte
     |rewrite length_drop, length_bytes_of_string; lia].
  dec_simpl. rewrite !bool_decide_status_ok. dec_simpl.
  rewrite Nat2Z.id. change (Z.to_nat MAX_FILE_SUFFIX) with 5%nat.
  rewrite !extension_buffer by (rewrite ?length_bytes_of_string; done).
  rewrite string_of_bytes_of_string, !length_bytes_of_string. fold l.
  rewrite (bool_decide_eq_false_2 (256 ≤ _)%nat) by lia.
  (* the length of the payload *)
  unfold Decode.decode_secret_file_size. dec_simpl.
  rewrite (fread_at _ _ _ c _ (hdr ++ B1 ++ B2 ++ B3) B4 (B5 ++ tail));
    [|by unfold c; rewrite <- !app_assoc|rewrite !length_app; lia
     |apply length_fresh|done].
  destruct (Decode.decode_size_from_lsb B4) as [st4 v4] eqn:Hv4.
  assert (v4 = Z.of_nat (length secret)) as ->.
  { change v4 with (st4, v4).2. rewrite <- Hv4. unfold B4.
    assert (int_wrap (uint_wrap (Z.of_nat (length secret))) = Z.of_nat (length secret))
      as -> by (apply int_wrap_uint_wrap; lia).
    apply decode_size_block; [lia|rewrite length_drop; lia]. }
  rewrite bool_decide_status_ok. dec_simpl.
  (* the payload *)
  unfold Decode.decode_secret_file_data. dec_simpl. rewrite Nat2Z.id.
  rewrite (decode_secret_loop_at _ _ _ c _ (hdr ++ B1 ++ B2 ++ B3 ++ B4)
             (drop (80 + 8 * l) px) tail);
    [|by unfold c; rewrite <- !app_assoc|rewrite !length_app; lia
     |apply length_fresh|done|rewrite length_drop; lia].
  rewrite bool_decide_status_ok. dec_simpl.
  eexists. split; [reflexivity|]. dec_simpl. split; [done|].
  unfold l. rewrite <- (length_bytes_of_string extn).
  rewrite extension_buffer by (rewrite ?length_bytes_of_string; done).
  apply string_of_bytes_of_string.
Qed.

End DecodePipeline.

(** ** Claims about the codec *)

Section CodecClaims.
Context {T : Target}.

(** C2.  Packing a byte into an 8-byte carrier and unpacking it gives the byte
    back, and packing a 32-bit unsigned value into a 32-byte carrier and
    unpacking it gives the value back, whatever the carriers held; bit i of the
    value sits in the least significant bit of carrier byte i. *)
Theorem C2_codec_round_trip (b v : Z) (carrier8 carrier32 : list Z) :
  0 ≤ b < 256 → length carrier8 = 8%nat →
  0 ≤ v < 2 ^ 32 → length carrier32 = 32%nat →
  let packed8 := (Encode.encode_byte_to_lsb b carrier8).2 in
  let packed32 := (Encode.encode_size_to_lsb (int_wrap v) carrier32).2 in
  (Decode.decode_byte_from_lsb packed8).2 = b
  ∧ (∀ i : nat, (i < 8)%nat → Z.testbit (packed8 !!! i) 0 = Z.testbit b (Z.of_nat i))
  ∧ uint_wrap (Decode.decode_size_from_lsb packed32).2 = v
  ∧ (∀ i : nat, (i < 32)%nat → Z.testbit (packed32 !!! i) 0 = Z.testbit v (Z.of_nat i)).
Proof.
  intros Hb H8 Hv H32 packed8 packed32. split; [|split; [|split]].
  - apply decode_encode_byte; [done|lia].
  - intros i Hi. unfold packed8. rewrite encode_byte_to_lsb_cell by lia.
    rewrite lsb_store_testbit, bool_decide_eq_true_2 by done.
    rewrite Z.shiftr_spec, Z.add_0_l by lia. apply int_of_char_low_bits. lia.
  - unfold packed32. rewrite decode_encode_size by lia.
    unfold uint_wrap, int_wrap. rewrite Zminus_mod_idemp_l.
    rewrite Z.mod_small; lia.
  - intros i Hi. unfold packed32. rewrite encode_size_to_lsb_cell by lia.
    rewrite lsb_store_testbit, bool_decide_eq_true_2 by done.
    rewrite Z.shiftr_spec, Z.add_0_l by lia.
    unfold int_wrap.
    rewrite <- (Z.mod_pow2_bits_low ((v + 2 ^ 31) `mod` 2 ^ 32 - 2 ^ 31) 32) by lia.
    rewrite Zminus_mod_idemp_l.
    replace (v + 2 ^ 31 - 2 ^ 31) with v by lia.
    apply Z.mod_pow2_bits_low. lia.
Qed.

(** C7.  Both packing operations return e_success, keep the length of the
    carrier, leave the bits 1 to 7 of every carrier byte as they were, and do
    not touch the bytes behind the 8 (32) they pack into. *)
Theorem C7_only_lsb_modified (data size : Z) (carrier : list Z) :
  let r8 := Encode.encode_byte_to_lsb data carrier in
  let r32 := Encode.encode_size_to_lsb size carrier in
  r8.1 = e_success ∧ r32.1 = e_success
  ∧ length r8.2 = length carrier ∧ length r32.2 = length carrier
  ∧ (∀ (i : nat) (j : Z), 1 ≤ j < 8 →
       Z.testbit (r8.2 !!! i) j = Z.testbit (carrier !!! i) j
       ∧ Z.testbit (r32.2 !!! i) j = Z.testbit (carrier !!! i) j)
  ∧ (∀ i : nat, (8 ≤ i)%nat → r8.2 !! i = carrier !! i)
  ∧ (∀ i : nat, (32 ≤ i)%nat → r32.2 !! i = carrier !! i).
Proof.
  intros r8 r32. split; [done|]. split; [done|].
  split; [apply encode_byte_to_lsb_length|]. split; [apply encode_size_to_lsb_length|].
  split; [|split].
  - intros i j Hj. unfold r8, r32. rewrite !list_lookup_total_alt.
    rewrite encode_byte_to_lsb_lookup, encode_size_to_lsb_lookup.
    destruct (carrier !! i) as [x|] eqn:Hx; [|by repeat case_bool_decide].
    assert (∀ y, Z.testbit (lsb_store (int_of_char x) y) j = Z.testbit x j) as Hbit.
    { intros y. rewrite lsb_store_testbit by lia.
      rewrite bool_decide_eq_false_2, bool_decide_eq_true_2 by lia.
      apply int_of_char_low_bits. lia. }
    repeat case_bool_decide; simpl; by rewrite ?Hbit.
  - intros i Hi. unfold r8. rewrite encode_byte_to_lsb_lookup.
    by rewrite bool_decide_eq_false_2 by lia.
  - intros i Hi. unfold r32. rewrite encode_size_to_lsb_lookup.
    by rewrite bool_decide_eq_false_2 by lia.
Qed.

End CodecClaims.

(** ** Claims about the two pipelines together *)

Section PipelineClaims.
Context {T : Target}.

Lemma image_capacity_range image : 0 ≤ image_capacity image < 2 ^ 32.
Proof.
  unfold image_capacity, Encode.get_image_size_for_bmp.
  destruct (fread _ _ _) as [[w n] f]. destruct (fread _ _ _) as [[h m] g].
  cbn [fst]. apply Z.mod_pos_bound. lia.
Qed.

Lemma strstr_period_nonempty s extn :
  Encode.strstr s "." = Some extn → (1 ≤ String.length extn)%nat.
Proof.
  induction s as [|c s IH]; [done|].
  rewrite strstr_cons, prefix_period. case_bool_decide; [|done].
  intros [= <-]. cbn. lia.
Qed.

(* with anything but a NUL behind the two bytes that decode_magic_string
   writes into its buffer, do_decoding stops at the signature *)
Lemma do_decoding_without_nul name out stego :
  uninit "decode_magic_string.buffer" 2%nat ≠ 0 →
  ∃ d',
    Decode.do_decoding (Decode.decode_args name out) stego
    = Some (e_failure, ["ERROR: decode_magic_string failed"], d')
    ∧ Decode.fptr_secret_out d' = None.
Proof.
  intros Hu. unfold Decode.do_decoding. dec_simpl. rewrite bool_decide_status_ok.
  edestruct (decode_magic_string_cases) as (st & k' & -> & Hk & Hok);
    [dec_simpl; reflexivity|].
  destruct st; [by destruct Hok|].
  rewrite bool_decide_eq_true_2 by done. dec_simpl.
  eexists. split; [reflexivity|]. dec_simpl. done.
Qed.

(** C1 (what the code does).  For a secret file that is not empty, whose name
    has from its first period on an extension of at most four characters, and
    a cover image that holds the pixel bytes its header announces, with
    (width * height * 3) / 8 at least the size of the secret plus 14,
    do_encoding succeeds.  What do_decoding then makes of the stego image
    hangs on a byte that decode_magic_string never writes: the one behind the
    two signature bytes in its buffer, up to which strcmp reads.  When that
    byte happens to be a NUL, do_decoding succeeds, writes exactly the bytes
    of the secret and names the output with the same extension; when it is
    anything else, do_decoding fails at the signature and opens no output
    file, and nothing of the secret comes back. *)
Theorem C1_round_trip (src_name secret_name stego_name : string) (out : option string)
    (cover secret : list Z) (extn : string) :
  secret ≠ [] → Forall is_byte secret →
  Encode.strstr secret_name "." = Some extn →
  nul_free extn → (String.length extn ≤ 4)%nat →
  Z.of_nat (length secret) + 14 ≤ image_capacity cover / 8 →
  (54 + Z.to_nat (image_capacity cover) ≤ length cover)%nat →
  (String.length (Decode.output_base out) + String.length extn < 256)%nat →
  ∃ e',
    Encode.do_encoding (Encode.encode_args src_name secret_name stego_name) cover secret
    = Some (e_success, [], e')
    ∧ (uninit "decode_magic_string.buffer" 2%nat = 0 →
       ∃ d',
         Decode.do_decoding (Decode.decode_args stego_name out)
           (contents (Encode.fptr_stego_image e'))
         = Some (e_success, [], d')
         ∧ Decode.fptr_secret_out d'
           = Some (mkFILE (Decode.output_base out +:+ extn) secret (length secret))
         ∧ string_of_bytes (c_str (Decode.extn_secret_file d')) = extn)
    ∧ (uninit "decode_magic_string.buffer" 2%nat ≠ 0 →
       ∃ d',
         Decode.do_decoding (Decode.decode_args stego_name out)
           (contents (Encode.fptr_stego_image e'))
         = Some (e_failure, ["ERROR: decode_magic_string failed"], d')
         ∧ Decode.fptr_secret_out d' = None).
Proof.
  intros Hne Hbytes Hextn Hnul Hl Hcap Hpixels Hname.
  pose proof (image_capacity_range cover) as Hrange.
  pose proof (strstr_period_nonempty _ _ Hextn) as Hl1.
  assert (Hsize : 0 < Z.of_nat (length secret)) by (destruct secret; [done|cbn; lia]).
  assert (Hsmall : Z.of_nat (length secret) < 2 ^ 29).
  { assert (image_capacity cover / 8 < 2 ^ 29)
      by (apply Z.div_lt_upper_bound; lia). lia. }
  assert (Hw1 : uint_wrap (Z.of_nat (length secret)) = Z.of_nat (length secret))
    by (apply Z.mod_small; lia).
  assert (Hw2 : uint_wrap (Z.of_nat (length secret) + 14) = Z.of_nat (length secret) + 14)
    by (apply Z.mod_small; lia).
  destruct (do_encoding_run (Encode.encode_args src_name secret_name stego_name)
              cover secret extn)
    as (e' & hdr & w & Hrun & Hstego & _ & Hhdr & _ & Hw & Hfull).
  { lia. } { rewrite Hw1, Hw2. lia. } { exact Hextn. } { lia. }
  { rewrite Hw1, int_wrap_small; lia. }
  exists e'. split; [exact Hrun|]. split; [|apply do_decoding_without_nul].
  intros Hu.
  assert (Hroom : (54 + container_length extn secret ≤ length cover)%nat).
  { unfold container_length. change (String.length MAGIC_STRING) with 2%nat.
    assert (8 * (Z.of_nat (length secret) + 14) ≤ image_capacity cover).
    { pose proof (Z.mul_div_le (image_capacity cover) 8). lia. }
    lia. }
  destruct (Hfull Hroom) as [-> ->].
  destruct (do_decoding_run stego_name out extn secret (take 54 cover) (drop 54 cover)
              (drop (54 + length (container extn secret (drop 54 cover))) cover))
    as (d' & Hdec & Hout & Hext); try done.
  { rewrite length_drop. lia. } { lia. }
  exists d'. rewrite Hstego. cbn [contents]. done.
Qed.

(** C5.  When the pixel bytes of the image do not start with the signature,
    do_decoding fails in decode_magic_string: it has read no byte behind the
    sixteen of the signature field, and no output file has been opened. *)
Theorem C5_signature_mismatch (name : string) (out : option string) (stego : list Z) :
  ¬ signature_present stego →
  ∃ d',
    Decode.do_decoding (Decode.decode_args name out) stego
    = Some (e_failure, ["ERROR: decode_magic_string failed"], d')
    ∧ Decode.fptr_secret_out d' = None
    ∧ contents (Decode.fptr_stego_image d') = stego
    ∧ (offset (Decode.fptr_stego_image d') ≤ 54 + 8 * String.length MAGIC_STRING)%nat.
Proof.
  intros Hsig. unfold Decode.do_decoding. dec_simpl. rewrite bool_decide_status_ok.
  edestruct (decode_magic_string_cases) as (st & k' & -> & Hk & Hok);
    [dec_simpl; reflexivity|].
  destruct st; [by destruct Hok|].
  rewrite bool_decide_eq_true_2 by done. dec_simpl.
  eexists. split; [reflexivity|]. dec_simpl. done.
Qed.

End PipelineClaims.

(** ** The name of the output file *)

Section OutputName.
Context {T : Target}.

Lemma is_delim_period c : Decode.is_delim "." c = bool_decide (c = period).
Proof.
  unfold Decode.is_delim. apply bool_decide_ext.
  change (String.list_ascii_of_string ".") with [period]. apply list_elem_of_singleton.
Qed.

Lemma skip_delims_periods k s :
  Decode.skip_delims "." (periods k +:+ s) = Decode.skip_delims "." s.
Proof.
  induction k as [|k IH]; [done|].
  change (periods (S k) +:+ s)%string with (String period (periods k +:+ s)).
  cbn [Decode.skip_delims]. by rewrite is_delim_period, bool_decide_eq_true_2.
Qed.

Lemma token_of_app pre rest :
  no_period pre → (rest = ""%string ∨ ∃ r, rest = String period r) →
  Decode.token_of "." (pre +:+ rest) = pre.
Proof.
  unfold no_period. induction pre as [|c pre IH]; intros Hpre Hrest.
  - change ("" +:+ rest)%string with rest. destruct Hrest as [->|[r ->]]; [done|].
    cbn [Decode.token_of]. by rewrite is_delim_period, bool_decide_eq_true_2.
  - cbn in Hpre. apply not_elem_of_cons in Hpre as [Hc Hpre].
    change (String c pre +:+ rest)%string with (String c (pre +:+ rest)).
    cbn [Decode.token_of]. rewrite is_delim_period, bool_decide_eq_false_2 by done.
    by rewrite IH.
Qed.

Lemma substring_whole s n : (String.length s ≤ n)%nat → String.substring 0 n s = s.
Proof.
  revert n. induction s as [|c s IH]; intros [|n] Hn; cbn in *; try done; try lia.
  rewrite IH; [done|lia].
Qed.

Lemma substring_periods k n : String.substring 0 n (periods k) = periods (k `min` n).
Proof.
  revert n. induction k as [|k IH]; intros [|n]; cbn; try done. by rewrite IH.
Qed.

Lemma length_append (a b : string) :
  String.length (a +:+ b) = (String.length a + String.length b)%nat.
Proof. induction a as [|c a IH]; [done|]. simpl. by f_equal. Qed.

Lemma append_nil_r (a : string) : (a +:+ "")%string = a.
Proof.
  induction a as [|c a IH]; [done|].
  change (String c a +:+ "")%string with (String c (a +:+ "")). by rewrite IH.
Qed.

Lemma substring_0_0 s : String.substring 0 0 s = ""%string.
Proof. by destruct s. Qed.

Lemma substring_0_append (a b : string) n :
  String.substring 0 n (a +:+ b)
  = (String.substring 0 n a +:+ String.substring 0 (n - String.length a) b)%string.
Proof.
  revert n. induction a as [|c a IH]; intros n.
  - change ("" +:+ b)%string with b. cbn [String.length]. rewrite Nat.sub_0_r.
    by destruct n.
  - change (String c a +:+ b)%string with (String c (a +:+ b)).
    destruct n as [|n]; cbn [String.substring String.length].
    + by rewrite substring_0_0.
    + rewrite IH. done.
Qed.

Lemma length_periods k : String.length (periods k) = k.
Proof. induction k as [|k IH]; [done|]. cbn. by rewrite IH. Qed.

Lemma no_period_substring pre n : no_period pre → no_period (String.substring 0 n pre).
Proof.
  unfold no_period. revert n. induction pre as [|c pre IH]; intros n Hpre.
  - destruct n; cbn; apply not_elem_of_nil.
  - cbn in Hpre. apply not_elem_of_cons in Hpre as [Hc Hpre].
    destruct n as [|n]; cbn; [apply not_elem_of_nil|].
    apply not_elem_of_cons. split; [done|]. by apply IH.
Qed.

Lemma substring_rest rest n :
  (rest = ""%string ∨ ∃ r, rest = String period r) →
  String.substring 0 n rest = ""%string ∨ ∃ r, String.substring 0 n rest = String period r.
Proof.
  intros [->|[r ->]]; [left; by destruct n|].
  destruct n as [|n]; [by left|]. right. cbn. eauto.
Qed.

(* the choice of the stem for a base name that is not empty *)
Lemma output_base_Some name :
  name ≠ ""%string →
  Decode.output_base (Some name)
  = match Decode.strtok (Decode.strncpy name 255) "." with
    | Some (String c token) => String c token
    | _ => "decoded"%string
    end.
Proof. by destruct name. Qed.

(* the copy of the first 255 characters, and the leading periods in it *)
Lemma strtok_periods k s :
  Decode.strtok (Decode.strncpy (periods k +:+ s) 255) "."
  = match Decode.skip_delims "." (String.substring 0 (255 - k) s) with
    | EmptyString => None
    | rest => Some (Decode.token_of "." rest)
    end.
Proof.
  unfold Decode.strtok, Decode.strncpy.
  by rewrite substring_0_append, substring_periods, length_periods, skip_delims_periods.
Qed.

(* the stem that do_decoding chooses *)
Lemma output_base_stem o stem : names_stem o stem → Decode.output_base o = stem.
Proof.
  intros [|k|k pre rest Hk|k pre rest Hne Hpre Hrest Hk].
  - done.
  - destruct k as [|k]; [done|].
    rewrite output_base_Some by done.
    rewrite <- (append_nil_r (periods (S k))), strtok_periods.
    by destruct (255 - S k)%nat.
  - destruct k as [|k]; [lia|].
    rewrite output_base_Some by done. rewrite strtok_periods.
    replace (255 - S k)%nat with 0%nat by lia. by rewrite substring_0_0.
  - destruct pre as [|c pre]; [done|].
    assert (Hc : c ≠ period).
    { intros ->. apply Hpre. cbn. apply list_elem_of_here. }
    rewrite output_base_Some; last first.
    { intros Hname. apply (f_equal String.length) in Hname.
      rewrite !length_append in Hname. cbn in Hname. lia. }
    rewrite strtok_periods, substring_0_append.
    destruct (255 - k)%nat as [|m] eqn:Hm; [lia|].
    pose proof (no_period_substring (String c pre) (S m) Hpre) as Hpre'.
    pose proof (substring_rest rest (S m - String.length (String c pre)) Hrest) as Hrest'.
    revert Hpre' Hrest'.
    generalize (String.substring 0 (S m - String.length (String c pre)) rest).
    cbn [String.substring]. generalize (String.substring 0 m pre).
    intros pre' rest' Hpre' Hrest'.
    change (String c pre' +:+ rest')%string with (String c (pre' +:+ rest')).
    cbn [Decode.skip_delims]. rewrite is_delim_period, bool_decide_eq_false_2 by done.
    change (String c (pre' +:+ rest')) with (String c pre' +:+ rest')%string.
    by rewrite token_of_app.
Qed.

(* every base name has a stem: it is a run of periods, or a run of periods,
   a stretch without a period and a rest that is empty or starts with one *)
Lemma string_periods_token s :
  (∃ k, s = periods k)
  ∨ (∃ k pre rest,
       s = (periods k +:+ pre +:+ rest)%string ∧ pre ≠ ""%string ∧ no_period pre
       ∧ (rest = ""%string ∨ ∃ r, rest = String period r)).
Proof.
  induction s as [|c s IH]; [left; by exists 0%nat|].
  destruct (decide (c = period)) as [->|Hc].
  - destruct IH as [[k ->]|(k & pre & rest & -> & Hne & Hpre & Hrest)].
    + left. by exists (S k).
    + right. by exists (S k), pre, rest.
  - right. exists 0%nat.
    assert (Hone : no_period (String c "")).
    { unfold no_period. cbn. apply not_elem_of_cons. split; [done|apply not_elem_of_nil]. }
    destruct IH as [[k ->]|(k & pre & rest & -> & Hne & Hpre & Hrest)].
    + exists (String c ""), (periods k). split; [done|]. split; [done|]. split; [done|].
      destruct k as [|k]; [by left|right; by eexists].
    + destruct k as [|k].
      * exists (String c pre), rest. split; [done|]. split; [done|]. split; [|done].
        unfold no_period in *. cbn. apply not_elem_of_cons. done.
      * exists (String c ""), (periods (S k) +:+ pre +:+ rest)%string.
        split; [done|]. split; [done|]. split; [done|]. right. by eexists.
Qed.

Lemma names_stem_total o : names_stem o (Decode.output_base o).
Proof.
  assert (∃ stem, names_stem o stem) as [stem Hstem]; [|by rewrite (output_base_stem o stem)].
  destruct o as [name|]; [|eexists; apply stem_absent].
  destruct (string_periods_token name) as [[k ->]|(k & pre & rest & -> & Hne & Hpre & Hrest)].
  - eexists. apply stem_periods.
  - destruct (decide (k < 255)%nat).
    + eexists. by apply stem_token.
    + eexists. apply stem_cut. lia.
Qed.

(* what the steps of do_decoding leave untouched *)
Lemma decode_magic_string_frame d :
  Decode.output_fname (Decode.decode_magic_string d).2 = Decode.output_fname d
  ∧ Decode.fptr_secret_out (Decode.decode_magic_string d).2 = Decode.fptr_secret_out d.
Proof.
  unfold Decode.decode_magic_string.
  destruct (Decode.decode_data_from_image _ _ _) as [[st buf] f].
  case_bool_decide; [done|]. by destruct (negb _).
Qed.

Lemma decode_file_extn_size_frame d :
  Decode.output_fname (Decode.decode_file_extn_size d).2 = Decode.output_fname d
  ∧ Decode.fptr_secret_out (Decode.decode_file_extn_size d).2 = Decode.fptr_secret_out d.
Proof.
  unfold Decode.decode_file_extn_size.
  destruct (fread _ _ _) as [[arr n] f].
  destruct (Decode.decode_size_from_lsb arr) as [st len]. by destruct (_ || _).
Qed.

Lemma decode_secret_file_extn_frame d :
  Decode.output_fname (Decode.decode_secret_file_extn d).2 = Decode.output_fname d
  ∧ Decode.fptr_secret_out (Decode.decode_secret_file_extn d).2 = Decode.fptr_secret_out d.
Proof.
  unfold Decode.decode_secret_file_extn. destruct (_ || _); [done|].
  destruct (Decode.decode_data_from_image _ _ _) as [[st buf] f].
  by case_bool_decide.
Qed.

Lemma decode_secret_file_size_frame d :
  Decode.fptr_secret_out (Decode.decode_secret_file_size d).2 = Decode.fptr_secret_out d
  ∧ Decode.extn_secret_file (Decode.decode_secret_file_size d).2
    = Decode.extn_secret_file d.
Proof.
  unfold Decode.decode_secret_file_size.
  destruct (fread _ _ _) as [[arr n] f].
  by destruct (Decode.decode_size_from_lsb arr) as [st len].
Qed.

Lemma decode_secret_loop_path n ch f out :
  path (Decode.decode_secret_loop n ch f out).2 = path out.
Proof.
  revert ch f out. induction n as [|n IH]; intros ch f out; [done|].
  cbn [Decode.decode_secret_loop].
  destruct (Decode.decode_data_from_image ch 1 f) as [[st ch'] f'].
  destruct (fwrite ch' 1 out) as [m out'] eqn:Hout.
  rewrite IH. unfold fwrite in Hout. by injection Hout as _ <-.
Qed.

Lemma decode_secret_file_data_frame d out :
  Decode.fptr_secret_out d = Some out →
  (∃ out', Decode.fptr_secret_out (Decode.decode_secret_file_data d).2 = Some out'
           ∧ path out' = path out)
  ∧ Decode.extn_secret_file (Decode.decode_secret_file_data d).2
    = Decode.extn_secret_file d.
Proof.
  intros Hout. unfold Decode.decode_secret_file_data. rewrite Hout.
  pose proof (decode_secret_loop_path (Z.to_nat (Decode.size_secret_file d))
                (fresh "decode_secret_file_data.ch" 1)
                (Decode.fptr_stego_image d) out) as Hpath.
  destruct (Decode.decode_secret_loop _ _ _ _) as [f out'].
  split; [|done]. by exists out'.
Qed.

(* the name under which do_decoding opens the output file *)
Lemma do_decoding_output_path d d' stego st log f :
  Decode.fptr_secret_out d = None →
  Decode.do_decoding d stego = Some (st, log, d') →
  Decode.fptr_secret_out d' = Some f →
  path f = (Decode.output_base (Decode.output_fname d)
            +:+ string_of_bytes (c_str (Decode.extn_secret_file d')))%string.
Proof.
  intros Hnone Hrun Hf.
  unfold Decode.do_decoding in Hrun.
  set (d0 := (Decode.open_files_decode d stego).2) in *.
  assert (H0 : Decode.output_fname d0 = Decode.output_fname d
               ∧ Decode.fptr_secret_out d0 = None) by done.
  change (Decode.open_files_decode d stego) with (e_success, d0) in Hrun.
  cbv beta iota in Hrun. rewrite bool_decide_status_ok in Hrun. clearbody d0.
  destruct H0 as [Hn0 Ho0].
  pose proof (decode_magic_string_frame d0) as [Hn1 Ho1].
  destruct (Decode.decode_magic_string d0) as [st1 d1]. cbn [snd] in *.
  case_bool_decide; [injection Hrun as <- <- <-; congruence|].
  pose proof (decode_file_extn_size_frame d1) as [Hn2 Ho2].
  destruct (Decode.decode_file_extn_size d1) as [st2 d2]. cbn [snd] in *.
  case_bool_decide; [injection Hrun as <- <- <-; congruence|].
  pose proof (decode_secret_file_extn_frame d2) as [Hn3 Ho3].
  destruct (Decode.decode_secret_file_extn d2) as [st3 d3]. cbn [snd] in *.
  case_bool_decide; [injection Hrun as <- <- <-; congruence|].
  case_bool_decide; [done|].
  set (stem := Decode.output_base (Decode.output_fname d)).
  set (final_name := (Decode.output_base (Decode.output_fname d3)
                      +:+ string_of_bytes (c_str (Decode.extn_secret_file d3)))%string) in *.
  set (d4 := Decode.set_fptr_secret_out d3 (Some (fopen_wb final_name))) in *.
  assert (Hfinal : final_name
                   = (stem +:+ string_of_bytes (c_str (Decode.extn_secret_file d4)))%string).
  { unfold final_name, stem. by rewrite Hn3, Hn2, Hn1, Hn0. }
  assert (Ho4 : Decode.fptr_secret_out d4 = Some (fopen_wb final_name)) by done.
  clearbody d4 final_name. subst final_name.
  pose proof (decode_secret_file_size_frame d4) as [Ho5 He5].
  destruct (Decode.decode_secret_file_size d4) as [st5 d5]. cbn [snd] in *.
  rewrite Ho4 in Ho5.
  case_bool_decide.
  { injection Hrun as <- <- <-. rewrite Ho5 in Hf. injection Hf as <-.
    by rewrite He5. }
  pose proof (decode_secret_file_data_frame d5 _ Ho5) as [(out' & Ho6 & Hp6) He6].
  destruct (Decode.decode_secret_file_data d5) as [st6 d6]. cbn [snd] in *.
  assert (path f = (stem +:+ string_of_bytes (c_str (Decode.extn_secret_file d6)))%string)
    as Hgoal.
  { rewrite He6, He5. assert (f = out') as -> ; [|done].
    case_bool_decide; injection Hrun as <- <- <-; congruence. }
  by case_bool_decide; injection Hrun as <- <- <-.
Qed.

(** C9 (what the code does).  The output file that do_decoding opens is named
    by a stem followed by the decoded extension, and every base name has
    exactly one stem.  Of the base name the first 255 characters count.  The
    stem is the default, decoded, when no base name was given or when these
    characters are nothing but periods, the empty name among them; otherwise
    it is what lies between the leading periods of the base name, which
    strtok passes over, and its next period or its end, as far as the 255
    characters go.  So a base name without a period is taken as it is, and
    one that does not start with a period is cut at its first period, as the
    claim says; but of a base name that starts with a period, such as .out,
    the code keeps what follows the period, where the claim and the comments
    of the code ask for what precedes it. *)
Theorem C9_output_name (d d' : Decode.DecodeInfo) (stego : list Z) (st : Status)
    (log : list string) (f : FILE) :
  Decode.fptr_secret_out d = None →
  Decode.do_decoding d stego = Some (st, log, d') →
  Decode.fptr_secret_out d' = Some f →
  ∃ stem,
    names_stem (Decode.output_fname d) stem
    ∧ (∀ stem', names_stem (Decode.output_fname d) stem' → stem' = stem)
    ∧ path f = (stem +:+ string_of_bytes (c_str (Decode.extn_secret_file d')))%string.
Proof.
  intros Hnone Hrun Hf. exists (Decode.output_base (Decode.output_fname d)).
  split; [apply names_stem_total|]. split.
  - intros stem' Hstem'. symmetry. by apply output_base_stem.
  - by apply (do_decoding_output_path d d' stego st log f).
Qed.

End OutputName.

(** ** What a short stego image does to do_decoding *)

(** C4 (what the code does).  The stego image of the sample, cut after the
    first of its two payload bytes: do_decoding returns e_success and writes
    two bytes, the second a repetition of the first.  Cut inside the payload
    length field, it returns e_success as well, with two bytes that were never
    in the image.  Only decode_data_from_image looks at the count that fread
    returns; decode_secret_file_data drops the status it is given. *)
Theorem C4_short_read_unnoticed :
  let stego := sample_stego zeroed_stack "s.txt" sample_secret in
  let run (image : list Z) :=
    match Decode.do_decoding (T := zeroed_stack)
            (Decode.decode_args "stego.bmp" None) image with
    | Some (st, log, d) => Some (st, log, Decode.fptr_secret_out d)
    | None => None
    end in
  length stego = 204%nat
  ∧ run stego = Some (e_success, [], Some (mkFILE "decoded.txt" [104; 105] 2))
  ∧ run (take 174 stego) = Some (e_success, [], Some (mkFILE "decoded.txt" [104; 104] 2))
  ∧ run (take 150 stego) = Some (e_success, [], Some (mkFILE "decoded.txt" [0; 0] 2)).
Proof. vm_compute. done. Qed.

(** ** Closed instances *)

Lemma sample_is_bytes : Forall is_byte sample_secret.
Proof. apply bytes_of_string_is_byte. Qed.

Lemma nul_free_txt : nul_free ".txt".
Proof. unfold nul_free. refine (bool_decide_unpack _ _). vm_compute. exact I. Defined.

(* the sample on a stack that holds zeros, where the secret comes back, and
   on one that holds ones, where do_decoding turns down what do_encoding wrote *)
Lemma C1_round_trip_witness :
  (∃ e' d',
     Encode.do_encoding (T := zeroed_stack)
       (Encode.encode_args "cover.bmp" "s.txt" "stego.bmp") sample_cover sample_secret
     = Some (e_success, [], e')
     ∧ Decode.do_decoding (T := zeroed_stack) (Decode.decode_args "stego.bmp" None)
         (contents (Encode.fptr_stego_image e'))
       = Some (e_success, [], d')
     ∧ Decode.fptr_secret_out d'
       = Some (mkFILE (Decode.output_base None +:+ ".txt") sample_secret
                 (length sample_secret)))
  ∧ (∃ e' d',
       Encode.do_encoding (T := dirty_stack)
         (Encode.encode_args "cover.bmp" "s.txt" "stego.bmp") sample_cover sample_secret
       = Some (e_success, [], e')
       ∧ Decode.do_decoding (T := dirty_stack) (Decode.decode_args "stego.bmp" None)
           (contents (Encode.fptr_stego_image e'))
         = Some (e_failure, ["ERROR: decode_magic_string failed"], d')
       ∧ Decode.fptr_secret_out d' = None).
Proof.
  split.
  - destruct (C1_round_trip (T := zeroed_stack) "cover.bmp" "s.txt" "stego.bmp" None
                sample_cover sample_secret ".txt") as (e' & Hrun & Hgood & _).
    + discriminate.
    + exact sample_is_bytes.
    + reflexivity.
    + exact nul_free_txt.
    + vm_compute. lia.
    + vm_compute. discriminate.
    + vm_compute. lia.
    + vm_compute. lia.
    + destruct Hgood as (d' & Hdec & Hout & _); [reflexivity|].
      exists e', d'. exact (conj Hrun (conj Hdec Hout)).
  - destruct (C1_round_trip (T := dirty_stack) "cover.bmp" "s.txt" "stego.bmp" None
                sample_cover sample_secret ".txt") as (e' & Hrun & _ & Hbad).
    + discriminate.
    + exact sample_is_bytes.
    + reflexivity.
    + exact nul_free_txt.
    + vm_compute. lia.
    + vm_compute. discriminate.
    + vm_compute. lia.
    + vm_compute. lia.
    + destruct Hbad as (d' & Hdec & Hout); [vm_compute; discriminate|].
      exists e', d'. exact (conj Hrun (conj Hdec Hout)).
Defined.

(* the empty secret does not come back either, by the guard at the entrance
   of do_encoding: the capacity of the sample takes 0 + 14 bytes, yet
   do_encoding fails, and what it leaves as stego image is empty and is
   turned down by do_decoding *)
Lemma empty_secret_no_round_trip :
  let e' := sample_encoded zeroed_stack "s.txt" [] in
  let d' := sample_decoded zeroed_stack None (contents (Encode.fptr_stego_image e')) in
  0 + 14 ≤ image_capacity (T := zeroed_stack) sample_cover / 8
  ∧ Encode.do_encoding (T := zeroed_stack)
      (Encode.encode_args "cover.bmp" "s.txt" "stego.bmp") sample_cover []
    = Some (e_failure, ["ERROR: Secret file empty or unreadable"], e')
  ∧ contents (Encode.fptr_stego_image e') = []
  ∧ Decode.do_decoding (T := zeroed_stack) (Decode.decode_args "stego.bmp" None)
      (contents (Encode.fptr_stego_image e'))
    = Some (e_failure, ["ERROR: decode_magic_string failed"], d')
  ∧ Decode.fptr_secret_out d' = None.
Proof. vm_compute. repeat split; (reflexivity || discriminate). Qed.

(* the signature is compared as a C string: with a byte other than NUL behind
   it in the scratch buffer, do_decoding turns the stego image of the sample down *)
Lemma decode_magic_string_needs_nul :
  let stego := sample_stego zeroed_stack "s.txt" sample_secret in
  Decode.do_decoding (T := dirty_stack) (Decode.decode_args "stego.bmp" None) stego
  = Some (e_failure, ["ERROR: decode_magic_string failed"],
          sample_decoded dirty_stack None stego).
Proof. vm_compute. reflexivity. Qed.

Lemma C2_codec_round_trip_witness :
  let packed8 := (Encode.encode_byte_to_lsb (T := zeroed_stack) 163 (replicate 8 255)).2 in
  let packed32 :=
    (Encode.encode_size_to_lsb (T := zeroed_stack) (int_wrap 4000000005)
       (replicate 32 128)).2 in
  (Decode.decode_byte_from_lsb (T := zeroed_stack) packed8).2 = 163
  ∧ (∀ i : nat, (i < 8)%nat → Z.testbit (packed8 !!! i) 0 = Z.testbit 163 (Z.of_nat i))
  ∧ uint_wrap (Decode.decode_size_from_lsb (T := zeroed_stack) packed32).2 = 4000000005
  ∧ (∀ i : nat, (i < 32)%nat
       → Z.testbit (packed32 !!! i) 0 = Z.testbit 4000000005 (Z.of_nat i)).
Proof.
  apply (C2_codec_round_trip (T := zeroed_stack) 163 4000000005
           (replicate 8 255) (replicate 32 128)).
  - lia.
  - reflexivity.
  - lia.
  - reflexivity.
Defined.

Lemma C3_check_capacity_witness :
  (Encode.check_capacity (T := zeroed_stack) (opened (sample_header 8 6) [1; 2; 3; 4])).1
  = e_success
  ∧ (Encode.check_capacity (T := zeroed_stack)
       (opened (sample_header 8 6) [1; 2; 3; 4; 5])).1
    = e_failure.
Proof.
  split.
  - pose proof (C3_check_capacity (T := zeroed_stack)
                  (opened (sample_header 8 6) [1; 2; 3; 4])
                  (sample_header 8 6) [1; 2; 3; 4] "cover.bmp" "s.txt" 0 0) as Hcap.
    destruct Hcap as [_ Hexact]; [vm_compute; lia|reflexivity|reflexivity|].
    destruct Hexact as (_ & Hedge & _);
      [vm_compute; split; [discriminate|reflexivity] | vm_compute; reflexivity |].
    apply Hedge. vm_compute. reflexivity.
  - pose proof (C3_check_capacity (T := zeroed_stack)
                  (opened (sample_header 8 6) [1; 2; 3; 4; 5])
                  (sample_header 8 6) [1; 2; 3; 4; 5] "cover.bmp" "s.txt" 0 0) as Hcap.
    destruct Hcap as [_ Hexact]; [vm_compute; lia|reflexivity|reflexivity|].
    destruct Hexact as (_ & _ & Hover);
      [vm_compute; split; [discriminate|reflexivity] | vm_compute; reflexivity |].
    apply Hover. vm_compute. reflexivity.
Defined.

(* the claim as it stands, with the overhead it names (signature and two
   length fields, 10 bytes), lets a one-byte secret into an image of 8 by 4
   pixels, 12 usable bytes; check_capacity, which asks for 14, turns it down.
   And whatever the overhead, the product of a width and a height of 65536
   wraps to 0, so that check_capacity turns the one-byte secret down again. *)
Lemma C3_counterexample_overhead :
  let cover := sample_header 8 4 in
  let huge := sample_header 65536 65536 in
  let secret := [65] in
  (Z.of_nat (length secret) + spec_fixed_overhead
     ≤ bmp_width cover * bmp_height cover * 3 / 8
   ∧ (Encode.check_capacity (T := zeroed_stack) (opened cover secret)).1 = e_failure)
  ∧ (Z.of_nat (length secret) + 14 ≤ bmp_width huge * bmp_height huge * 3 / 8
     ∧ (Encode.check_capacity (T := zeroed_stack) (opened huge secret)).1 = e_failure).
Proof. vm_compute. repeat split; (reflexivity || discriminate). Qed.

Lemma C5_signature_mismatch_witness :
  ¬ signature_present sample_cover
  ∧ ∃ d',
      Decode.do_decoding (T := zeroed_stack) (Decode.decode_args "cover.bmp" None)
        sample_cover
      = Some (e_failure, ["ERROR: decode_magic_string failed"], d')
      ∧ Decode.fptr_secret_out d' = None
      ∧ contents (Decode.fptr_stego_image d') = sample_cover
      ∧ (offset (Decode.fptr_stego_image d') ≤ 54 + 8 * String.length MAGIC_STRING)%nat.
Proof.
  assert (Hclean : ¬ signature_present sample_cover).
  { intros Hsig. vm_compute in Hsig. discriminate. }
  split; [exact Hclean|].
  exact (C5_signature_mismatch (T := zeroed_stack) "cover.bmp" None sample_cover Hclean).
Defined.

Lemma C6_outside_encoded_region_witness :
  let stego := sample_stego zeroed_stack "s.txt" sample_secret in
  take 54 stego = take 54 sample_cover ∧ drop 182 stego = drop 182 sample_cover.
Proof.
  pose proof (C6_outside_encoded_region (T := zeroed_stack)
                (Encode.encode_args "cover.bmp" "s.txt" "stego.bmp")
                (sample_encoded zeroed_stack "s.txt" sample_secret)
                sample_cover sample_secret []) as Hframe.
  vm_compute in Hframe. vm_compute. apply Hframe. reflexivity.
Defined.

Lemma C8_extension_from_first_period_witness :
  Encode.extn_secret_file (sample_encoded zeroed_stack "x.a.b" sample_secret)
  = ".a.b"%string
  ∧ path <$> Decode.fptr_secret_out
               (sample_decoded zeroed_stack None
                  (sample_stego zeroed_stack "x.a.b" sample_secret))
    = Some "decoded.a.b"%string.
Proof.
  split.
  - apply (C8_extension_from_first_period (T := zeroed_stack)
             (Encode.encode_args "cover.bmp" "x.a.b" "stego.bmp")
             (sample_encoded zeroed_stack "x.a.b" sample_secret)
             sample_cover sample_secret [] "x" "a.b").
    + reflexivity.
    + refine (bool_decide_unpack _ _). vm_compute. exact I.
    + vm_compute. reflexivity.
  - vm_compute. reflexivity.
Defined.

(* the base name .out: the stem is out, the file out.txt *)
Lemma C9_output_name_witness :
  let stego := sample_stego zeroed_stack "s.txt" sample_secret in
  let d' := sample_decoded zeroed_stack (Some ".out"%string) stego in
  let f := mkFILE "out.txt" sample_secret 2 in
  Decode.do_decoding (T := zeroed_stack)
    (Decode.decode_args "stego.bmp" (Some ".out"%string)) stego
  = Some (e_success, [], d')
  ∧ Decode.fptr_secret_out d' = Some f
  ∧ names_stem (Some ".out"%string) "out"
  ∧ path f = ("out" +:+ string_of_bytes (c_str (Decode.extn_secret_file d')))%string.
Proof.
  intros stego d' f.
  assert (Hrun : Decode.do_decoding (T := zeroed_stack)
                   (Decode.decode_args "stego.bmp" (Some ".out"%string)) stego
                 = Some (e_success, [], d')) by (vm_compute; reflexivity).
  assert (Hout : Decode.fptr_secret_out d' = Some f) by (vm_compute; reflexivity).
  assert (Hstem : names_stem (Some ".out"%string) "out").
  { apply (stem_token 1 "out" "").
    - discriminate.
    - refine (bool_decide_unpack _ _). vm_compute. exact I.
    - by left.
    - lia. }
  split; [exact Hrun|]. split; [exact Hout|]. split; [exact Hstem|].
  destruct (C9_output_name (T := zeroed_stack)
              (Decode.decode_args "stego.bmp" (Some ".out"%string)) d'
              stego e_success [] f eq_refl Hrun Hout) as (stem & _ & Huniq & Hpath).
  rewrite Hpath. f_equal. symmetry. apply Huniq. exact Hstem.
Defined.

(* for the base name .out the claim asks for the stem before the first
   period, which is empty, hence for the name .txt (and were the empty stem
   replaced by the default, as the comments of the code have it, for
   decoded.txt); do_decoding writes out.txt *)
Lemma output_name_leading_period :
  let stego := sample_stego zeroed_stack "s.txt" sample_secret in
  let d' := sample_decoded zeroed_stack (Some ".out"%string) stego in
  Decode.do_decoding (T := zeroed_stack)
    (Decode.decode_args "stego.bmp" (Some ".out"%string)) stego
  = Some (e_success, [], d')
  ∧ path <$> Decode.fptr_secret_out d' = Some "out.txt"%string
  ∧ (spec_stem (Some ".out"%string) +:+ ".txt")%string = ".txt"%string
  ∧ path <$> Decode.fptr_secret_out d'
    ≠ Some (spec_stem (Some ".out"%string) +:+ ".txt")%string
  ∧ path <$> Decode.fptr_secret_out d' ≠ Some "decoded.txt"%string.
Proof. vm_compute. repeat split; (reflexivity || discriminate). Qed.

(** * Further properties of the code *)

(** ** More on the bit codec *)

Section CodecMore.
Context {T : Target}.

Lemma lsb_store_twice x y1 y2 :
  lsb_store (int_of_char (lsb_store (int_of_char x) y1)) y2 = lsb_store (int_of_char x) y2.
Proof.
  apply Z.bits_inj'. intros j Hj. rewrite !lsb_store_testbit by done.
  case_bool_decide as H0; [done|].
  case_bool_decide as H8; [|done]. cbn [andb].
  rewrite int_of_char_low_bits, lsb_store_testbit by lia.
  by rewrite bool_decide_eq_false_2, bool_decide_eq_true_2 by done.
Qed.

Lemma decode_byte_from_lsb_range buf : 0 ≤ (Decode.decode_byte_from_lsb buf).2 < 256.
Proof.
  set (v := (Decode.decode_byte_from_lsb buf).2).
  assert (v = v `mod` 2 ^ 8) as ->.
  { apply Z.bits_inj'. intros j Hj. rewrite Z.testbit_mod_pow2 by lia.
    unfold v. rewrite decode_byte_from_lsb_testbit by done.
    destruct (Z.ltb_spec j 8); [done|]. by rewrite bool_decide_eq_false_2 by lia. }
  apply Z.mod_pos_bound. lia.
Qed.

Lemma lsbs_lookup_total (l : list Z) (j : nat) :
  (j < length l)%nat → lsbs l !! j = Some (Z.testbit (l !!! j) 0).
Proof.
  intros Hj. unfold lsbs. rewrite list_lookup_fmap, list_lookup_total_alt.
  by destruct (lookup_lt_is_Some_2 l j Hj) as [x ->].
Qed.

Lemma decode_byte_from_lsb_pair buf :
  Decode.decode_byte_from_lsb buf = (e_success, (Decode.decode_byte_from_lsb buf).2).
Proof. reflexivity. Qed.

(** X1.  Packing overwrites.  A byte packed into a carrier that already
    carries another byte leaves the carrier as if the first byte had never
    been packed, and the same holds for the 32-bit fields; so packing the
    same value twice changes nothing the second time. *)
Theorem encode_to_lsb_overwrites (b1 b2 s1 s2 : Z) (carrier : list Z) :
  (Encode.encode_byte_to_lsb b2 (Encode.encode_byte_to_lsb b1 carrier).2).2
  = (Encode.encode_byte_to_lsb b2 carrier).2
  ∧ (Encode.encode_size_to_lsb s2 (Encode.encode_size_to_lsb s1 carrier).2).2
    = (Encode.encode_size_to_lsb s2 carrier).2.
Proof.
  split.
  - apply list_eq. intros j. rewrite !encode_byte_to_lsb_lookup.
    case_bool_decide; [|done]. destruct (carrier !! j) as [x|]; [|done].
    cbn [fmap option_fmap option_map]. f_equal. apply lsb_store_twice.
  - apply list_eq. intros j. rewrite !encode_size_to_lsb_lookup.
    case_bool_decide; [|done]. destruct (carrier !! j) as [x|]; [|done].
    cbn [fmap option_fmap option_map]. f_equal. apply lsb_store_twice.
Qed.

(** X2.  decode_byte_from_lsb looks at nothing but the least significant bits
    of the first eight bytes of its buffer: two buffers that agree there give
    the same byte, a value from 0 to 255. *)
Theorem decode_byte_from_lsb_reads_lsbs (buf1 buf2 : list Z) :
  (8 ≤ length buf1)%nat → (8 ≤ length buf2)%nat →
  lsbs (take 8 buf1) = lsbs (take 8 buf2) →
  Decode.decode_byte_from_lsb buf1 = Decode.decode_byte_from_lsb buf2
  ∧ 0 ≤ (Decode.decode_byte_from_lsb buf1).2 < 256.
Proof.
  intros Hlen1 Hlen2 Hlsbs. split; [|apply decode_byte_from_lsb_range].
  rewrite (decode_byte_from_lsb_pair buf1), (decode_byte_from_lsb_pair buf2).
  f_equal. apply Z.bits_inj'. intros j Hj.
  rewrite !decode_byte_from_lsb_testbit by done.
  case_bool_decide as H8; [|done]. cbn [andb].
  rewrite <- (lookup_total_take_lt buf1 8), <- (lookup_total_take_lt buf2 8) by lia.
  apply (inj Some).
  rewrite <- !lsbs_lookup_total by (rewrite length_take; lia). by rewrite Hlsbs.
Qed.

(** X3.  encode_data_to_image and decode_data_from_image are inverse on the
    streams.  Data bytes embedded from a source image with room for them come
    back, in order, from the bytes that were written to the stego image. *)
Theorem data_round_trip (data dst c : list Z) (name sname : string) (k : nat) :
  Forall is_byte data → (k + 8 * length data ≤ length c)%nat →
  (length data ≤ length dst)%nat →
  ∃ src w dst' f,
    Encode.encode_data_to_image data (length data) (mkFILE name c k) (mkFILE sname [] 0)
    = (e_success, src, mkFILE sname w (length w))
    ∧ Decode.decode_data_from_image dst (Z.of_nat (length data)) (mkFILE sname w 0)
      = (e_success, dst', f)
    ∧ take (length data) dst' = data.
Proof.
  intros Hdata Hroom Hdst.
  destruct (encode_data_to_image_run data (length data) name c k sname [])
    as (w & Hrun & _ & Hw); [lia|].
  cbn [app length] in Hrun. rewrite take_ge in Hrun, Hw by lia.
  rewrite Hw in Hrun by lia.
  eexists _, _, _, _. split; [exact Hrun|].
  pose proof (decode_data_from_image_embed data dst sname [] (drop k c) [] Hdata) as Hdec.
  cbn [app length] in Hdec. rewrite app_nil_r in Hdec.
  rewrite Hdec by (rewrite length_drop; lia). split; [done|].
  rewrite store_from_app by lia. cbn [take app Nat.add].
  rewrite take_0. cbn [app]. by rewrite take_app_length.
Qed.

End CodecMore.

(** ** The layout of the stego image *)

Section Layout.
Context {T : Target}.

Lemma same_upper_bits_refl : ∀ x, same_upper_bits x x.
Proof. by intros x j Hj. Qed.

Lemma Forall2_same_upper_bits_refl (l : list Z) : Forall2 same_upper_bits l l.
Proof. apply Forall_Forall2_diag, Forall_forall. intros x _. apply same_upper_bits_refl. Qed.

Lemma lsb_store_same_upper_bits x y : same_upper_bits (lsb_store (int_of_char x) y) x.
Proof.
  intros j Hj. rewrite lsb_store_testbit by lia.
  rewrite bool_decide_eq_false_2, bool_decide_eq_true_2 by lia.
  apply int_of_char_low_bits. lia.
Qed.

Lemma encode_byte_to_lsb_same_upper_bits data buf :
  Forall2 same_upper_bits (Encode.encode_byte_to_lsb data buf).2 buf.
Proof.
  apply Forall2_same_length_lookup_2; [apply encode_byte_to_lsb_length|].
  intros i x y Hx Hy. rewrite encode_byte_to_lsb_lookup, Hy in Hx.
  case_bool_decide; injection Hx as <-;
    [apply lsb_store_same_upper_bits | apply same_upper_bits_refl].
Qed.

Lemma encode_size_to_lsb_same_upper_bits size buf :
  Forall2 same_upper_bits (Encode.encode_size_to_lsb size buf).2 buf.
Proof.
  apply Forall2_same_length_lookup_2; [apply encode_size_to_lsb_length|].
  intros i x y Hx Hy. rewrite encode_size_to_lsb_lookup, Hy in Hx.
  case_bool_decide; injection Hx as <-;
    [apply lsb_store_same_upper_bits | apply same_upper_bits_refl].
Qed.

Lemma embed_same_upper_bits data px :
  Forall2 same_upper_bits (embed data px) (take (8 * length data) px).
Proof.
  revert px. induction data as [|d data IH]; intros px; [by rewrite take_0|].
  cbn [embed length].
  replace (8 * S (length data))%nat with (8 + 8 * length data)%nat by lia.
  rewrite <- take_take_drop. apply Forall2_app; [|apply IH].
  apply encode_byte_to_lsb_same_upper_bits.
Qed.

Lemma embed_size_same_upper_bits size px :
  Forall2 same_upper_bits (embed_size size px) (take 32 px).
Proof. apply encode_size_to_lsb_same_upper_bits. Qed.

Lemma container_same_upper_bits extn secret px :
  Forall2 same_upper_bits (container extn secret px)
    (take (container_length extn secret) px).
Proof.
  unfold container, container_length. change (String.length MAGIC_STRING) with 2%nat.
  set (l := String.length extn).
  replace (8 * (2 + l + length secret) + 64)%nat
    with (16 + (32 + (8 * l + (32 + 8 * length secret))))%nat by lia.
  rewrite <- !take_take_drop, !drop_drop.
  replace (16 + 32)%nat with 48%nat by lia.
  replace (16 + 32 + 8 * l)%nat with (48 + 8 * l)%nat by lia.
  replace (48 + 8 * l + 32)%nat with (80 + 8 * l)%nat by lia.
  repeat apply Forall2_app.
  - apply (embed_same_upper_bits (bytes_of_string MAGIC_STRING)).
  - apply embed_size_same_upper_bits.
  - unfold l. rewrite <- (length_bytes_of_string extn). apply embed_same_upper_bits.
  - apply embed_size_same_upper_bits.
  - apply embed_same_upper_bits.
Qed.

(* the least significant bits of packed carriers *)
Lemma lsbs_encode_byte_to_lsb data blk :
  length blk = 8%nat → lsbs (Encode.encode_byte_to_lsb data blk).2 = bits_of_byte data.
Proof.
  intros Hlen. apply list_eq. intros i. unfold bits_of_byte, lsbs.
  rewrite !list_lookup_fmap, encode_byte_to_lsb_lookup.
  destruct (decide (i < 8)%nat) as [Hi|Hi].
  - rewrite bool_decide_eq_true_2, lookup_seq_lt by done.
    destruct (lookup_lt_is_Some_2 blk i) as [x ->]; [lia|].
    cbn [fmap option_fmap option_map Nat.add]. f_equal.
    rewrite lsb_store_testbit, bool_decide_eq_true_2 by done.
    rewrite Z.shiftr_spec, Z.add_0_l by lia. apply int_of_char_low_bits. lia.
  - rewrite bool_decide_eq_false_2, lookup_seq_ge by lia.
    by rewrite lookup_ge_None_2 by lia.
Qed.

Lemma lsbs_encode_size_to_lsb size blk :
  length blk = 32%nat → lsbs (Encode.encode_size_to_lsb size blk).2 = bits_of_size size.
Proof.
  intros Hlen. apply list_eq. intros i. unfold bits_of_size, lsbs.
  rewrite !list_lookup_fmap, encode_size_to_lsb_lookup.
  destruct (decide (i < 32)%nat) as [Hi|Hi].
  - rewrite bool_decide_eq_true_2, lookup_seq_lt by done.
    destruct (lookup_lt_is_Some_2 blk i) as [x ->]; [lia|].
    cbn [fmap option_fmap option_map Nat.add]. f_equal.
    rewrite lsb_store_testbit, bool_decide_eq_true_2 by done.
    by rewrite Z.shiftr_spec, Z.add_0_l by lia.
  - rewrite bool_decide_eq_false_2, lookup_seq_ge by lia.
    by rewrite lookup_ge_None_2 by lia.
Qed.

Lemma bits_of_byte_uchar_wrap d : bits_of_byte (uchar_wrap d) = bits_of_byte d.
Proof.
  unfold bits_of_byte. apply list_fmap_ext. intros i j Hj.
  apply lookup_seq in Hj as [-> Hj]. unfold uchar_wrap. change 256 with (2 ^ 8).
  apply Z.mod_pow2_bits_low. lia.
Qed.

Lemma lsbs_embed data px :
  (8 * length data ≤ length px)%nat → lsbs (embed data px) = bits_of_bytes data.
Proof.
  revert px. induction data as [|d data IH]; intros px Hpx; [done|].
  cbn [embed length] in *. unfold lsbs in *. rewrite fmap_app.
  rewrite IH by (rewrite length_drop; lia).
  fold (lsbs (Encode.encode_byte_to_lsb (uchar_wrap d) (take 8 px)).2).
  rewrite lsbs_encode_byte_to_lsb by (rewrite length_take; lia).
  by rewrite bits_of_byte_uchar_wrap.
Qed.

Lemma lsbs_embed_size size px :
  (32 ≤ length px)%nat → lsbs (embed_size size px) = bits_of_size size.
Proof.
  intros Hpx. apply lsbs_encode_size_to_lsb. rewrite length_take. lia.
Qed.

Lemma bits_of_size_int_wrap x : bits_of_size (int_wrap x) = bits_of_size x.
Proof.
  unfold bits_of_size. apply list_fmap_ext. intros i j Hj.
  apply lookup_seq in Hj as [-> Hj]. unfold int_wrap.
  rewrite <- (Z.mod_pow2_bits_low ((x + 2 ^ 31) `mod` 2 ^ 32 - 2 ^ 31) 32) by lia.
  rewrite <- (Z.mod_pow2_bits_low x 32 (Z.of_nat (0 + i))) by lia. f_equal.
  rewrite Zminus_mod_idemp_l. replace (x + 2 ^ 31 - 2 ^ 31) with x by lia. done.
Qed.

Lemma bits_of_size_uint_wrap x : bits_of_size (uint_wrap x) = bits_of_size x.
Proof.
  unfold bits_of_size. apply list_fmap_ext. intros i j Hj.
  apply lookup_seq in Hj as [-> Hj]. unfold uint_wrap.
  apply Z.mod_pow2_bits_low. lia.
Qed.

Lemma lsbs_app a b : lsbs (a ++ b) = lsbs a ++ lsbs b.
Proof. apply fmap_app. Qed.

Lemma lsbs_container extn secret px :
  (container_length extn secret ≤ length px)%nat →
  lsbs (container extn secret px)
  = bits_of_bytes (bytes_of_string MAGIC_STRING)
    ++ bits_of_size (Z.of_nat (String.length extn))
    ++ bits_of_bytes (bytes_of_string extn)
    ++ bits_of_size (Z.of_nat (length secret))
    ++ bits_of_bytes secret.
Proof.
  unfold container, container_length. change (String.length MAGIC_STRING) with 2%nat.
  intros Hpx. rewrite !lsbs_app.
  rewrite !lsbs_embed, !lsbs_embed_size
    by (rewrite ?length_drop, ?length_bytes_of_string;
        change (String.length MAGIC_STRING) with 2%nat; lia).
  by rewrite !bits_of_size_int_wrap, bits_of_size_uint_wrap.
Qed.

(* what do_encoding leaves in the stego image when it returns e_success *)
Lemma do_encoding_stego e cover secret log e' :
  Encode.do_encoding e cover secret = Some (e_success, log, e') →
  let extn := Encode.extn_secret_file e' in
  ∃ hdr w,
    contents (Encode.fptr_stego_image e') = hdr ++ w ++ drop (54 + length w) cover
    ∧ length hdr = 54%nat
    ∧ length w = container_length extn secret
    ∧ ((54 + container_length extn secret ≤ length cover)%nat
       → hdr = take 54 cover ∧ w = container extn secret (drop 54 cover)).
Proof.
  intros Hrun.
  destruct (do_encoding_success_inv _ _ _ _ _ Hrun)
    as (Hsize & Hcap & (extn & Hextn & Hfit) & Hint).
  destruct (do_encoding_run e cover secret extn Hsize Hcap Hextn Hfit Hint)
    as (e1 & hdr & w & He1 & Hstego & Hext & Hhdr & _ & Hw & Hfull).
  assert (e1 = e') as -> by congruence.
  cbv zeta. rewrite Hext, Hstego. cbn [contents]. by exists hdr, w.
Qed.

(** X4.  When do_encoding returns e_success the stego image is as long as
    the source image, or, should the source image end before the container
    does, as long as the header and the container together: 54 bytes and 8
    bytes for each byte of the signature, the extension and the payload, and
    64 bytes for the two length fields. *)
Theorem stego_length (e e' : Encode.EncodeInfo) (cover secret : list Z)
    (log : list string) :
  Encode.do_encoding e cover secret = Some (e_success, log, e') →
  length (contents (Encode.fptr_stego_image e'))
  = (length cover `max` (54 + container_length (Encode.extn_secret_file e') secret))%nat.
Proof.
  intros Hrun.
  destruct (do_encoding_stego _ _ _ _ _ Hrun) as (hdr & w & -> & Hhdr & Hw & _).
  rewrite !length_app, length_drop. lia.
Qed.

(** X5.  When do_encoding returns e_success on a source image that holds the
    header and the pixel bytes the container takes, every byte of the stego
    image agrees with the byte of the source image at the same place in the
    bits 1 to 7: encoding changes least significant bits and nothing else,
    and the two images have the same length. *)
Theorem stego_differs_in_lsb_only (e e' : Encode.EncodeInfo) (cover secret : list Z)
    (log : list string) :
  Encode.do_encoding e cover secret = Some (e_success, log, e') →
  (54 + container_length (Encode.extn_secret_file e') secret ≤ length cover)%nat →
  Forall2 same_upper_bits (contents (Encode.fptr_stego_image e')) cover.
Proof.
  intros Hrun Hroom.
  destruct (do_encoding_stego _ _ _ _ _ Hrun) as (hdr & w & -> & Hhdr & Hw & Hfull).
  destruct (Hfull Hroom) as [-> ->]. rewrite Hw.
  set (L := container_length _ _) in *.
  rewrite <- (take_drop 54 cover) at 4.
  rewrite <- (take_drop L (drop 54 cover)) at 2. rewrite drop_drop.
  repeat apply Forall2_app; try apply Forall2_same_upper_bits_refl.
  apply container_same_upper_bits.
Qed.

(** X6.  The wire format.  When do_encoding returns e_success on a source
    image that holds the header and the pixel bytes the container takes, the
    least significant bits of the pixel bytes of the stego image spell, bit 0
    of each value first: the signature, the length of the extension on 32
    bits, the extension, the length of the payload on 32 bits, the payload. *)
Theorem stego_wire_format (e e' : Encode.EncodeInfo) (cover secret : list Z)
    (log : list string) :
  Encode.do_encoding e cover secret = Some (e_success, log, e') →
  (54 + container_length (Encode.extn_secret_file e') secret ≤ length cover)%nat →
  lsbs (take (container_length (Encode.extn_secret_file e') secret)
          (drop 54 (contents (Encode.fptr_stego_image e'))))
  = bits_of_bytes (bytes_of_string MAGIC_STRING)
    ++ bits_of_size (Z.of_nat (String.length (Encode.extn_secret_file e')))
    ++ bits_of_bytes (bytes_of_string (Encode.extn_secret_file e'))
    ++ bits_of_size (Z.of_nat (length secret))
    ++ bits_of_bytes secret.
Proof.
  intros Hrun Hroom.
  destruct (do_encoding_stego _ _ _ _ _ Hrun) as (hdr & w & -> & Hhdr & Hw & Hfull).
  destruct (Hfull Hroom) as [_ Hcont].
  rewrite drop_app_length' by done. rewrite <- Hw, take_app_length.
  rewrite Hcont. apply lsbs_container. rewrite length_drop. lia.
Qed.

(** X7.  What the capacity check promises.  When check_capacity passes for a
    secret file whose size plus 14 stays below 2^32, the container of an
    extension of at most four characters fits into the pixel bytes that the
    header of the source image announces. *)
Theorem check_capacity_room (e : Encode.EncodeInfo) (name sn extn : string)
    (cover secret : list Z) (k ks : nat) :
  Encode.fptr_src_image e = mkFILE name cover k →
  Encode.fptr_secret e = mkFILE sn secret ks →
  Z.of_nat (length secret) + 14 < 2 ^ 32 →
  (String.length extn ≤ 4)%nat →
  (Encode.check_capacity e).1 = e_success →
  Z.of_nat (container_length extn secret) ≤ image_capacity cover.
Proof.
  intros Hsrc Hsec Hsize Hextn Hok.
  destruct (check_capacity_run e name cover k sn secret ks Hsrc Hsec) as (k' & Hrun).
  rewrite Hrun in Hok. cbn [fst] in Hok.
  case_bool_decide as Hcap; [done|].
  unfold uint_wrap in Hcap.
  rewrite (Z.mod_small (Z.of_nat (length secret))) in Hcap by lia.
  rewrite Z.mod_small in Hcap by lia.
  unfold container_length. change (String.length MAGIC_STRING) with 2%nat.
  pose proof (Z.mul_div_le (image_capacity cover) 8). lia.
Qed.

(** X8.  copy_remaining_img_data appends to the stego image exactly the bytes
    of the source image from its offset on, however many chunks of 512 bytes
    that takes, and leaves the source image at its end. *)
Theorem copy_remaining_img_data_copies_rest (name sname : string) (c sc : list Z)
    (k : nat) :
  (k ≤ length c)%nat →
  Encode.copy_remaining_img_data (mkFILE name c k) (mkFILE sname sc (length sc))
  = (e_success, mkFILE name c (length c),
     mkFILE sname (sc ++ drop k c) (length (sc ++ drop k c))).
Proof.
  intros Hk. unfold Encode.copy_remaining_img_data. cbn [contents offset].
  apply copy_remaining_chunks_run; lia.
Qed.

(** X9.  encode_data_to_image does not notice a source image that ends
    early.  Whatever is left of the source image behind its offset, it
    returns e_success and writes eight bytes to the stego image for every
    data byte; when the source image has the carrier bytes, what it writes
    is these bytes with the data packed into them. *)
Theorem encode_data_to_image_ignores_short_reads (data : list Z) (size : nat)
    (name sname : string) (c sc : list Z) (k : nat) :
  (k ≤ length c)%nat →
  ∃ src w,
    Encode.encode_data_to_image data size (mkFILE name c k) (mkFILE sname sc (length sc))
    = (e_success, src, mkFILE sname (sc ++ w) (length (sc ++ w)))
    ∧ length w = (8 * (size `min` length data))%nat
    ∧ ((k + 8 * (size `min` length data) ≤ length c)%nat
       → w = embed (take size data) (drop k c)).
Proof.
  intros Hk.
  destruct (encode_data_to_image_run data size name c k sname sc Hk)
    as (w & Hrun & Hw & Hfull).
  rewrite length_take in Hw, Hfull. eauto.
Qed.

(** X10.  The chunks of encode_secret_file_data do not show.  On a source
    image with room for the payload, encode_secret_file_data, which rewinds
    the secret file and embeds it in chunks of 512 bytes, writes what one call
    of encode_data_to_image on the whole payload writes. *)
Theorem encode_secret_file_data_one_call (e : Encode.EncodeInfo)
    (sn name sname : string) (s c sc : list Z) (ks k : nat) :
  Encode.fptr_secret e = mkFILE sn s ks →
  Encode.fptr_src_image e = mkFILE name c k →
  Encode.fptr_stego_image e = mkFILE sname sc (length sc) →
  (k + 8 * length s ≤ length c)%nat →
  ∃ src stego,
    Encode.encode_data_to_image s (length s) (mkFILE name c k)
      (mkFILE sname sc (length sc)) = (e_success, src, stego)
    ∧ Encode.encode_secret_file_data e
      = (e_success, Encode.set_files e src (mkFILE sn s (length s)) stego).
Proof.
  intros Hsec Hsrc Hstego Hroom. unfold Encode.encode_secret_file_data.
  rewrite Hsec, Hsrc, Hstego. unfold rewind, fseek_set. cbn [contents path offset].
  destruct (encode_secret_chunks_run (S (length s)) sn s 0 name c k sname sc)
    as (w & -> & _ & Hw); [lia..|].
  destruct (encode_data_to_image_run s (length s) name c k sname sc)
    as (w' & -> & _ & Hw'); [lia|].
  rewrite take_ge in Hw' |- * by lia. rewrite Nat.sub_0_r in Hw |- *.
  rewrite drop_0 in Hw. rewrite Hw, Hw' by lia. eauto.
Qed.

End Layout.

(** ** Names on the command line *)

Lemma prefix_app (n post : string) : String.prefix n (n +:+ post) = true.
Proof.
  induction n as [|a n IH]; [by destruct post|].
  change (String a n +:+ post)%string with (String a (n +:+ post)).
  cbn [String.prefix]. by destruct (Ascii.ascii_dec a a).
Qed.

Lemma prefix_inv (n s : string) :
  String.prefix n s = true → ∃ post, s = (n +:+ post)%string.
Proof.
  revert n. induction s as [|b s IH]; intros n Hp.
  - destruct n; [by exists ""%string|done].
  - destruct n as [|a n]; [by exists (String b s)|].
    cbn [String.prefix] in Hp. destruct (Ascii.ascii_dec a b) as [->|]; [|done].
    destruct (IH n Hp) as [post ->]. by exists post.
Qed.

Lemma strstr_Some (s n r : string) :
  Encode.strstr s n = Some r → ∃ pre post, s = (pre +:+ r)%string ∧ r = (n +:+ post)%string.
Proof.
  induction s as [|b s IH]; cbn [Encode.strstr].
  - destruct (String.prefix n "") eqn:Hp; [|done].
    intros [= <-]. destruct (prefix_inv _ _ Hp) as [post Hpost].
    by exists ""%string, post.
  - destruct (String.prefix n (String b s)) eqn:Hp.
    + intros [= <-]. destruct (prefix_inv _ _ Hp) as [post Hpost].
      by exists ""%string, post.
    + intros Hr. destruct (IH Hr) as (pre & post & -> & ->).
      by exists (String b pre), post.
Qed.

Lemma strstr_app (pre n post : string) : Encode.strstr (pre +:+ n +:+ post) n ≠ None.
Proof.
  induction pre as [|b pre IH].
  - change ("" +:+ n +:+ post)%string with (n +:+ post)%string.
    destruct (n +:+ post)%string eqn:Hs; cbn [Encode.strstr];
      rewrite <- Hs, prefix_app; done.
  - change (String b pre +:+ n +:+ post)%string with (String b (pre +:+ n +:+ post)).
    cbn [Encode.strstr]. by destruct (String.prefix _ _).
Qed.

(* strstr finds the needle exactly in the strings that contain it *)
Lemma strstr_contains (s n : string) : Encode.strstr s n ≠ None ↔ contains n s.
Proof.
  split.
  - destruct (Encode.strstr s n) as [r|] eqn:Hr; [intros _|done].
    destruct (strstr_Some _ _ _ Hr) as (pre & post & -> & ->). by exists pre, post.
  - intros (pre & post & ->). apply strstr_app.
Qed.

Lemma bool_decide_strstr (s n : string) :
  bool_decide (Encode.strstr s n = None) = false ↔ contains n s.
Proof.
  rewrite <- strstr_contains. split.
  - intros H. by apply bool_decide_eq_false_1 in H.
  - intros H. by apply bool_decide_eq_false_2.
Qed.

Ltac args_contra :=
  let Ha := fresh in let Hb := fresh in let Hc := fresh in let Hd := fresh in
  intros (Ha & Hb & Hc & Hd);
  first [ lia | congruence | destruct Hc as [?|[?|[?|?]]]; congruence
        | specialize (Hd ltac:(lia)); congruence ].

(* the outcome of read_and_validate_encode_args *)
Lemma read_and_validate_encode_args_cases (argv : list string) (e : Encode.EncodeInfo) :
  let valid :=
    (4 ≤ length argv)%nat ∧ contains ".bmp" (argv !!! 2%nat)
    ∧ secret_kind (argv !!! 3%nat)
    ∧ ((5 ≤ length argv)%nat → contains ".bmp" (argv !!! 4%nat)) in
  (valid ∧ Encode.read_and_validate_encode_args argv e
           = (e_success,
              Encode.set_stego_image_fname
                (Encode.set_secret_fname
                   (Encode.set_src_image_fname e (argv !!! 2%nat)) (argv !!! 3%nat))
                (if bool_decide (5 ≤ length argv)%nat then argv !!! 4%nat else "stego.bmp")))
  ∨ (¬ valid ∧ (Encode.read_and_validate_encode_args argv e).1 = e_failure).
Proof.
  intros valid. unfold valid, Encode.read_and_validate_encode_args, secret_kind.
  rewrite <- !bool_decide_strstr.
  destruct (decide (length argv < 4)%nat) as [Hargc|Hargc];
    [rewrite (bool_decide_eq_true_2 _ Hargc) | rewrite (bool_decide_eq_false_2 _ Hargc)];
    [right; split; [lia|done]|].
  destruct (bool_decide (Encode.strstr (argv !!! 2%nat) ".bmp" = None)) eqn:H2;
    [right; split; [args_contra|done]|].
  destruct (bool_decide (Encode.strstr (argv !!! 3%nat) ".txt" = None)) eqn:Ht,
    (bool_decide (Encode.strstr (argv !!! 3%nat) ".pdf" = None)) eqn:Hp,
    (bool_decide (Encode.strstr (argv !!! 3%nat) ".mp3" = None)) eqn:H3,
    (bool_decide (Encode.strstr (argv !!! 3%nat) ".mp4" = None)) eqn:H4;
    cbn [andb]; try (right; split; [args_contra|done]).
  all: destruct (decide (5 ≤ length argv)%nat) as [H5|H5];
    [rewrite !(bool_decide_eq_true_2 _ H5) | rewrite !(bool_decide_eq_false_2 _ H5)].
  all: cbn [Encode.stego_image_fname Encode.set_stego_image_fname].
  all: try destruct (bool_decide (Encode.strstr (argv !!! 4%nat) ".bmp" = None)) eqn:Hs.
  all: try (right; split; [args_contra|done]).
  all: left; (split; [|done]).
  all: repeat split; auto; lia.
Qed.

Lemma read_and_validate_decode_args_cases (argv : list string) (d : Decode.DecodeInfo) :
  let valid := (3 ≤ length argv)%nat ∧ contains ".bmp" (argv !!! 2%nat) in
  (valid ∧ Decode.read_and_validate_decode_args argv d
           = (e_success,
              Decode.set_output_fname (Decode.set_stego_image_fname d (argv !!! 2%nat))
                (if bool_decide (4 ≤ length argv)%nat then Some (argv !!! 3%nat) else None)))
  ∨ (¬ valid ∧ Decode.read_and_validate_decode_args argv d = (e_failure, d)).
Proof.
  intros valid. unfold valid, Decode.read_and_validate_decode_args.
  rewrite <- !bool_decide_strstr.
  destruct (decide (length argv < 3)%nat) as [Hargc|Hargc];
    [rewrite (bool_decide_eq_true_2 _ Hargc) | rewrite (bool_decide_eq_false_2 _ Hargc)];
    [right; split; [lia|done]|].
  destruct (bool_decide (Encode.strstr (argv !!! 2%nat) ".bmp" = None)) eqn:H2;
    [right; split; [intros [_ ?]; congruence|done]|].
  left. split; [split; [lia|done]|]. cbv zeta.
  destruct (decide (4 ≤ length argv)%nat) as [H4|H4];
    [by rewrite !(bool_decide_eq_true_2 _ H4) | by rewrite !(bool_decide_eq_false_2 _ H4)].
Qed.

(** ** The operation flag *)

Lemma tolower_hyphen a : Main.tolower a = Ascii.ascii_of_nat 45 → a = Ascii.ascii_of_nat 45.
Proof.
  destruct a as [[] [] [] [] [] [] [] []]; vm_compute; intros H;
    first [reflexivity | discriminate H].
Qed.

Lemma tolower_letter (n : nat) a :
  (97 ≤ n ≤ 122)%nat →
  Main.tolower a = Ascii.ascii_of_nat n →
  a = Ascii.ascii_of_nat n ∨ a = Ascii.ascii_of_nat (n - 32).
Proof.
  intros Hn. unfold Main.tolower.
  pose proof (Ascii.nat_ascii_bounded a) as Hb.
  case_bool_decide as Hup.
  - intros Ha. right. apply (f_equal Ascii.nat_of_ascii) in Ha.
    rewrite !Ascii.nat_ascii_embedding in Ha by lia.
    rewrite <- (Ascii.ascii_nat_embedding a). f_equal. lia.
  - by left.
Qed.

Lemma strcasecmp_eq_flag (c : nat) (flag : string) :
  (97 ≤ c ≤ 122)%nat →
  Main.strcasecmp_eq flag (String (Ascii.ascii_of_nat 45) (String (Ascii.ascii_of_nat c) ""))
  = true
  ↔ flag = String (Ascii.ascii_of_nat 45) (String (Ascii.ascii_of_nat c) "")
    ∨ flag = String (Ascii.ascii_of_nat 45) (String (Ascii.ascii_of_nat (c - 32)) "").
Proof.
  intros Hc. unfold Main.strcasecmp_eq. rewrite bool_decide_eq_true.
  assert (Hlow : Main.tolower (Ascii.ascii_of_nat c) = Ascii.ascii_of_nat c).
  { unfold Main.tolower. rewrite Ascii.nat_ascii_embedding by lia.
    by rewrite bool_decide_eq_false_2 by lia. }
  assert (Hup : Main.tolower (Ascii.ascii_of_nat (c - 32)) = Ascii.ascii_of_nat c).
  { unfold Main.tolower. rewrite Ascii.nat_ascii_embedding by lia.
    rewrite bool_decide_eq_true_2 by lia. f_equal. lia. }
  split.
  - destruct flag as [|a [|b [|? ?]]]; cbn; try done.
    rewrite Hlow. intros [= Ha Hb].
    apply tolower_hyphen in Ha as ->.
    by apply (tolower_letter c) in Hb as [->| ->]; [left|right|].
  - intros [->| ->]; cbn; by rewrite ?Hlow, ?Hup.
Qed.

Lemma check_operation_type_cases (argv : list string) :
  Main.check_operation_type argv
  = match argv with
    | _ :: flag :: _ =>
        if bool_decide (flag = "-e" ∨ flag = "-E") then Main.e_encode
        else if bool_decide (flag = "-d" ∨ flag = "-D") then Main.e_decode
        else Main.e_unsupported
    | _ => Main.e_unsupported
    end.
Proof.
  unfold Main.check_operation_type.
  destruct argv as [|prog [|flag rest]]; [done..|].
  rewrite bool_decide_eq_false_2 by (cbn; lia).
  change ((prog :: flag :: rest) !!! 1%nat) with flag.
  pose proof (strcasecmp_eq_flag 101 flag ltac:(lia)) as He.
  pose proof (strcasecmp_eq_flag 100 flag ltac:(lia)) as Hd.
  change (String (Ascii.ascii_of_nat 45) (String (Ascii.ascii_of_nat 101) "")) with "-e" in He.
  change (String (Ascii.ascii_of_nat 45) (String (Ascii.ascii_of_nat (101 - 32)) ""))
    with "-E" in He.
  change (String (Ascii.ascii_of_nat 45) (String (Ascii.ascii_of_nat 100) "")) with "-d" in Hd.
  change (String (Ascii.ascii_of_nat 45) (String (Ascii.ascii_of_nat (100 - 32)) ""))
    with "-D" in Hd.
  destruct (Main.strcasecmp_eq flag "-e").
  { by rewrite bool_decide_eq_true_2 by (by apply He). }
  rewrite bool_decide_eq_false_2 by (intros H; by apply He in H).
  destruct (Main.strcasecmp_eq flag "-d").
  { by rewrite bool_decide_eq_true_2 by (by apply Hd). }
  by rewrite bool_decide_eq_false_2 by (intros H; by apply Hd in H).
Qed.

(** ** The outcome of do_encoding *)

Section EncodeOutcome.
Context {T : Target}.

Lemma uint_wrap_range x : 0 ≤ uint_wrap x < 2 ^ 32.
Proof. unfold uint_wrap. apply Z.mod_pos_bound. lia. Qed.

Lemma int_wrap_nonneg x : 0 ≤ x < 2 ^ 32 → 0 ≤ int_wrap x ↔ x < 2 ^ 31.
Proof.
  intros Hx. unfold int_wrap.
  destruct (decide (x < 2 ^ 31)) as [Hlt|Hge].
  - rewrite Z.mod_small by lia. lia.
  - replace (x + 2 ^ 31) with (x - 2 ^ 31 + 1 * 2 ^ 32) by lia.
    rewrite Z.mod_add by lia. rewrite Z.mod_small by lia. lia.
Qed.

(* do_encoding has no defined result only when, past the two guards at its
   entrance, it finds no period in the name of the secret file or a suffix
   too long for extn_secret_file *)
Lemma do_encoding_None e cover secret :
  Encode.do_encoding e cover secret = None
  ↔ 0 < uint_wrap (Z.of_nat (length secret))
    ∧ ¬ image_capacity cover / 8 < uint_wrap (uint_wrap (Z.of_nat (length secret)) + 14)
    ∧ ¬ extension_fits (Encode.secret_fname e).
Proof.
  unfold extension_fits, MAX_FILE_SUFFIX. split.
  - intros Hrun.
    destruct (decide (0 < uint_wrap (Z.of_nat (length secret)))) as [Hsize|Hsize]; last first.
    { destruct (do_encoding_empty e cover secret) as (e1 & He1 & _); [lia|]. congruence. }
    destruct (decide (image_capacity cover / 8
                      < uint_wrap (uint_wrap (Z.of_nat (length secret)) + 14))) as [Hcap|Hcap].
    { destruct (do_encoding_small_image e cover secret) as (e1 & He1 & _); [done..|].
      congruence. }
    split; [done|]. split; [done|]. intros (extn & Hextn & Hfit).
    destruct (decide (0 ≤ int_wrap (uint_wrap (Z.of_nat (length secret))))) as [Hint|Hint].
    + destruct (do_encoding_run e cover secret extn) as (e1 & ? & ? & He1 & _);
        [done|done|done|lia|done|]. congruence.
    + destruct (do_encoding_negative_size e cover secret extn) as (e1 & He1);
        [done|done|done|lia|lia|]. congruence.
  - intros (Hsize & Hcap & Hextn).
    destruct (Encode.strstr (Encode.secret_fname e) ".") as [extn|] eqn:Hx.
    + apply (do_encoding_overrun e cover secret extn); [done..|].
      destruct (decide (5 ≤ String.length extn)%nat); [done|].
      destruct Hextn. exists extn. split; [done|lia].
    + by apply do_encoding_no_period.
Qed.

Lemma do_encoding_success e cover secret :
  (∃ log e', Encode.do_encoding e cover secret = Some (e_success, log, e'))
  ↔ 0 < uint_wrap (Z.of_nat (length secret)) < 2 ^ 31
    ∧ uint_wrap (uint_wrap (Z.of_nat (length secret)) + 14) ≤ image_capacity cover / 8
    ∧ extension_fits (Encode.secret_fname e).
Proof.
  pose proof (uint_wrap_range (Z.of_nat (length secret))) as Hr.
  unfold extension_fits, MAX_FILE_SUFFIX. split.
  - intros (log & e' & Hrun).
    destruct (do_encoding_success_inv _ _ _ _ _ Hrun)
      as (Hsize & Hcap & (extn & Hextn & Hfit) & Hint).
    apply int_wrap_nonneg in Hint; [|done].
    split; [lia|]. split; [lia|]. exists extn. split; [done|lia].
  - intros ([Hsize Hint] & Hcap & (extn & Hextn & Hfit)).
    destruct (do_encoding_run e cover secret extn) as (e1 & ? & ? & He1 & _);
      [done|lia|done|lia|by apply int_wrap_nonneg|]. eauto.
Qed.

(* the suffix that strstr finds starts at the first period *)
Lemma strstr_period_inv s extn :
  Encode.strstr s "." = Some extn →
  ∃ pre rest, s = (pre +:+ extn)%string ∧ no_period pre ∧ extn = String period rest.
Proof.
  unfold no_period. induction s as [|c s IH]; [done|].
  rewrite strstr_cons, prefix_period. case_bool_decide as Hc.
  - intros [= <-]. subst c. exists ""%string, s. split; [done|]. split; [|done].
    apply not_elem_of_nil.
  - intros Hs. destruct (IH Hs) as (pre & rest & -> & Hpre & ->).
    exists (String c pre), rest. split; [done|]. split; [|done].
    cbn. apply not_elem_of_cons. split; [congruence|done].
Qed.

(* where a stretch without a period ends at a period, another way of cutting
   the string at a period cuts behind it *)
Lemma append_period_split (pre a x y : string) :
  no_period pre →
  (pre +:+ String period x = a +:+ String period y)%string →
  ∃ a', a = (pre +:+ a')%string ∧ String period x = (a' +:+ String period y)%string.
Proof.
  unfold no_period. revert a. induction pre as [|c pre IH]; intros a Hpre Heq.
  - exists a. done.
  - cbn in Hpre. apply not_elem_of_cons in Hpre as [Hc Hpre].
    destruct a as [|c' a].
    + change (String c pre +:+ String period x)%string
        with (String c (pre +:+ String period x)) in Heq.
      change ("" +:+ String period y)%string with (String period y) in Heq.
      injection Heq as Heq _. congruence.
    + change (String c pre +:+ String period x)%string
        with (String c (pre +:+ String period x)) in Heq.
      change (String c' a +:+ String period y)%string
        with (String c' (a +:+ String period y)) in Heq.
      injection Heq as <- Heq. destruct (IH a Hpre Heq) as (a' & -> & Hx).
      by exists a'.
Qed.

(* a suffix of at most four characters that holds a needle of four *)
Lemma short_suffix_is_needle (a needle b extn : string) :
  String.length needle = 4%nat → (String.length extn < 5)%nat →
  extn = (a +:+ needle +:+ b)%string → extn = needle.
Proof.
  intros Hn Hl ->. rewrite !length_append, Hn in Hl.
  destruct a as [|? ?]; [|cbn in Hl; lia].
  destruct b as [|? ?]; [|cbn in Hl; lia].
  change ("" +:+ needle +:+ "")%string with (needle +:+ "")%string.
  apply append_nil_r.
Qed.

(* of the names that read_and_validate_encode_args lets through, those whose
   suffix fits extn_secret_file have one of the four extensions at their
   first period and nothing behind it *)
Lemma secret_kind_fits name :
  secret_kind name → extension_fits name ↔ single_extension name.
Proof.
  intros Hkind. unfold extension_fits, single_extension, MAX_FILE_SUFFIX. split.
  - intros (extn & Hextn & Hfit).
    destruct (strstr_period_inv _ _ Hextn) as (pre & rest & Hname & Hpre & Hrest).
    exists pre, extn. split; [done|]. split; [done|].
    assert (Hin : ∀ needle r, needle = String period r → String.length needle = 4%nat →
                    contains needle name → extn = needle).
    { intros needle r -> Hlen (a & b & Hab). rewrite Hname, Hrest in Hab.
      change (String period r +:+ b)%string with (String period (r +:+ b)) in Hab.
      destruct (append_period_split pre a rest (r +:+ b) Hpre Hab) as (a' & _ & Hx).
      apply (short_suffix_is_needle a' (String period r) b); [done|lia|].
      by rewrite Hrest, Hx. }
    destruct Hkind as [H|[H|[H|H]]].
    + left. by apply (Hin ".txt" "txt")%string.
    + right; left. by apply (Hin ".pdf" "pdf")%string.
    + right; right; left. by apply (Hin ".mp3" "mp3")%string.
    + right; right; right. by apply (Hin ".mp4" "mp4")%string.
  - intros (pre & extn & -> & Hpre & Hextn). exists extn.
    destruct Hextn as [->|[->|[->| ->]]];
      (split; [by apply (strstr_period_app pre) | cbn; lia]).
Qed.

End EncodeOutcome.

Section CommandLine.
Context {T : Target}.

(** X11.  read_and_validate_encode_args accepts an argument vector exactly when
    it has at least four entries, the name of the source image contains .bmp
    somewhere, the name of the secret file contains one of .txt, .pdf, .mp3
    and .mp4 somewhere, and the name of the stego image, when a fifth entry
    gives one, contains .bmp somewhere.  It then stores the three names, the
    stego image being stego.bmp by default; the other fields are untouched. *)
Theorem read_and_validate_encode_args_accepts (argv : list string)
    (e e' : Encode.EncodeInfo) :
  Encode.read_and_validate_encode_args argv e = (e_success, e')
  ↔ (4 ≤ length argv)%nat
    ∧ contains ".bmp" (argv !!! 2%nat)
    ∧ secret_kind (argv !!! 3%nat)
    ∧ ((5 ≤ length argv)%nat → contains ".bmp" (argv !!! 4%nat))
    ∧ e' = Encode.set_stego_image_fname
             (Encode.set_secret_fname
                (Encode.set_src_image_fname e (argv !!! 2%nat)) (argv !!! 3%nat))
             (if bool_decide (5 ≤ length argv)%nat then argv !!! 4%nat else "stego.bmp").
Proof.
  destruct (read_and_validate_encode_args_cases argv e) as [[Hv Hrun]|[Hv Hrun]].
  - rewrite Hrun. split.
    + intros [= <-]. destruct Hv as (? & ? & ? & ?). done.
    + by intros (_ & _ & _ & _ & ->).
  - split.
    + intros Hok. rewrite Hok in Hrun. done.
    + intros (? & ? & ? & ? & _). by destruct Hv.
Qed.

(** X12.  read_and_validate_decode_args accepts an argument vector exactly when
    it has at least three entries and the name of the stego image contains
    .bmp somewhere.  It then stores that name and the output name, which is
    the fourth entry when there is one and NULL otherwise. *)
Theorem read_and_validate_decode_args_accepts (argv : list string)
    (d d' : Decode.DecodeInfo) :
  Decode.read_and_validate_decode_args argv d = (e_success, d')
  ↔ (3 ≤ length argv)%nat
    ∧ contains ".bmp" (argv !!! 2%nat)
    ∧ d' = Decode.set_output_fname (Decode.set_stego_image_fname d (argv !!! 2%nat))
             (if bool_decide (4 ≤ length argv)%nat then Some (argv !!! 3%nat) else None).
Proof.
  destruct (read_and_validate_decode_args_cases argv d) as [[Hv Hrun]|[Hv Hrun]].
  - rewrite Hrun. split.
    + intros [= <-]. by destruct Hv.
    + by intros (_ & _ & ->).
  - rewrite Hrun. split; [done|]. intros (? & ? & _). by destruct Hv.
Qed.

(** X13.  check_operation_type selects encoding exactly for the flags -e and
    -E in second place, and decoding exactly for -d and -D; every other
    argument vector, one without a flag included, is unsupported. *)
Theorem check_operation_type_flags (argv : list string) :
  (Main.check_operation_type argv = Main.e_encode
   ↔ ∃ prog flag rest, argv = prog :: flag :: rest ∧ (flag = "-e" ∨ flag = "-E"))
  ∧ (Main.check_operation_type argv = Main.e_decode
     ↔ ∃ prog flag rest, argv = prog :: flag :: rest ∧ (flag = "-d" ∨ flag = "-D")).
Proof.
  rewrite check_operation_type_cases.
  destruct argv as [|prog [|flag rest]].
  1,2: split; (split; [done|intros (? & ? & ? & [=] & _)]).
  split; (split; [|intros (? & ? & ? & [= <- <- <-] & Hflag)]).
  - case_bool_decide as He; [eauto 6|]. by case_bool_decide.
  - by rewrite bool_decide_eq_true_2.
  - case_bool_decide as He; [done|]. case_bool_decide as Hd; [eauto 6|done].
  - rewrite bool_decide_eq_false_2 by (intros [->| ->]; by destruct Hflag).
    by rewrite bool_decide_eq_true_2.
Qed.

(** X14.  do_encoding returns e_success exactly when the secret file is not
    empty and shorter than 2^31 bytes (its size taken modulo 2^32, as the
    unsigned size field holds it), the capacity check passes, that is the
    size plus 14 does not exceed an eighth of the capacity announced by the
    header, and the name of the secret file has a period, with at most four
    characters from the first one on: the suffix that fits the
    MAX_FILE_SUFFIX characters of extn_secret_file. *)
Theorem do_encoding_succeeds_iff (e : Encode.EncodeInfo) (cover secret : list Z) :
  (∃ log e', Encode.do_encoding e cover secret = Some (e_success, log, e'))
  ↔ 0 < uint_wrap (Z.of_nat (length secret)) < 2 ^ 31
    ∧ uint_wrap (uint_wrap (Z.of_nat (length secret)) + 14) ≤ image_capacity cover / 8
    ∧ ∃ extn, Encode.strstr (Encode.secret_fname e) "." = Some extn
              ∧ Z.of_nat (String.length extn) < MAX_FILE_SUFFIX.
Proof. apply do_encoding_success. Qed.

(** X15.  do_encoding runs into a copy for which C defines no behaviour
    exactly when the secret file is not empty, the capacity check passes,
    and the name of the secret file has no period, so that strcpy copies
    from NULL, or has five characters or more from its first period on, so
    that strcpy overruns extn_secret_file: the header and the signature are
    written by then. *)
Theorem do_encoding_undefined_iff (e : Encode.EncodeInfo) (cover secret : list Z) :
  Encode.do_encoding e cover secret = None
  ↔ 0 < uint_wrap (Z.of_nat (length secret))
    ∧ ¬ image_capacity cover / 8 < uint_wrap (uint_wrap (Z.of_nat (length secret)) + 14)
    ∧ (Encode.strstr (Encode.secret_fname e) "." = None
       ∨ ∃ extn, Encode.strstr (Encode.secret_fname e) "." = Some extn
                 ∧ MAX_FILE_SUFFIX ≤ Z.of_nat (String.length extn)).
Proof.
  rewrite do_encoding_None. unfold extension_fits.
  split; (intros (Hsize & Hcap & Hextn); split; [done|split; [done|]]).
  - destruct (Encode.strstr _ _) as [extn|]; [|by left].
    right. exists extn. split; [done|].
    destruct (decide (MAX_FILE_SUFFIX ≤ Z.of_nat (String.length extn))); [done|].
    destruct Hextn. exists extn. split; [done|lia].
  - intros (extn & Hx & Hfit). destruct Hextn as [Hno|(extn' & Hx' & Hlong)].
    + congruence.
    + assert (extn' = extn) as -> by congruence. lia.
Qed.

(** X16.  Too small an image is turned down before anything is written.  For
    a secret file that is not empty, when the size plus 14 exceeds an eighth
    of the capacity that the header announces, do_encoding fails with the
    message of the capacity check, and the stego image, created by
    open_files, is still empty. *)
Theorem do_encoding_capacity_failure (e : Encode.EncodeInfo) (cover secret : list Z) :
  0 < uint_wrap (Z.of_nat (length secret)) →
  image_capacity cover / 8 < uint_wrap (uint_wrap (Z.of_nat (length secret)) + 14) →
  ∃ e', Encode.do_encoding e cover secret
        = Some (e_failure,
                ["ERROR: Image does not have enough capacity to hold the secret"], e')
      ∧ Encode.fptr_stego_image e' = fopen_wb (Encode.stego_image_fname e).
Proof. apply do_encoding_small_image. Qed.

(** X17.  The names that read_and_validate_encode_args accepts all have a
    period, so that do_encoding never copies from NULL for them, but they do
    not all fit extn_secret_file.  For an accepted name do_encoding runs into
    the overrun exactly when the secret file is not empty, the capacity
    check passes, and the name does not have one of the four extensions at
    its first period with nothing behind it: a.b.txt, s.txt.bak and ./s.txt
    are accepted, and overrun the array. *)
Theorem validated_args_undefined_iff (argv : list string) (e0 e : Encode.EncodeInfo)
    (cover secret : list Z) :
  Encode.read_and_validate_encode_args argv e0 = (e_success, e) →
  Encode.do_encoding e cover secret = None
  ↔ 0 < uint_wrap (Z.of_nat (length secret))
    ∧ ¬ image_capacity cover / 8 < uint_wrap (uint_wrap (Z.of_nat (length secret)) + 14)
    ∧ ¬ single_extension (Encode.secret_fname e).
Proof.
  intros Hargs.
  destruct (read_and_validate_encode_args_cases argv e0) as [[Hv Hrun]|[_ Hrun]];
    [|by rewrite Hargs in Hrun].
  rewrite Hargs in Hrun. injection Hrun as ->.
  rewrite do_encoding_None.
  change (Encode.secret_fname _) with (argv !!! 3%nat).
  assert (Hkind : secret_kind (argv !!! 3%nat)) by (by destruct Hv as (_ & _ & ? & _)).
  by rewrite (secret_kind_fits _ Hkind).
Qed.


End CommandLine.

(** ** The stages of do_decoding *)

Section DecodeStages.
Context {T : Target}.

(* decode_data_from_image on any stream: it succeeds only when every block of
   eight bytes is there *)
Lemma decode_data_loop_any n i buffer dst name c k :
  ∃ st dst' k',
    Decode.decode_data_loop n i buffer dst (mkFILE name c k) = (st, dst', mkFILE name c k')
    ∧ length dst' = length dst
    ∧ (st = e_success → k' = (k + 8 * n)%nat ∧ ((0 < n)%nat → (k' ≤ length c)%nat)).
Proof.
  revert i buffer dst k. induction n as [|n IH]; intros i buffer dst k.
  - exists e_success, dst, k. cbn [Decode.decode_data_loop].
    split; [done|]. split; [done|]. intros _. split; lia.
  - cbn [Decode.decode_data_loop]. unfold fread at 1. cbn [contents offset path].
    set (got := take 8 (drop k c)).
    assert (Hgot : length got = (8 `min` (length c - k))%nat).
    { unfold got. by rewrite length_take, length_drop. }
    case_bool_decide as Hr.
    { eexists _, _, _. split; [reflexivity|]. split; [done|]. done. }
    destruct (Decode.decode_byte_from_lsb _) as [st0 ch].
    destruct (IH (S i) (got ++ drop (length got) buffer) (<[i := ch]> dst)
                (k + length got)%nat) as (st & dst' & k' & -> & Hlen & Hok).
    exists st, dst', k'. split; [done|]. split; [by rewrite Hlen, length_insert|].
    intros Hst. destruct (Hok Hst) as [-> Hle]. split; [lia|]. intros _.
    destruct n as [|n]; lia.
Qed.

Lemma decode_data_from_image_any dst size name c k :
  ∃ st dst' k',
    Decode.decode_data_from_image dst size (mkFILE name c k) = (st, dst', mkFILE name c k')
    ∧ length dst' = length dst
    ∧ (st = e_success →
       k' = (k + 8 * Z.to_nat size)%nat ∧ (0 < size → (k' ≤ length c)%nat)).
Proof.
  unfold Decode.decode_data_from_image.
  destruct (decode_data_loop_any (Z.to_nat size) 0 (fresh "decode_data_from_image.buffer" 8)
              dst name c k) as (st & dst' & k' & -> & Hlen & Hok).
  exists st, dst', k'. split; [done|]. split; [done|].
  intros Hst. destruct (Hok Hst) as [-> Hle]. split; [done|]. intros Hsize.
  apply Hle. lia.
Qed.

(* the payload loop writes one byte a turn, whatever it reads *)
Lemma decode_secret_loop_any n ch f oname oc :
  length ch = 1%nat →
  ∃ f' w,
    Decode.decode_secret_loop n ch f (mkFILE oname oc (length oc))
    = (f', mkFILE oname (oc ++ w) (length (oc ++ w)))
    ∧ length w = n.
Proof.
  revert ch f oc. induction n as [|n IH]; intros ch f oc Hch.
  - exists f, []. cbn [Decode.decode_secret_loop]. by rewrite app_nil_r.
  - cbn [Decode.decode_secret_loop]. destruct f as [name c k].
    destruct (decode_data_from_image_any ch 1 name c k) as (st & ch' & k' & -> & Hlen & _).
    rewrite fwrite_end by lia.
    destruct (IH ch' (mkFILE name c k') (oc ++ take 1 ch')) as (f' & w & -> & Hw); [lia|].
    exists f', (take 1 ch' ++ w). rewrite <- !app_assoc. split; [done|].
    rewrite length_app, length_take. lia.
Qed.

Lemma c_str_nul_at buf (n : nat) : buf !! n = Some 0 → (length (c_str buf) ≤ n)%nat.
Proof.
  revert n. induction buf as [|b buf IH]; intros n Hn; [done|].
  cbn [c_str]. case_bool_decide as Hb; [cbn; lia|].
  destruct n as [|n]; [by injection Hn|]. cbn [length].
  specialize (IH n Hn). lia.
Qed.

Lemma length_string_of_bytes l : String.length (string_of_bytes l) = length l.
Proof.
  unfold string_of_bytes. induction l as [|b l IH]; [done|].
  cbn [fmap list_fmap String.string_of_list_ascii String.length length]. by rewrite <- IH.
Qed.

(* the steps that follow the opening of the output file never fail *)
Lemma decode_tail d name :
  Decode.fptr_secret_out d = Some (fopen_wb name) →
  ∃ d' w,
    Decode.decode_secret_file_size d = (e_success, (Decode.decode_secret_file_size d).2)
    ∧ Decode.decode_secret_file_data (Decode.decode_secret_file_size d).2 = (e_success, d')
    ∧ Decode.fptr_secret_out d' = Some (mkFILE name w (length w))
    ∧ length w = Z.to_nat (Decode.size_secret_file d')
    ∧ Decode.extn_size d' = Decode.extn_size d
    ∧ Decode.extn_secret_file d' = Decode.extn_secret_file d
    ∧ Decode.output_fname d' = Decode.output_fname d.
Proof.
  intros Hout. unfold Decode.decode_secret_file_size.
  destruct (fread _ 32 _) as [[arr r] f].
  destruct (Decode.decode_size_from_lsb arr) as [st size]. cbn [snd].
  unfold Decode.decode_secret_file_data. dec_simpl. rewrite Hout.
  destruct (decode_secret_loop_any (Z.to_nat size) (fresh "decode_secret_file_data.ch" 1)
              f name []) as (f' & w & Hloop & Hw); [apply length_fresh|].
  cbn [app length] in Hloop. unfold fopen_wb. rewrite Hloop.
  eexists _, w. split; [reflexivity|]. split; [reflexivity|]. dec_simpl. done.
Qed.

Lemma decode_magic_string_offset d name c k :
  Decode.fptr_stego_image d = mkFILE name c k →
  (Decode.decode_magic_string d).1 = e_success →
  Decode.fptr_stego_image (Decode.decode_magic_string d).2 = mkFILE name c (k + 16)
  ∧ (k + 16 ≤ length c)%nat.
Proof.
  intros Hf. unfold Decode.decode_magic_string. rewrite Hf.
  destruct (decode_data_from_image_any (fresh "decode_magic_string.buffer" 16)
              (int_wrap (Z.of_nat (String.length MAGIC_STRING))) name c k)
    as (st & buf & k' & -> & _ & Hok).
  case_bool_decide as Hst; [done|]. destruct (negb _); [done|].
  intros _. dec_simpl.
  change (Z.to_nat (int_wrap (Z.of_nat (String.length MAGIC_STRING)))) with 2%nat in Hok.
  change (int_wrap (Z.of_nat (String.length MAGIC_STRING))) with 2 in Hok.
  destruct Hok as [-> Hle]; [by destruct st|]. split; [done|]. apply Hle. lia.
Qed.

(* do_decoding either fails at one of its first three checks, with no output
   file opened, or comes to the naming of the output file with an extension
   of one to four characters read from a stego image of at least 110 bytes;
   from there on nothing makes it fail *)
Lemma do_decoding_stages d stego :
  Decode.fptr_secret_out d = None →
  length (Decode.extn_secret_file d) = 5%nat →
  (∃ log d', Decode.do_decoding d stego = Some (e_failure, log, d')
             ∧ Decode.fptr_secret_out d' = None ∧ log ≠ [])
  ∨ (∃ (n : Z) (extn : string),
       1 ≤ n ≤ 4
       ∧ n = (Decode.decode_size_from_lsb (take 32 (drop 70 stego))).2
       ∧ (102 + 8 * Z.to_nat n ≤ length stego)%nat
       ∧ (String.length extn ≤ Z.to_nat n)%nat
       ∧ signature_present stego
       ∧ uninit "decode_magic_string.buffer" 2%nat = 0
       ∧ let base := Decode.output_base (Decode.output_fname d) in
         if bool_decide (256 ≤ String.length base + String.length extn)%nat
         then Decode.do_decoding d stego = None
         else ∃ d' w,
             Decode.do_decoding d stego = Some (e_success, [], d')
             ∧ Decode.extn_size d' = n
             ∧ string_of_bytes (c_str (Decode.extn_secret_file d')) = extn
             ∧ Decode.fptr_secret_out d' = Some (mkFILE (base +:+ extn) w (length w))
             ∧ length w = Z.to_nat (Decode.size_secret_file d')).
Proof.
  intros Hnone Hlen.
  enough (∃ R, Decode.do_decoding d stego = R
               ∧ ((∃ log d', R = Some (e_failure, log, d')
                             ∧ Decode.fptr_secret_out d' = None ∧ log ≠ [])
                  ∨ (∃ (n : Z) (extn : string),
                       1 ≤ n ≤ 4
                       ∧ n = (Decode.decode_size_from_lsb (take 32 (drop 70 stego))).2
                       ∧ (102 + 8 * Z.to_nat n ≤ length stego)%nat
                       ∧ (String.length extn ≤ Z.to_nat n)%nat
                       ∧ signature_present stego
                       ∧ uninit "decode_magic_string.buffer" 2%nat = 0
                       ∧ let base := Decode.output_base (Decode.output_fname d) in
                         if bool_decide (256 ≤ String.length base + String.length extn)%nat
                         then R = None
                         else ∃ d' w,
                             R = Some (e_success, [], d')
                             ∧ Decode.extn_size d' = n
                             ∧ string_of_bytes (c_str (Decode.extn_secret_file d')) = extn
                             ∧ Decode.fptr_secret_out d'
                               = Some (mkFILE (base +:+ extn) w (length w))
                             ∧ length w = Z.to_nat (Decode.size_secret_file d'))))
    as (R & <- & HR); [exact HR|].
  unfold Decode.do_decoding. dec_simpl. rewrite bool_decide_status_ok.
  match goal with |- context [Decode.decode_magic_string ?x] => set (d0 := x) end.
  assert (Hf0 : Decode.fptr_stego_image d0
                = mkFILE (Decode.stego_image_fname d) stego 54) by done.
  (* the signature *)
  destruct (decode_magic_string_cases d0 _ _ Hf0) as (st1 & k1 & Hm & _ & Hsig).
  pose proof (decode_magic_string_offset d0 _ _ _ Hf0) as Hoff.
  rewrite Hm in Hoff |- *. cbn [fst snd] in Hoff.
  destruct st1; last first.
  { rewrite bool_decide_eq_true_2 by done. eexists. split; [reflexivity|].
    left. eexists _, _. by split. }
  rewrite bool_decide_status_ok.
  destruct Hoff as [Hk1 H70]; [done|]. destruct Hsig as [Hsig Hu]; [done|].
  subst d0. dec_simpl.
  unfold Decode.set_fptr_stego_image in Hk1. cbn [Decode.fptr_stego_image] in Hk1.
  injection Hk1 as ->. clear Hm Hf0.
  (* the length of the extension *)
  unfold Decode.decode_file_extn_size. dec_simpl. unfold fread at 1.
  cbn [contents offset path].
  change (54 + 16)%nat with 70%nat in *.
  set (got := take 32 (drop 70 stego)).
  assert (Hgot : length got = (32 `min` (length stego - 70))%nat).
  { unfold got. rewrite length_take, length_drop. lia. }
  destruct (Decode.decode_size_from_lsb _) as [st2 v] eqn:Hfield.
  destruct (bool_decide (v ≤ 0) || bool_decide (10 < v)) eqn:Hv.
  { rewrite bool_decide_eq_true_2 by done. eexists. split; [reflexivity|].
    left. eexists _, _. by split. }
  rewrite bool_decide_status_ok.
  apply orb_false_iff in Hv as [Hv1 Hv2].
  apply bool_decide_eq_false_1 in Hv1, Hv2.
  (* the extension *)
  unfold Decode.decode_secret_file_extn. dec_simpl.
  destruct (bool_decide (v ≤ 0) || bool_decide (MAX_FILE_SUFFIX ≤ v)) eqn:Hv'.
  { rewrite bool_decide_eq_true_2 by done. eexists. split; [reflexivity|].
    left. eexists _, _. by split. }
  apply orb_false_iff in Hv' as [_ Hv3]. apply bool_decide_eq_false_1 in Hv3.
  unfold MAX_FILE_SUFFIX in Hv3.
  destruct (decode_data_from_image_any (Decode.extn_secret_file d) v
              (Decode.stego_image_fname d) stego (70 + length got))
    as (st3 & buf & k3 & -> & Hbuf & Hok).
  dec_simpl. destruct st3; last first.
  { rewrite !bool_decide_eq_true_2 by done. eexists. split; [reflexivity|].
    left. eexists _, _. by split. }
  rewrite !bool_decide_status_ok. destruct Hok as [-> Hle]; [done|].
  specialize (Hle ltac:(lia)). dec_simpl.
  assert (Hv4 : v = (Decode.decode_size_from_lsb got).2).
  { rewrite drop_ge, app_nil_r in Hfield by (rewrite length_fresh; lia).
    by rewrite Hfield. }
  (* the name, and the steps that cannot fail *)
  set (extn := string_of_bytes (c_str (<[Z.to_nat v := 0]> buf))).
  assert (Hextn : (String.length extn ≤ Z.to_nat v)%nat).
  { unfold extn. rewrite length_string_of_bytes. apply c_str_nul_at.
    apply list_lookup_insert_eq. lia. }
  set (base := Decode.output_base (Decode.output_fname d)).
  destruct (decide (256 ≤ String.length base + String.length extn)%nat) as [Hbig|Hbig].
  { rewrite (bool_decide_eq_true_2 _ Hbig). eexists. split; [reflexivity|].
    right. exists v, extn. fold base. rewrite (bool_decide_eq_true_2 _ Hbig).
    repeat split; done || lia. }
  rewrite (bool_decide_eq_false_2 _ Hbig).
  match goal with |- context [Decode.decode_secret_file_size ?x] => set (d4 := x) end.
  destruct (decode_tail d4 (base +:+ extn)) as (d' & w & Hsz & Hdata & Hout & Hw & Hn & He & _);
    [done|].
  rewrite Hsz, bool_decide_status_ok, Hdata, bool_decide_status_ok.
  eexists. split; [reflexivity|].
  right. exists v, extn. fold base. rewrite (bool_decide_eq_false_2 _ Hbig).
  split; [lia|]. split; [done|]. split; [lia|]. split; [done|]. split; [done|].
  split; [done|]. exists d', w. rewrite Hn, He. done.
Qed.

(** X19.  do_decoding is all or nothing about its output.  When it fails no
    output file has been opened; when it returns e_success the output file
    holds exactly as many bytes as the payload length that was read from the
    image says, none when that length is negative, whatever was left of the
    image to read them from. *)
Theorem do_decoding_all_or_nothing (d d' : Decode.DecodeInfo) (stego : list Z)
    (st : Status) (log : list string) :
  Decode.fptr_secret_out d = None →
  length (Decode.extn_secret_file d) = 5%nat →
  Decode.do_decoding d stego = Some (st, log, d') →
  (st = e_failure ∧ log ≠ [] ∧ Decode.fptr_secret_out d' = None)
  ∨ (st = e_success ∧ log = []
     ∧ ∃ out, Decode.fptr_secret_out d' = Some out
              ∧ length (contents out) = Z.to_nat (Decode.size_secret_file d')).
Proof.
  intros Hnone Hlen Hrun.
  destruct (do_decoding_stages d stego Hnone Hlen)
    as [(log1 & d1 & Hfail & Hout & Hlog)|(n & extn & _ & _ & _ & _ & _ & _ & Hnext)].
  - rewrite Hfail in Hrun. injection Hrun as <- <- <-. by left.
  - cbv zeta in Hnext. case_bool_decide; [congruence|].
    destruct Hnext as (d1 & w & Hok & _ & _ & Hout & Hw).
    rewrite Hok in Hrun. injection Hrun as <- <- <-. right.
    split; [done|]. split; [done|]. by eexists.
Qed.

(** X20.  What do_decoding asks of the image before it opens an output file.
    When it returns e_success the extension length read from the image is
    between 1 and 4, the extension appended to the output name has at most
    that many characters, and the image holds the 54 bytes of the header,
    the 48 pixel bytes of the signature and the extension length, and eight
    pixel bytes for each character of the extension. *)
Theorem do_decoding_success_needs (d d' : Decode.DecodeInfo) (stego : list Z)
    (log : list string) :
  Decode.fptr_secret_out d = None →
  length (Decode.extn_secret_file d) = 5%nat →
  Decode.do_decoding d stego = Some (e_success, log, d') →
  1 ≤ Decode.extn_size d' ≤ 4
  ∧ (String.length (string_of_bytes (c_str (Decode.extn_secret_file d')))
     ≤ Z.to_nat (Decode.extn_size d'))%nat
  ∧ (102 + 8 * Z.to_nat (Decode.extn_size d') ≤ length stego)%nat.
Proof.
  intros Hnone Hlen Hrun.
  destruct (do_decoding_stages d stego Hnone Hlen)
    as [(log1 & d1 & Hfail & _)|(n & extn & Hn & _ & Hsize & Hextn & _ & _ & Hnext)].
  - congruence.
  - cbv zeta in Hnext. case_bool_decide; [congruence|].
    destruct Hnext as (d1 & w & Hok & Hn1 & He1 & _).
    rewrite Hok in Hrun. injection Hrun as <- <-. by rewrite Hn1, He1.
Qed.

(** X21.  A stego image of fewer than 110 bytes is always turned down:
    do_decoding fails and opens no output file. *)
Theorem do_decoding_short_image (d : Decode.DecodeInfo) (stego : list Z) :
  Decode.fptr_secret_out d = None →
  length (Decode.extn_secret_file d) = 5%nat →
  (length stego < 110)%nat →
  ∃ log d', Decode.do_decoding d stego = Some (e_failure, log, d')
            ∧ Decode.fptr_secret_out d' = None.
Proof.
  intros Hnone Hlen Hshort.
  destruct (do_decoding_stages d stego Hnone Hlen)
    as [(log1 & d1 & Hfail & Hout & _)|(n & extn & Hn & _ & Hsize & _)]; [eauto|lia].
Qed.

(** X22.  The buffer of the output name.  With a stem of at most 251
    characters, the default stem decoded among them, do_decoding never
    overruns final_name: it returns a status on every stego image. *)
Theorem do_decoding_name_fits (d : Decode.DecodeInfo) (stego : list Z) :
  Decode.fptr_secret_out d = None →
  length (Decode.extn_secret_file d) = 5%nat →
  (String.length (Decode.output_base (Decode.output_fname d)) ≤ 251)%nat →
  ∃ st log d', Decode.do_decoding d stego = Some (st, log, d').
Proof.
  intros Hnone Hlen Hbase.
  destruct (do_decoding_stages d stego Hnone Hlen)
    as [(log1 & d1 & Hfail & _)|(n & extn & Hn & _ & _ & Hextn & _ & _ & Hnext)]; [eauto|].
  cbv zeta in Hnext. rewrite bool_decide_eq_false_2 in Hnext by lia.
  destruct Hnext as (d1 & w & Hok & _). eauto.
Qed.

(** X23.  main with the flag of decoding.  Without an output name on the
    command line it always exits with status 0 or 1; and whatever the
    command line, it exits with 0 only when the arguments are accepted and
    the stego image has at least 110 bytes and carries the signature. *)
Theorem main_decode_exit_status (argv : list string) (disk : string → list Z) :
  Main.check_operation_type argv = Main.e_decode →
  ((length argv ≤ 3)%nat → Main.main argv disk = Some 0 ∨ Main.main argv disk = Some 1)
  ∧ (Main.main argv disk = Some 0 →
     (3 ≤ length argv)%nat
     ∧ contains ".bmp" (argv !!! 2%nat)
     ∧ signature_present (disk (argv !!! 2%nat))
     ∧ (110 ≤ length (disk (argv !!! 2%nat)))%nat).
Proof.
  intros Hop. unfold Main.main. rewrite Hop.
  destruct (read_and_validate_decode_args_cases argv (Decode.decode_args "" None))
    as [[Hv Hrun]|[Hv Hrun]]; rewrite Hrun.
  - rewrite bool_decide_eq_true_2 by done.
    set (d := Decode.set_output_fname _ _).
    change (Decode.stego_image_fname d) with (argv !!! 2%nat).
    destruct (do_decoding_stages d (disk (argv !!! 2%nat)))
      as [(log1 & d1 & -> & _)|(n & extn & Hn & _ & Hsize & Hextn & Hsig & _ & Hnext)];
      [done..| |].
    + rewrite bool_decide_eq_true_2 by done. split; [by right|done].
    + cbv zeta in Hnext. split.
      * intros Hargc.
        change (Decode.output_fname d)
          with (if bool_decide (4 ≤ length argv)%nat then Some (argv !!! 3%nat) else None)
          in Hnext.
        rewrite (bool_decide_eq_false_2 (4 ≤ length argv)%nat) in Hnext by lia.
        change (String.length (Decode.output_base None)) with 7%nat in Hnext.
        rewrite bool_decide_eq_false_2 in Hnext by lia.
        destruct Hnext as (d1 & w & -> & _). by left.
      * intros _. destruct Hv as [? ?]. repeat split; done || lia.
  - rewrite bool_decide_eq_false_2 by done. split; [by right|done].
Qed.

End DecodeStages.

(** ** The signature check and the buffer of the output name *)

Section DecodeMore.
Context {T : Target}.

(** X24.  final_name can be overrun.  On a stego image that holds a
    container, with a NUL behind the signature in the buffer of
    decode_magic_string, do_decoding copies the stem and the extension into
    the 256 bytes of final_name even when the two together have 256
    characters or more, a stem of 252 characters with an extension of four
    for one: C defines no behaviour for that. *)
Theorem do_decoding_name_overrun (name : string) (out : option string) (extn : string)
    (secret hdr px tail : list Z) :
  uninit "decode_magic_string.buffer" 2%nat = 0 →
  length hdr = 54%nat → (container_length extn secret ≤ length px)%nat →
  nul_free extn → (1 ≤ String.length extn ≤ 4)%nat →
  (256 ≤ String.length (Decode.output_base out) + String.length extn)%nat →
  Decode.do_decoding (Decode.decode_args name out)
    (hdr ++ container extn secret px ++ tail) = None.
Proof.
  intros Hu Hhdr Hpx Hnul Hextn Hname.
  unfold container_length in Hpx. change (String.length MAGIC_STRING) with 2%nat in Hpx.
  unfold Decode.do_decoding, container. dec_simpl. rewrite bool_decide_status_ok.
  set (l := String.length extn) in *.
  set (B1 := embed (bytes_of_string MAGIC_STRING) px).
  set (B2 := embed_size (int_wrap (Z.of_nat l)) (drop 16 px)).
  set (B3 := embed (bytes_of_string extn) (drop 48 px)).
  set (B4 := embed_size (int_wrap (uint_wrap (Z.of_nat (length secret))))
               (drop (48 + 8 * l) px)).
  set (B5 := embed secret (drop (80 + 8 * l) px)).
  set (c := hdr ++ (B1 ++ B2 ++ B3 ++ B4 ++ B5) ++ tail).
  assert (HB1 : length B1 = 16%nat) by (apply length_embed; cbn; lia).
  assert (HB2 : length B2 = 32%nat)
    by (apply length_embed_size; rewrite length_drop; lia).
  (* the signature *)
  unfold Decode.decode_magic_string. dec_simpl.
  change (int_wrap (Z.of_nat (String.length MAGIC_STRING)))
    with (Z.of_nat (length (bytes_of_string MAGIC_STRING))).
  rewrite (decode_data_from_image_at _ _ _ c 54 hdr px ((B2 ++ B3 ++ B4 ++ B5) ++ tail));
    [|by unfold c; rewrite <- !app_assoc|done|apply bytes_of_string_is_byte|cbn; lia].
  rewrite bool_decide_status_ok.
  assert (Hcmp : Decode.strcmp_eq
                   (store_from 0 (bytes_of_string MAGIC_STRING)
                      (fresh "decode_magic_string.buffer" 16)) MAGIC_STRING
                 = true).
  { unfold Decode.strcmp_eq, fresh. cbn. rewrite Hu. reflexivity. }
  rewrite Hcmp. cbn [negb]. rewrite bool_decide_status_ok.
  change (length (bytes_of_string MAGIC_STRING)) with 2%nat.
  (* the length of the extension *)
  unfold Decode.decode_file_extn_size. dec_simpl.
  rewrite (fread_at _ _ _ c _ (hdr ++ B1) B2 ((B3 ++ B4 ++ B5) ++ tail));
    [|by unfold c; rewrite <- !app_assoc|rewrite length_app; lia
     |apply length_fresh|done].
  destruct (Decode.decode_size_from_lsb B2) as [st2 v2] eqn:Hv2.
  assert (v2 = Z.of_nat l) as ->.
  { change v2 with (st2, v2).2. rewrite <- Hv2. unfold B2.
    rewrite decode_size_block; [apply int_wrap_small; lia| |rewrite length_drop; lia].
    rewrite int_wrap_small; lia. }
  rewrite orb_false_iff_2 by (split; apply bool_decide_eq_false_2; lia).
  rewrite bool_decide_status_ok. dec_simpl.
  (* the extension *)
  unfold Decode.decode_secret_file_extn. dec_simpl.
  rewrite orb_false_iff_2
    by (split; apply bool_decide_eq_false_2; unfold MAX_FILE_SUFFIX; lia).
  replace (Z.of_nat l) with (Z.of_nat (length (bytes_of_string extn)))
    by (by rewrite length_bytes_of_string).
  rewrite (decode_data_from_image_at _ _ _ c _ (hdr ++ B1 ++ B2) (drop 48 px)
             ((B4 ++ B5) ++ tail));
    [|by unfold c; rewrite <- !app_assoc|rewrite !length_app; lia
     |apply bytes_of_string_is_byte
     |rewrite length_drop, length_bytes_of_string; lia].
  dec_simpl. rewrite !bool_decide_status_ok. dec_simpl.
  rewrite Nat2Z.id. change (Z.to_nat MAX_FILE_SUFFIX) with 5%nat.
  rewrite !extension_buffer by (rewrite ?length_bytes_of_string; done).
  rewrite string_of_bytes_of_string. fold l.
  by rewrite (bool_decide_eq_true_2 (256 ≤ _)%nat) by lia.
Qed.

Lemma bits_of_byte_inj a b :
  0 ≤ a < 256 → 0 ≤ b < 256 → bits_of_byte a = bits_of_byte b → a = b.
Proof.
  intros Ha Hb Hbits. apply Z.bits_inj'. intros j Hj.
  destruct (decide (j < 8)) as [Hj8|Hj8].
  - apply (f_equal (λ l, l !! Z.to_nat j)) in Hbits. unfold bits_of_byte in Hbits.
    rewrite !list_lookup_fmap, lookup_seq_lt in Hbits by lia.
    cbn [fmap option_fmap option_map Nat.add] in Hbits.
    rewrite Z2Nat.id in Hbits by done. by injection Hbits.
  - by rewrite !byte_high_bits by lia.
Qed.

(* decode_magic_string accepts the signature when a NUL lies behind it *)
Lemma decode_magic_string_accepts d name c :
  Decode.fptr_stego_image d = mkFILE name c 54 →
  signature_present c → uninit "decode_magic_string.buffer" 2%nat = 0 →
  (Decode.decode_magic_string d).1 = e_success.
Proof.
  intros Hf Hsig Hu. unfold signature_present in Hsig.
  change (8 * String.length MAGIC_STRING)%nat with (8 + 8)%nat in Hsig.
  assert (Hlen : length (take (8 + 8) (drop 54 c)) = 16%nat).
  { apply (f_equal length) in Hsig. unfold lsbs in Hsig.
    by rewrite length_fmap in Hsig. }
  rewrite length_take, length_drop in Hlen.
  rewrite <- take_take_drop, drop_drop in Hsig.
  set (got1 := take 8 (drop 54 c)) in *.
  set (got2 := take 8 (drop (54 + 8) c)) in *.
  assert (Hg1 : length got1 = 8%nat) by (unfold got1; rewrite length_take, length_drop; lia).
  assert (Hg2 : length got2 = 8%nat) by (unfold got2; rewrite length_take, length_drop; lia).
  change (bits_of_bytes (bytes_of_string MAGIC_STRING))
    with (bits_of_byte 35 ++ bits_of_byte 42) in Hsig.
  unfold lsbs in Hsig. rewrite fmap_app in Hsig.
  apply app_inj_1 in Hsig as [H1 H2]; [|by rewrite length_fmap, Hg1].
  fold (lsbs got1) in H1. fold (lsbs got2) in H2.
  rewrite <- decode_byte_lsbs in H1, H2 by done.
  apply bits_of_byte_inj in H1, H2; try apply decode_byte_from_lsb_range; try lia.
  unfold Decode.decode_magic_string, Decode.decode_data_from_image. rewrite Hf.
  change (Z.to_nat (int_wrap (Z.of_nat (String.length MAGIC_STRING)))) with 2%nat.
  cbn [Decode.decode_data_loop]. unfold fread at 1. cbn [contents offset path].
  fold got1. rewrite Hg1, bool_decide_eq_false_2 by (intros ?; done).
  rewrite (drop_ge (fresh _ 8)), app_nil_r by (rewrite length_fresh; lia).
  rewrite (decode_byte_from_lsb_pair got1), H1.
  unfold fread at 1. cbn [contents offset path]. fold got2.
  rewrite Hg2, bool_decide_eq_false_2 by (intros ?; done).
  rewrite drop_ge, app_nil_r by lia.
  rewrite (decode_byte_from_lsb_pair got2), H2.
  rewrite bool_decide_status_ok.
  assert (Hcmp : Decode.strcmp_eq
                   (<[1%nat := 42]> (<[0%nat := 35]> (fresh "decode_magic_string.buffer" 16)))
                   MAGIC_STRING = true).
  { unfold Decode.strcmp_eq, fresh. cbn. rewrite Hu. reflexivity. }
  by rewrite Hcmp.
Qed.

(** X25.  The signature check is exact.  On a stego image opened behind its
    header, decode_magic_string returns e_success exactly when the least
    significant bits of the first sixteen pixel bytes spell the signature and
    the byte that its buffer happens to hold behind the two characters read
    is a NUL. *)
Theorem decode_magic_string_accepts_iff (d : Decode.DecodeInfo) (name : string)
    (c : list Z) :
  Decode.fptr_stego_image d = mkFILE name c 54 →
  (Decode.decode_magic_string d).1 = e_success
  ↔ signature_present c ∧ uninit "decode_magic_string.buffer" 2%nat = 0.
Proof.
  intros Hf. split.
  - intros Hok. destruct (decode_magic_string_cases d name c Hf) as (st & k' & Hm & _ & Hsig).
    rewrite Hm in Hok. by apply Hsig.
  - intros [Hsig Hu]. by apply (decode_magic_string_accepts d name c).
Qed.

(** X26.  An extension of five characters or more does not come back.  On a
    stego image that holds a container with such an extension, as an encoder
    writes it for a secret file named a.b.txt, do_decoding fails and opens
    no output file.  (do_encoding itself succeeds for no such name: the
    extension does not fit extn_secret_file.) *)
Theorem long_extension_not_decodable (name : string) (out : option string)
    (extn : string) (secret hdr px tail : list Z) :
  length hdr = 54%nat →
  (container_length extn secret ≤ length px)%nat →
  5 ≤ Z.of_nat (String.length extn) < 2 ^ 31 →
  ∃ log' d',
    Decode.do_decoding (Decode.decode_args name out)
      (hdr ++ container extn secret px ++ tail)
    = Some (e_failure, log', d')
    ∧ Decode.fptr_secret_out d' = None.
Proof.
  intros Hhdr Hroom Hlong.
  destruct (do_decoding_stages (Decode.decode_args name out)
              (hdr ++ container extn secret px ++ tail))
    as [(log1 & d1 & Hfail & Hout & _)|(n & ext & Hn & Hfield & _)]; [done..|eauto|].
  exfalso. revert Hfield. unfold container.
  unfold container_length in Hroom. change (String.length MAGIC_STRING) with 2%nat in Hroom.
  set (B1 := embed (bytes_of_string MAGIC_STRING) px).
  set (B2 := embed_size (int_wrap (Z.of_nat (String.length extn))) (drop 16 px)).
  assert (HB1 : length B1 = 16%nat) by (apply length_embed; cbn; lia).
  assert (HB2 : length B2 = 32%nat)
    by (apply length_embed_size; rewrite !length_drop; lia).
  rewrite <- !app_assoc. rewrite (app_assoc hdr B1).
  rewrite drop_app_length' by (rewrite length_app; lia).
  rewrite take_app_length' by done. unfold B2.
  rewrite decode_size_block by (rewrite ?length_drop, ?int_wrap_small; lia).
  rewrite int_wrap_small by lia. lia.
Qed.

End DecodeMore.

(** ** The stem of the output name *)

Section StemShape.

Lemma token_of_no_period s : no_period (Decode.token_of "." s).
Proof.
  unfold no_period. induction s as [|c s IH]; cbn [Decode.token_of].
  - apply not_elem_of_nil.
  - rewrite is_delim_period. case_bool_decide as Hc; [apply not_elem_of_nil|].
    cbn [String.list_ascii_of_string]. apply not_elem_of_cons. split; [congruence|done].
Qed.

Lemma length_token_of delim s :
  (String.length (Decode.token_of delim s) ≤ String.length s)%nat.
Proof.
  induction s as [|c s IH]; cbn [Decode.token_of]; [done|].
  destruct (Decode.is_delim delim c); cbn [String.length]; lia.
Qed.

Lemma length_skip_delims delim s :
  (String.length (Decode.skip_delims delim s) ≤ String.length s)%nat.
Proof.
  induction s as [|c s IH]; cbn [Decode.skip_delims]; [done|].
  destruct (Decode.is_delim delim c); cbn [String.length]; lia.
Qed.

Lemma length_substring_0 n s : (String.length (String.substring 0 n s) ≤ n)%nat.
Proof.
  revert s. induction n as [|n IH]; intros s; destruct s as [|c s]; cbn; try lia.
  specialize (IH s). lia.
Qed.

Lemma no_period_decoded : no_period "decoded".
Proof. unfold no_period. intros H. by repeat (apply elem_of_cons in H as [H|H]; [done|]);
  apply elem_of_nil in H. Qed.

(** X27.  The stem that do_decoding gives the output name is never empty,
    never holds a period and never has more than 255 characters, whatever
    name was asked for. *)
Theorem output_base_shape (output_fname : option string) :
  Decode.output_base output_fname ≠ ""%string
  ∧ no_period (Decode.output_base output_fname)
  ∧ (String.length (Decode.output_base output_fname) ≤ 255)%nat.
Proof.
  assert (Hdef : "decoded" ≠ ""%string ∧ no_period "decoded"
                 ∧ (String.length "decoded" ≤ 255)%nat).
  { split; [done|]. split; [apply no_period_decoded|cbn; lia]. }
  unfold Decode.output_base.
  destruct output_fname as [[|c name]|]; [done| |done].
  unfold Decode.strtok, Decode.strncpy.
  pose proof (length_substring_0 255 (String c name)) as Hsub.
  pose proof (length_skip_delims "." (String.substring 0 255 (String c name))) as Hskip.
  destruct (Decode.skip_delims "." _) as [|c1 rest]; [done|].
  pose proof (token_of_no_period (String c1 rest)) as Hno.
  pose proof (length_token_of "." (String c1 rest)) as Htok.
  destruct (Decode.token_of "." (String c1 rest)) as [|c2 token]; [done|].
  split; [done|]. split; [done|]. lia.
Qed.

End StemShape.

(** ** Closed instances of the further properties *)

Lemma decode_byte_from_lsb_reads_lsbs_witness :
  Decode.decode_byte_from_lsb (T := zeroed_stack) [1; 2; 3; 4; 5; 6; 7; 8]
  = Decode.decode_byte_from_lsb (T := zeroed_stack) [3; 4; 5; 6; 7; 8; 9; 10]
  ∧ 0 ≤ (Decode.decode_byte_from_lsb (T := zeroed_stack) [1; 2; 3; 4; 5; 6; 7; 8]).2 < 256.
Proof.
  apply (decode_byte_from_lsb_reads_lsbs (T := zeroed_stack)).
  - vm_compute. lia.
  - vm_compute. lia.
  - reflexivity.
Defined.

Lemma data_round_trip_witness :
  ∃ src w dst' f,
    Encode.encode_data_to_image (T := zeroed_stack) sample_secret (length sample_secret)
      (mkFILE "cover.bmp" sample_cover 54) (mkFILE "stego.bmp" [] 0)
    = (e_success, src, mkFILE "stego.bmp" w (length w))
    ∧ Decode.decode_data_from_image (T := zeroed_stack) [0; 0; 0]
        (Z.of_nat (length sample_secret)) (mkFILE "stego.bmp" w 0)
      = (e_success, dst', f)
    ∧ take (length sample_secret) dst' = sample_secret.
Proof.
  apply (data_round_trip (T := zeroed_stack) sample_secret [0; 0; 0] sample_cover
           "cover.bmp" "stego.bmp" 54).
  - exact sample_is_bytes.
  - vm_compute. lia.
  - vm_compute. lia.
Defined.

Lemma stego_length_witness :
  length (contents (Encode.fptr_stego_image (sample_encoded zeroed_stack "s.txt" sample_secret)))
  = (length sample_cover
     `max` (54 + container_length
                   (Encode.extn_secret_file (sample_encoded zeroed_stack "s.txt" sample_secret))
                   sample_secret))%nat.
Proof.
  apply (stego_length (T := zeroed_stack) (Encode.encode_args "cover.bmp" "s.txt" "stego.bmp")
           (sample_encoded zeroed_stack "s.txt" sample_secret) sample_cover sample_secret []).
  vm_compute. reflexivity.
Defined.

Lemma stego_differs_in_lsb_only_witness :
  Forall2 same_upper_bits
    (contents (Encode.fptr_stego_image (sample_encoded zeroed_stack "s.txt" sample_secret)))
    sample_cover.
Proof.
  apply (stego_differs_in_lsb_only (T := zeroed_stack)
           (Encode.encode_args "cover.bmp" "s.txt" "stego.bmp")
           (sample_encoded zeroed_stack "s.txt" sample_secret) sample_cover sample_secret []).
  - vm_compute. reflexivity.
  - vm_compute. lia.
Defined.

Lemma stego_wire_format_witness :
  let e' := sample_encoded zeroed_stack "s.txt" sample_secret in
  lsbs (take (container_length (Encode.extn_secret_file e') sample_secret)
          (drop 54 (contents (Encode.fptr_stego_image e'))))
  = bits_of_bytes (bytes_of_string MAGIC_STRING)
    ++ bits_of_size (Z.of_nat (String.length (Encode.extn_secret_file e')))
    ++ bits_of_bytes (bytes_of_string (Encode.extn_secret_file e'))
    ++ bits_of_size (Z.of_nat (length sample_secret))
    ++ bits_of_bytes sample_secret.
Proof.
  apply (stego_wire_format (T := zeroed_stack)
           (Encode.encode_args "cover.bmp" "s.txt" "stego.bmp")
           (sample_encoded zeroed_stack "s.txt" sample_secret) sample_cover sample_secret []).
  - vm_compute. reflexivity.
  - vm_compute. lia.
Defined.

Lemma check_capacity_room_witness :
  Z.of_nat (container_length ".txt" [1; 2; 3; 4])
  ≤ image_capacity (T := zeroed_stack) (sample_header 8 6).
Proof.
  apply (check_capacity_room (T := zeroed_stack) (opened (sample_header 8 6) [1; 2; 3; 4])
           "cover.bmp" "s.txt" ".txt" (sample_header 8 6) [1; 2; 3; 4] 0 0).
  - reflexivity.
  - reflexivity.
  - vm_compute. reflexivity.
  - vm_compute. lia.
  - vm_compute. reflexivity.
Defined.

Lemma copy_remaining_img_data_copies_rest_witness :
  Encode.copy_remaining_img_data (T := zeroed_stack)
    (mkFILE "cover.bmp" [1; 2; 3; 4; 5] 2) (mkFILE "stego.bmp" [9] 1)
  = (e_success, mkFILE "cover.bmp" [1; 2; 3; 4; 5] 5, mkFILE "stego.bmp" [9; 3; 4; 5] 4).
Proof.
  apply (copy_remaining_img_data_copies_rest (T := zeroed_stack)
           "cover.bmp" "stego.bmp" [1; 2; 3; 4; 5] [9] 2).
  vm_compute. lia.
Defined.

Lemma encode_secret_file_data_one_call_witness :
  let e := Encode.set_files (Encode.encode_args "cover.bmp" "s.txt" "stego.bmp")
             (mkFILE "cover.bmp" sample_cover 54) (mkFILE "s.txt" sample_secret 1)
             (mkFILE "stego.bmp" [] 0) in
  ∃ src stego,
    Encode.encode_data_to_image (T := zeroed_stack) sample_secret (length sample_secret)
      (mkFILE "cover.bmp" sample_cover 54) (mkFILE "stego.bmp" [] 0)
    = (e_success, src, stego)
    ∧ Encode.encode_secret_file_data (T := zeroed_stack) e
      = (e_success,
         Encode.set_files e src (mkFILE "s.txt" sample_secret (length sample_secret)) stego).
Proof.
  apply (encode_secret_file_data_one_call (T := zeroed_stack) _ "s.txt" "cover.bmp"
           "stego.bmp" sample_secret sample_cover [] 1 54).
  - reflexivity.
  - reflexivity.
  - reflexivity.
  - vm_compute. lia.
Defined.

Lemma do_encoding_capacity_failure_witness :
  ∃ e', Encode.do_encoding (T := zeroed_stack)
          (Encode.encode_args "cover.bmp" "s.txt" "stego.bmp") sample_cover [1; 2; 3; 4; 5]
        = Some (e_failure,
                ["ERROR: Image does not have enough capacity to hold the secret"], e')
      ∧ Encode.fptr_stego_image e' = fopen_wb "stego.bmp".
Proof.
  apply (do_encoding_capacity_failure (T := zeroed_stack)
           (Encode.encode_args "cover.bmp" "s.txt" "stego.bmp") sample_cover [1; 2; 3; 4; 5]).
  - vm_compute. reflexivity.
  - vm_compute. reflexivity.
Defined.

Lemma validated_args_undefined_iff_witness :
  Encode.read_and_validate_encode_args sample_argv (Encode.encode_args "" "" "")
  = (e_success, Encode.encode_args "cover.bmp" "s.txt" "stego.bmp")
  ∧ (Encode.do_encoding (T := zeroed_stack)
       (Encode.encode_args "cover.bmp" "s.txt" "stego.bmp") sample_cover sample_secret
     = None
     ↔ 0 < uint_wrap (Z.of_nat (length sample_secret))
       ∧ ¬ image_capacity (T := zeroed_stack) sample_cover / 8
           < uint_wrap (uint_wrap (Z.of_nat (length sample_secret)) + 14)
       ∧ ¬ single_extension "s.txt").
Proof.
  split; [vm_compute; reflexivity|].
  apply (validated_args_undefined_iff (T := zeroed_stack) sample_argv
           (Encode.encode_args "" "" "")).
  vm_compute. reflexivity.
Defined.


Lemma do_decoding_all_or_nothing_witness :
  let d' := sample_decoded zeroed_stack None (sample_stego zeroed_stack "s.txt" sample_secret) in
  (e_success = e_failure ∧ [] ≠ @nil string ∧ Decode.fptr_secret_out d' = None)
  ∨ (e_success = e_success ∧ [] = @nil string
     ∧ ∃ out, Decode.fptr_secret_out d' = Some out
              ∧ length (contents out) = Z.to_nat (Decode.size_secret_file d')).
Proof.
  apply (do_decoding_all_or_nothing (T := zeroed_stack) (Decode.decode_args "stego.bmp" None)
           _ (sample_stego zeroed_stack "s.txt" sample_secret)).
  - reflexivity.
  - reflexivity.
  - vm_compute. reflexivity.
Defined.

Lemma do_decoding_success_needs_witness :
  let stego := sample_stego zeroed_stack "s.txt" sample_secret in
  let d' := sample_decoded zeroed_stack None stego in
  1 ≤ Decode.extn_size d' ≤ 4
  ∧ (String.length (string_of_bytes (c_str (Decode.extn_secret_file d')))
     ≤ Z.to_nat (Decode.extn_size d'))%nat
  ∧ (102 + 8 * Z.to_nat (Decode.extn_size d') ≤ length stego)%nat.
Proof.
  apply (do_decoding_success_needs (T := zeroed_stack) (Decode.decode_args "stego.bmp" None)
           _ (sample_stego zeroed_stack "s.txt" sample_secret) []).
  - reflexivity.
  - reflexivity.
  - vm_compute. reflexivity.
Defined.

Lemma do_decoding_short_image_witness :
  ∃ log d',
    Decode.do_decoding (T := zeroed_stack) (Decode.decode_args "stego.bmp" None)
      (sample_header 8 6)
    = Some (e_failure, log, d')
    ∧ Decode.fptr_secret_out d' = None.
Proof.
  apply (do_decoding_short_image (T := zeroed_stack) (Decode.decode_args "stego.bmp" None)
           (sample_header 8 6)).
  - reflexivity.
  - reflexivity.
  - vm_compute. lia.
Defined.

Lemma do_decoding_name_fits_witness :
  ∃ st log d',
    Decode.do_decoding (T := zeroed_stack) (Decode.decode_args "stego.bmp" None) sample_cover
    = Some (st, log, d').
Proof.
  apply (do_decoding_name_fits (T := zeroed_stack) (Decode.decode_args "stego.bmp" None)
           sample_cover).
  - reflexivity.
  - reflexivity.
  - vm_compute. lia.
Defined.

Lemma main_decode_exit_status_witness :
  Main.check_operation_type sample_argv_decode = Main.e_decode
  ∧ (Main.main (T := zeroed_stack) sample_argv_decode sample_disk = Some 0
     ∨ Main.main (T := zeroed_stack) sample_argv_decode sample_disk = Some 1).
Proof.
  split; [vm_compute; reflexivity|].
  apply (main_decode_exit_status (T := zeroed_stack) sample_argv_decode sample_disk).
  - vm_compute. reflexivity.
  - vm_compute. lia.
Defined.

Lemma do_decoding_name_overrun_witness :
  Decode.do_decoding (T := zeroed_stack) (Decode.decode_args "stego.bmp" (Some long_stem))
    (sample_header 8 6
       ++ container (T := zeroed_stack) ".txt" sample_secret (Z.of_nat <$> seq 100 150) ++ [])
  = None.
Proof.
  apply (do_decoding_name_overrun (T := zeroed_stack) "stego.bmp" (Some long_stem) ".txt"
           sample_secret (sample_header 8 6) (Z.of_nat <$> seq 100 150) []).
  - reflexivity.
  - reflexivity.
  - vm_compute. lia.
  - exact nul_free_txt.
  - vm_compute. lia.
  - vm_compute. lia.
Defined.

Lemma decode_magic_string_accepts_iff_witness :
  let stego := sample_stego zeroed_stack "s.txt" sample_secret in
  let d := (Decode.open_files_decode (Decode.decode_args "stego.bmp" None) stego).2 in
  (Decode.decode_magic_string (T := zeroed_stack) d).1 = e_success
  ↔ signature_present stego ∧ uninit (Target := zeroed_stack) "decode_magic_string.buffer" 2%nat = 0.
Proof.
  apply (decode_magic_string_accepts_iff (T := zeroed_stack) _ "stego.bmp").
  reflexivity.
Defined.

Lemma long_extension_not_decodable_witness :
  ∃ log' d',
    Decode.do_decoding (T := zeroed_stack) (Decode.decode_args "stego.bmp" None)
      (sample_header 8 6
         ++ container (T := zeroed_stack) ".b.txt" sample_secret (Z.of_nat <$> seq 100 150)
         ++ [])
    = Some (e_failure, log', d')
    ∧ Decode.fptr_secret_out d' = None.
Proof.
  apply (long_extension_not_decodable (T := zeroed_stack) "stego.bmp" None ".b.txt"
           sample_secret (sample_header 8 6) (Z.of_nat <$> seq 100 150) []).
  - reflexivity.
  - vm_compute. lia.
  - vm_compute. split; [discriminate|reflexivity].
Defined.

Lemma encode_data_to_image_ignores_short_reads_witness :
  ∃ src w,
    Encode.encode_data_to_image (T := zeroed_stack) sample_secret 2
      (mkFILE "cover.bmp" (sample_header 8 6) 50) (mkFILE "stego.bmp" [] 0)
    = (e_success, src, mkFILE "stego.bmp" ([] ++ w) (length ([] ++ w)))
    ∧ length w = (8 * (2 `min` length sample_secret))%nat
    ∧ ((50 + 8 * (2 `min` length sample_secret) ≤ length (sample_header 8 6))%nat
       → w = embed (T := zeroed_stack) (take 2 sample_secret) (drop 50 (sample_header 8 6))).
Proof.
  apply (encode_data_to_image_ignores_short_reads (T := zeroed_stack) sample_secret 2
           "cover.bmp" "stego.bmp" (sample_header 8 6) [] 50).
  vm_compute. lia.
Defined.
